(** * Offset Edges (mesh_offset_edges.py): a shallow embedding and its properties

    The add-on computes, for a set of selected boundary edges of a mesh, a
    pair of displacement directions per vertex and then extrudes or moves
    the geometry.  This file embeds the functions of
    [src/mesh_offset_edges.py] and states the properties of the
    specification over them.

    Conventions of the embedding.
    - Python floats and the components of [mathutils.Vector] are read as
      real numbers ([R]); rounding, infinities and NaN are outside the
      model.  [Vector.__eq__] is exact equality.
    - Python exceptions are the [Raise] results of a small error monad.
    - BMesh elements are addresses into an object store; Python's [is] on
      elements is equality of addresses.
    - A Python [set] is the list of its elements in iteration order;
      [set.pop()] takes the first one.
    - The module constant [Z_UP] is a mutable [Vector] object which the
      source can alias and update in place; it is threaded explicitly. *)

From Stdlib Require Import Reals Lra Lia List ZArith Bool Arith PeanoNat Permutation.
Import ListNotations.

(* ------------------------------------------------------------------ *)
(** * Exceptions and results *)

Inductive exn : Type :=
| KeyError
| ValueError
| IndexError
| AttributeError
| TypeError
| ReferenceError
| ZeroDivisionError.

(** [OutOfFuel] is not a Python outcome: it is what a loop of the model
    answers when its recursion budget is too small.  The budgets chosen by
    the entry points are proved sufficient below. *)
Inductive result (A : Type) : Type :=
| Ok (a : A)
| Raise (e : exn)
| OutOfFuel.

Arguments Ok {A} a.
Arguments Raise {A} e.
Arguments OutOfFuel {A}.

Definition bind {A B : Type} (m : result A) (k : A -> result B) : result B :=
  match m with
  | Ok a => k a
  | Raise e => Raise e
  | OutOfFuel => OutOfFuel
  end.

Declare Scope py_scope.
Delimit Scope py_scope with py.
Notation "x <- m ;; k" := (bind m (fun x => k))
  (at level 61, m at next level, right associativity) : py_scope.
Notation "' pat <- m ;; k" := (bind m (fun x => match x with pat => k end))
  (at level 61, pat pattern, m at next level, right associativity) : py_scope.
Open Scope py_scope.

Definition is_ok {A : Type} (m : result A) : bool :=
  match m with Ok _ => true | _ => false end.

(** [for x in xs: acc = body(acc, x)] with exceptions. *)
Fixpoint foldM {A B : Type} (body : A -> B -> result A) (acc : A) (xs : list B)
  : result A :=
  match xs with
  | [] => Ok acc
  | x :: xs' => acc' <- body acc x ;; foldM body acc' xs'
  end.

(** A list comprehension whose element expression can raise. *)
Fixpoint mapM {A B : Type} (f : A -> result B) (xs : list A) : result (list B) :=
  match xs with
  | [] => Ok []
  | x :: xs' => y <- f x ;; ys <- mapM f xs' ;; Ok (y :: ys)
  end.

(* ------------------------------------------------------------------ *)
(** * Python sequences *)

(** [l[i]] for a Python integer [i]: negative indices count from the end. *)
Definition py_index {A : Type} (l : list A) (i : Z) : result A :=
  let n := Z.of_nat (length l) in
  let j := if (i <? 0)%Z then (i + n)%Z else i in
  if ((j <? 0)%Z || (n <=? j)%Z)%bool then Raise IndexError
  else match nth_error l (Z.to_nat j) with
       | Some a => Ok a
       | None => Raise IndexError
       end.

(** Clamping of one slice bound, as [slice.indices] does for step 1. *)
Definition py_clamp (n i : Z) : Z :=
  let j := if (i <? 0)%Z then (i + n)%Z else i in
  Z.max 0 (Z.min n j).

(** [l[lo:hi]]. *)
Definition py_slice {A : Type} (l : list A) (lo hi : Z) : list A :=
  let n := Z.of_nat (length l) in
  let a := py_clamp n lo in
  let b := py_clamp n hi in
  firstn (Z.to_nat (b - a)) (skipn (Z.to_nat a) l).

(** [l[::2]] and [l[1::2]]. *)
Fixpoint evens {A : Type} (l : list A) : list A :=
  match l with
  | [] => []
  | a :: l' => a :: odds l'
  end
with odds {A : Type} (l : list A) : list A :=
  match l with
  | [] => []
  | _ :: l' => evens l'
  end.

(** [zip(xs, ys)] is [List.combine]. *)

(** [range(a, b)] and [range(a, b, -1)] with a bound on the length. *)
Fixpoint range_up (n : nat) (a : Z) : list Z :=
  match n with
  | O => []
  | S n' => a :: range_up n' (a + 1)%Z
  end.

Fixpoint range_down (n : nat) (a : Z) : list Z :=
  match n with
  | O => []
  | S n' => a :: range_down n' (a - 1)%Z
  end.

Definition py_range (a b : Z) : list Z := range_up (Z.to_nat (b - a)) a.
Definition py_range_rev (a b : Z) : list Z := range_down (Z.to_nat (a - b)) a.

(** Sets of addresses: membership, [remove] (raises when absent), [add]. *)
Definition mem (x : nat) (s : list nat) : bool := existsb (Nat.eqb x) s.

Fixpoint discard (x : nat) (s : list nat) : list nat :=
  match s with
  | [] => []
  | y :: s' => if Nat.eqb x y then discard x s' else y :: discard x s'
  end.

Definition set_remove (x : nat) (s : list nat) : result (list nat) :=
  if mem x s then Ok (discard x s) else Raise KeyError.

Definition set_add (x : nat) (s : list nat) : list nat :=
  if mem x s then s else s ++ [x].

Definition set_of_list (l : list nat) : list nat :=
  fold_left (fun s x => set_add x s) l [].

(* ------------------------------------------------------------------ *)
(** * Real scalars with boolean tests *)

Open Scope R_scope.

Definition Reqb (a b : R) : bool := if Req_dec_T a b then true else false.
Definition Rltb (a b : R) : bool := if Rlt_dec a b then true else false.
Definition Rleb (a b : R) : bool := if Rle_dec a b then true else false.

(* ------------------------------------------------------------------ *)
(** * mathutils.Vector (three components) *)

Record Vector : Type := vec { vx : R; vy : R; vz : R }.

Definition vadd (a b : Vector) : Vector :=
  vec (vx a + vx b) (vy a + vy b) (vz a + vz b).
Definition vsub (a b : Vector) : Vector :=
  vec (vx a - vx b) (vy a - vy b) (vz a - vz b).
Definition vscale (k : R) (a : Vector) : Vector :=
  vec (k * vx a) (k * vy a) (k * vz a).
Definition vneg (a : Vector) : Vector := vec (- vx a) (- vy a) (- vz a).
Definition dot (a b : Vector) : R := vx a * vx b + vy a * vy b + vz a * vz b.
Definition cross (a b : Vector) : Vector :=
  vec (vy a * vz b - vz a * vy b)
      (vz a * vx b - vx a * vz b)
      (vx a * vy b - vy a * vx b).
Definition length_v (a : Vector) : R := sqrt (dot a a).

Definition veqb (a b : Vector) : bool :=
  Reqb (vx a) (vx b) && Reqb (vy a) (vy b) && Reqb (vz a) (vz b).

Definition X_UP : Vector := vec 1 0 0.
Definition Y_UP : Vector := vec 0 1 0.
Definition ZERO_VEC : Vector := vec 0 0 0.
Definition Z_UP_initial : Vector := vec 0 0 1.
Definition ANGLE_180 : R := PI.

(** [v.normalize()] / [v.normalized()]: a zero vector is left as it is. *)
Definition normalized (a : Vector) : Vector :=
  if Rltb 0 (dot a a) then vscale (/ sqrt (dot a a)) a else ZERO_VEC.

(** [a.project(b)]: the component of [a] along [b]. *)
Definition project (a b : Vector) : Vector := vscale (dot a b / dot b b) b.

(** [a.angle(b)] without a fallback: a zero-length operand raises
    [ValueError]; the cosine is clamped to [-1, 1], which [acos] does.
    The angle is the arc cosine over the real numbers; the host rounds
    to single precision, and answers a number just above pi for opposite
    vectors. *)
Definition vangle (a b : Vector) : result R :=
  if (Reqb (dot a a) 0 || Reqb (dot b b) 0)%bool then Raise ValueError
  else Ok (acos (dot a b / (sqrt (dot a a) * sqrt (dot b b)))).

(* ------------------------------------------------------------------ *)
(** * mathutils.Matrix (square, as a list of rows) *)

Definition Matrix : Type := list (list R).

Fixpoint drop_nth {A : Type} (n : nat) (l : list A) : list A :=
  match l, n with
  | [], _ => []
  | _ :: l', O => l'
  | a :: l', S n' => a :: drop_nth n' l'
  end.

Definition minor (m : Matrix) (i j : nat) : Matrix :=
  map (drop_nth j) (drop_nth i m).

Definition sign (k : nat) : R := if Nat.even k then 1 else -1.

(** Laplace expansion along the first row of an [n] by [n] matrix. *)
Fixpoint determinant (n : nat) (m : Matrix) : R :=
  match n with
  | O => 1
  | S n' =>
      match m with
      | [] => 0
      | row :: _ =>
          (fix expand (r : list R) (j : nat) {struct r} : R :=
             match r with
             | [] => 0
             | a :: r' =>
                 sign j * a * determinant n' (minor m 0 j) + expand r' (S j)
             end) row 0%nat
      end
  end.

Definition mat_entry (m : Matrix) (i j : nat) : R := nth j (nth i m []) 0.

(** [m.adjugated()] for a 4x4 matrix: the transposed cofactor matrix. *)
Definition adjugated (m : Matrix) : Matrix :=
  map (fun i => map (fun j => sign (i + j) * determinant 3 (minor m j i))
                    (seq 0 4))
      (seq 0 4).

(** [m.inverted()]: raises [ValueError] for a singular matrix. *)
Definition inverted (m : Matrix) : result Matrix :=
  let d := determinant 4 m in
  if Reqb d 0 then Raise ValueError
  else Ok (map (map (fun a => a / d)) (adjugated m)).

(** [a * b]: the matrix product. *)
Definition mat_mul (a b : Matrix) : Matrix :=
  map (fun i => map (fun j =>
                       fold_right Rplus 0
                         (map (fun k => mat_entry a i k * mat_entry b k j)
                              (seq 0 4)))
                    (seq 0 4))
      (seq 0 4).

Definition to_translation (m : Matrix) : Vector :=
  vec (mat_entry m 0 3) (mat_entry m 1 3) (mat_entry m 2 3).

(** [row.to_3d()] of a row of a 4x4 matrix. *)
Definition to_3d (row : list R) : Vector :=
  vec (nth 0 row 0) (nth 1 row 0) (nth 2 row 0).

Definition identity_matrix : Matrix :=
  [[1; 0; 0; 0]; [0; 1; 0; 0]; [0; 0; 1; 0]; [0; 0; 0; 1]].

(* ------------------------------------------------------------------ *)
(** * The BMesh object store *)

(** An element of a heterogeneous Python collection of mesh elements (a
    loop [[v, e, v, ...]], the [geom] list of an operator). *)
Inductive BMElem : Type :=
| BMVert (v : nat)
| BMEdge (e : nat)
| BMFace (f : nat).

Definition BMElem_eqb (a b : BMElem) : bool :=
  match a, b with
  | BMVert x, BMVert y => Nat.eqb x y
  | BMEdge x, BMEdge y => Nat.eqb x y
  | BMFace x, BMFace y => Nat.eqb x y
  | _, _ => false
  end.

Record vert_data : Type := mk_vert {
  v_co : Vector;
  v_link_edges : list nat;
  v_index : Z;
  v_select : bool;
  v_hide : bool;
  v_valid : bool
}.

Record edge_data : Type := mk_edge {
  e_verts : nat * nat;
  e_link_faces : list nat;
  e_index : Z;
  e_select : bool;
  e_hide : bool;
  e_valid : bool
}.

Record face_data : Type := mk_face {
  f_verts : list nat;
  f_normal : Vector;
  f_select : bool;
  f_hide : bool;
  f_valid : bool
}.

(** The store keeps removed elements as invalid entries, so that an
    address never changes its meaning. *)
Record BMesh : Type := mk_bmesh {
  vert_store : list vert_data;
  edge_store : list edge_data;
  face_store : list face_data
}.

Definition get_vert (bm : BMesh) (v : nat) : result vert_data :=
  match nth_error (vert_store bm) v with
  | Some d => if v_valid d then Ok d else Raise ReferenceError
  | None => Raise ReferenceError
  end.

Definition get_edge (bm : BMesh) (e : nat) : result edge_data :=
  match nth_error (edge_store bm) e with
  | Some d => if e_valid d then Ok d else Raise ReferenceError
  | None => Raise ReferenceError
  end.

Definition get_face (bm : BMesh) (f : nat) : result face_data :=
  match nth_error (face_store bm) f with
  | Some d => if f_valid d then Ok d else Raise ReferenceError
  | None => Raise ReferenceError
  end.

(** [bm.verts], [bm.edges], [bm.faces]: the valid addresses in order. *)
Definition valid_addresses {A : Type} (valid : A -> bool) (store : list A)
  : list nat :=
  map fst (filter (fun p => valid (snd p)) (combine (seq 0 (length store)) store)).

Definition bm_verts (bm : BMesh) : list nat := valid_addresses v_valid (vert_store bm).
Definition bm_edges (bm : BMesh) : list nat := valid_addresses e_valid (edge_store bm).
Definition bm_faces (bm : BMesh) : list nat := valid_addresses f_valid (face_store bm).

(** [e.other_vert(v)]: [None] when [v] is not an end of [e]. *)
Definition other_vert (bm : BMesh) (e v : nat) : result (option nat) :=
  ed <- get_edge bm e ;;
  let '(a, b) := e_verts ed in
  Ok (if Nat.eqb a v then Some b else if Nat.eqb b v then Some a else None).

(** [x.co] of the result of [other_vert]: [None.co] is an
    [AttributeError]. *)
Definition co_of (bm : BMesh) (v : nat) : result Vector :=
  d <- get_vert bm v ;; Ok (v_co d).

Fixpoint update_nth {A : Type} (n : nat) (f : A -> A) (l : list A) : list A :=
  match l, n with
  | [], _ => []
  | a :: l', O => f a :: l'
  | a :: l', S n' => a :: update_nth n' f l'
  end.

Definition update_vert (bm : BMesh) (v : nat) (f : vert_data -> vert_data) : BMesh :=
  mk_bmesh (update_nth v f (vert_store bm)) (edge_store bm) (face_store bm).
Definition update_edge (bm : BMesh) (e : nat) (f : edge_data -> edge_data) : BMesh :=
  mk_bmesh (vert_store bm) (update_nth e f (edge_store bm)) (face_store bm).
Definition update_face (bm : BMesh) (f : nat) (g : face_data -> face_data) : BMesh :=
  mk_bmesh (vert_store bm) (edge_store bm) (update_nth f g (face_store bm)).

Definition with_co (c : Vector) (d : vert_data) : vert_data :=
  mk_vert c (v_link_edges d) (v_index d) (v_select d) (v_hide d) (v_valid d).
Definition with_v_select (b : bool) (d : vert_data) : vert_data :=
  mk_vert (v_co d) (v_link_edges d) (v_index d) b (v_hide d) (v_valid d).
Definition with_v_index (i : Z) (d : vert_data) : vert_data :=
  mk_vert (v_co d) (v_link_edges d) i (v_select d) (v_hide d) (v_valid d).
Definition with_v_link_edges (l : list nat) (d : vert_data) : vert_data :=
  mk_vert (v_co d) l (v_index d) (v_select d) (v_hide d) (v_valid d).
Definition with_v_valid (b : bool) (d : vert_data) : vert_data :=
  mk_vert (v_co d) (v_link_edges d) (v_index d) (v_select d) (v_hide d) b.
Definition with_e_select (b : bool) (d : edge_data) : edge_data :=
  mk_edge (e_verts d) (e_link_faces d) (e_index d) b (e_hide d) (e_valid d).
Definition with_e_index (i : Z) (d : edge_data) : edge_data :=
  mk_edge (e_verts d) (e_link_faces d) i (e_select d) (e_hide d) (e_valid d).
Definition with_e_link_faces (l : list nat) (d : edge_data) : edge_data :=
  mk_edge (e_verts d) l (e_index d) (e_select d) (e_hide d) (e_valid d).
Definition with_e_valid (b : bool) (d : edge_data) : edge_data :=
  mk_edge (e_verts d) (e_link_faces d) (e_index d) (e_select d) (e_hide d) b.
Definition with_f_select (b : bool) (d : face_data) : face_data :=
  mk_face (f_verts d) (f_normal d) b (f_hide d) (f_valid d).
Definition with_f_valid (b : bool) (d : face_data) : face_data :=
  mk_face (f_verts d) (f_normal d) (f_select d) (f_hide d) b.

(** Modelled from the spec: the host's selection flags of section 6.
    Writing the [select] attribute of an element goes through the host's
    selection routine, which leaves a hidden element alone and keeps the
    flags of the neighbouring elements in step; this is what section 4.4
    relies on for "originals are deselected".  The program writes the
    attribute in two ways only, and these are modelled:

    - [f.select = False] clears the flag of the face, then the flag of
      each edge of the face that no selected face uses any more, then
      the flag of each vertex of the face that no selected edge uses;
    - [e.select = True] sets the flag of the element and of the elements
      below it: the two ends of an edge, the vertices and edges of a
      face.

    The edges of a face are the valid edges that list it among their
    [link_faces]. *)
Definition map_indexed {A : Type} (F : nat -> A -> A) (l : list A) : list A :=
  map (fun p => F (fst p) (snd p)) (combine (seq 0 (length l)) l).

Definition face_in_selection (bm : BMesh) (f : nat) : bool :=
  match nth_error (face_store bm) f with
  | Some d => (f_valid d && f_select d)%bool
  | None => false
  end.

Definition edge_in_selection (bm : BMesh) (e : nat) : bool :=
  match nth_error (edge_store bm) e with
  | Some d => (e_valid d && e_select d)%bool
  | None => false
  end.

Definition deselect_face (bm : BMesh) (f : nat) : result BMesh :=
  fd <- get_face bm f ;;
  if f_hide fd then Ok bm
  else
    let bm1 := update_face bm f (with_f_select false) in
    let edges' :=
      map_indexed
        (fun _ d =>
           if (e_valid d && negb (e_hide d) && mem f (e_link_faces d)
               && negb (existsb (face_in_selection bm1) (e_link_faces d)))%bool
           then with_e_select false d else d)
        (edge_store bm1) in
    let bm2 := mk_bmesh (vert_store bm1) edges' (face_store bm1) in
    let verts' :=
      map_indexed
        (fun v d =>
           if (v_valid d && negb (v_hide d) && mem v (f_verts fd)
               && negb (existsb (edge_in_selection bm2) (v_link_edges d)))%bool
           then with_v_select false d else d)
        (vert_store bm2) in
    Ok (mk_bmesh verts' edges' (face_store bm1)).

Definition select_vert_flag (d : vert_data) : vert_data :=
  if v_hide d then d else with_v_select true d.

Definition select_elem (bm : BMesh) (el : BMElem) : result BMesh :=
  match el with
  | BMVert v => _ <- get_vert bm v ;; Ok (update_vert bm v select_vert_flag)
  | BMEdge e =>
      ed <- get_edge bm e ;;
      if e_hide ed then Ok bm
      else
        let '(v1, v2) := e_verts ed in
        Ok (update_vert
              (update_vert (update_edge bm e (with_e_select true)) v1 select_vert_flag)
              v2 select_vert_flag)
  | BMFace f =>
      fd <- get_face bm f ;;
      if f_hide fd then Ok bm
      else
        let edges' :=
          map_indexed
            (fun _ d =>
               if (e_valid d && negb (e_hide d) && mem f (e_link_faces d))%bool
               then with_e_select true d else d)
            (edge_store bm) in
        let verts' :=
          map_indexed
            (fun v d =>
               if (v_valid d && mem v (f_verts fd))%bool
               then select_vert_flag d else d)
            (vert_store bm) in
        Ok (mk_bmesh verts' edges' (update_nth f (with_f_select true) (face_store bm)))
  end.

(** [v.co += d]. *)
Definition add_co (bm : BMesh) (v : nat) (d : Vector) : result BMesh :=
  vd <- get_vert bm v ;;
  Ok (update_vert bm v (with_co (vadd (v_co vd) d))).

(* ------------------------------------------------------------------ *)
(** * Module state: the mutable constant [Z_UP]

    [X_UP], [Y_UP] and [ZERO_VEC] are aliased by the source as well, but no
    statement changes their value ([ZERO_VEC *= .0] and the normalisation
    of a zero vector leave it zero), so they stay constants here.  [Z_UP]
    is handed out as [normal_fallback] and as the normal of a mirror
    plane; [calc_normal_from_verts] returns the very object it was given
    as fallback, and [lp_normal *= -1] / [normal *= -1] then update it in
    place. *)

Record globals : Type := mk_globals { Z_UP : Vector }.

Definition initial_globals : globals := mk_globals Z_UP_initial.

(** A reference to a [Vector] object: one owned by the current
    computation, or the module's [Z_UP]. *)
Inductive vec_ref : Type :=
| Own (v : Vector)
| Ref_Z_UP.

Definition deref (g : globals) (r : vec_ref) : Vector :=
  match r with
  | Own v => v
  | Ref_Z_UP => Z_UP g
  end.

(** [r *= k], in place. *)
Definition imul (g : globals) (r : vec_ref) (k : R) : globals * vec_ref :=
  match r with
  | Own v => (g, Own (vscale k v))
  | Ref_Z_UP => (mk_globals (vscale k (Z_UP g)), Ref_Z_UP)
  end.

(* ------------------------------------------------------------------ *)
(** * Vector and angle utilities *)

Definition as_vert (el : BMElem) : result nat :=
  match el with BMVert v => Ok v | _ => Raise AttributeError end.
Definition as_edge (el : BMElem) : result nat :=
  match el with BMEdge e => Ok e | _ => Raise AttributeError end.

(** [calc_normal_from_verts(verts, fallback)]: Newell's method. *)
Definition calc_normal_from_verts (bm : BMesh) (verts : list nat)
    (fallback : vec_ref) : result vec_ref :=
  v_first <- py_index verts 0 ;;
  v_last <- py_index verts (-1) ;;
  let verts_2 := tl verts ++ (if Nat.eqb v_first v_last then [] else [v_first]) in
  normal <- foldM (fun normal '(v1, v2) =>
                     v1co <- co_of bm v1 ;;
                     v2co <- co_of bm v2 ;;
                     Ok (vec (vx normal + (vy v1co - vy v2co) * (vz v1co + vz v2co))
                             (vy normal + (vz v1co - vz v2co) * (vx v1co + vx v2co))
                             (vz normal + (vx v1co - vx v2co) * (vy v1co + vy v2co))))
                  ZERO_VEC (combine verts verts_2) ;;
  let normal := normalized normal in
  Ok (if veqb normal ZERO_VEC then fallback else Own normal).

Inductive corner_type : Type := FOLDING | STRAIGHT | CONVEX | CONCAVE.

Definition get_corner_type (vec_up vec_right2d vec_left2d : Vector)
    (threshold : R) : result corner_type :=
  if (veqb vec_right2d vec_left2d && veqb vec_left2d ZERO_VEC)%bool then Ok FOLDING
  else if (veqb vec_right2d ZERO_VEC || veqb vec_left2d ZERO_VEC)%bool then Ok STRAIGHT
  else
    a <- vangle vec_right2d vec_left2d ;;
    if Rltb a threshold then Ok FOLDING
    else if Rltb (ANGLE_180 - threshold) a then Ok STRAIGHT
    else if Rltb threshold (dot (cross vec_right2d vec_left2d) vec_up) then Ok CONVEX
    else Ok CONCAVE.

(** The first four statements of [calc_tangent]: the two vectors handed
    to [get_corner_type].  The fourth statement of the source normalises
    [vec_right2d] a second time. *)
Definition calc_tangent_2d (vec_up vec_right vec_left : Vector) : Vector * Vector :=
  let vec_right2d := vsub vec_right (project vec_right vec_up) in
  let vec_right2d := normalized vec_right2d in
  let vec_left2d := vsub vec_left (project vec_left vec_up) in
  let vec_right2d := normalized vec_right2d in
  (vec_right2d, vec_left2d).

Definition calc_tangent (vec_up vec_right vec_left : Vector) (threshold : R)
  : result Vector :=
  let '(vec_right2d, vec_left2d) := calc_tangent_2d vec_up vec_right vec_left in
  corner <- get_corner_type vec_up vec_right2d vec_left2d threshold ;;
  let vec_tangent :=
    match corner with
    | FOLDING => ZERO_VEC
    | STRAIGHT =>
        let vec_longer :=
          if Rleb (length_v vec_left2d) (length_v vec_right2d)
          then vec_right2d else vneg vec_left2d in
        cross vec_longer vec_up
    | CONVEX => vscale (-1) (vadd vec_right2d vec_left2d)
    | CONCAVE => vadd vec_right2d vec_left2d
    end in
  Ok (normalized vec_tangent).

(** [get_factor(vec_direction, vec_right, vec_left, func)].  The sines
    are those of the real angles of [vangle]: for an edge vector opposite
    to the direction the sine is 0 here, where the host has the small
    negative sine of its single-precision pi. *)
Definition get_factor_with (func : R -> R -> R)
    (vec_direction vec_right vec_left : Vector) : result R :=
  if veqb vec_direction ZERO_VEC then Ok 0
  else
    a_right <- vangle vec_direction vec_right ;;
    a_left <- vangle vec_direction vec_left ;;
    let denominator := func (sin a_right) (sin a_left) in
    if negb (Reqb denominator 0) then Ok (1 / denominator) else Ok 0.

(** [get_factor] with the default [func=max]. *)
Definition get_factor : Vector -> Vector -> Vector -> result R :=
  get_factor_with Rmax.

(* ------------------------------------------------------------------ *)
(** * Loop extractor *)

(** The inner [for f in e.link_faces] of [collect_edges]; the answer is
    [true] when the loop ran to its end, so that the [else] clause of the
    [for] runs, and [false] when it left through [break]. *)
Fixpoint count_faces_selected (bm : BMesh) (link_faces : list nat)
    (co_faces_selected : nat) : result bool :=
  match link_faces with
  | [] => Ok true
  | f :: rest =>
      fd <- get_face bm f ;;
      if f_select fd then
        let co_faces_selected := S co_faces_selected in
        if Nat.eqb co_faces_selected 2 then Ok false
        else count_faces_selected bm rest co_faces_selected
      else count_faces_selected bm rest co_faces_selected
  end.

Definition collect_edges_step (bm : BMesh) (set_edges_orig : list nat) (e : nat)
  : result (list nat) :=
  ed <- get_edge bm e ;;
  if e_select ed then
    completed <- count_faces_selected bm (e_link_faces ed) 0 ;;
    Ok (if completed then set_add e set_edges_orig else set_edges_orig)
  else Ok set_edges_orig.

Definition collect_edges (bm : BMesh) : result (option (list nat)) :=
  set_edges_orig <- foldM (collect_edges_step bm) [] (bm_edges bm) ;;
  Ok (match set_edges_orig with
      | [] => None
      | _ => Some set_edges_orig
      end).

(** The [for e in v_right.link_edges] of [collect_loops].  [None] is the
    [return None] of the source ("Overlap detected"). *)
Fixpoint scan_link_edges (link_edges : list nat) (set_edges_copy : list nat)
    (edge : option nat) : result (option (option nat * list nat)) :=
  match link_edges with
  | [] => Ok (Some (edge, set_edges_copy))
  | e :: rest =>
      if mem e set_edges_copy then
        match edge with
        | Some _ => Ok None
        | None =>
            set_edges_copy <- set_remove e set_edges_copy ;;
            scan_link_edges rest set_edges_copy (Some e)
        end
      else scan_link_edges rest set_edges_copy edge
  end.

(** The [while True] of [collect_loops]. *)
Fixpoint grow_loop (fuel : nat) (bm : BMesh) (set_edges_copy : list nat)
    (lp : list BMElem) (v_left v_right : nat) (reverse : bool)
  : result (option (list BMElem * list nat)) :=
  match fuel with
  | O => OutOfFuel
  | S fuel' =>
      vd <- get_vert bm v_right ;;
      scanned <- scan_link_edges (v_link_edges vd) set_edges_copy None ;;
      match scanned with
      | None => Ok None
      | Some (Some edge, set_edges_copy) =>
          ov <- other_vert bm edge v_right ;;
          match ov with
          | Some v_right =>
              grow_loop fuel' bm set_edges_copy
                        (lp ++ [BMEdge edge; BMVert v_right]) v_left v_right reverse
          | None => Raise AttributeError
          end
      | Some (None, set_edges_copy) =>
          if Nat.eqb v_right v_left then Ok (Some (lp, set_edges_copy))
          else if negb reverse then
            grow_loop fuel' bm set_edges_copy (rev lp) v_right v_left true
          else Ok (Some (lp, set_edges_copy))
      end
  end.

(** The [while set_edges_copy] of [collect_loops]. *)
Fixpoint collect_loops_from (fuel : nat) (bm : BMesh) (set_edges_copy : list nat)
    (loops : list (list BMElem)) : result (option (list (list BMElem))) :=
  match set_edges_copy with
  | [] => Ok (Some loops)
  | edge_start :: set_edges_copy =>
      match fuel with
      | O => OutOfFuel
      | S fuel' =>
          ed <- get_edge bm edge_start ;;
          let '(v_left, v_right) := e_verts ed in
          grown <- grow_loop (length set_edges_copy + 2) bm set_edges_copy
                     [BMVert v_left; BMEdge edge_start; BMVert v_right]
                     v_left v_right false ;;
          match grown with
          | None => Ok None
          | Some (lp, set_edges_copy) =>
              collect_loops_from fuel' bm set_edges_copy (loops ++ [lp])
          end
      end
  end.

Definition collect_loops (bm : BMesh) (set_edges_orig : list nat)
  : result (option (list (list BMElem))) :=
  collect_loops_from (length set_edges_orig) bm set_edges_orig [].

(* ------------------------------------------------------------------ *)
(** * Direction solver *)

(** [tuple.index(x)]: the first position of [x], or [ValueError]. *)
Fixpoint tuple_index (l : list nat) (x : nat) : result Z :=
  match l with
  | [] => Raise ValueError
  | y :: l' =>
      if Nat.eqb y x then Ok 0%Z
      else i <- tuple_index l' x ;; Ok (i + 1)%Z
  end.

(** The body of [reorder_loop]'s [for i, adj_f in enumerate(adj_faces)],
    from position [i] on; [rest] is what is left to enumerate. *)
Fixpoint reorder_loop_from (g : globals) (bm : BMesh) (i : Z)
    (rest : list (option nat)) (verts edges : list nat) (normal : vec_ref)
    (adj_faces : list (option nat))
  : result (list nat * list nat * (globals * vec_ref) * list (option nat)) :=
  match rest with
  | [] => Ok (verts, edges, (g, normal), adj_faces)
  | None :: rest' =>
      reorder_loop_from g bm (i + 1)%Z rest' verts edges normal adj_faces
  | Some adj_f :: _ =>
      v1 <- py_index verts i ;;
      v2 <- py_index verts (i + 1)%Z ;;
      _ <- py_index edges i ;;
      fd <- get_face bm adj_f ;;
      let fv := f_verts fd in
      ix <- tuple_index fv v1 ;;
      v_before <- py_index fv (ix - 1)%Z ;;
      let '(verts, edges, adj_faces) :=
        if Nat.eqb v_before v2
        then (rev verts, rev edges, rev adj_faces)
        else (verts, edges, adj_faces) in
      let gn :=
        if Rltb (dot (deref g normal) (f_normal fd)) 0
        then imul g normal (-1)
        else (g, normal) in
      Ok (verts, edges, gn, adj_faces)
  end.

Definition reorder_loop (g : globals) (bm : BMesh) (verts edges : list nat)
    (normal : vec_ref) (adj_faces : list (option nat))
  : result (list nat * list nat * (globals * vec_ref) * list (option nat)) :=
  reorder_loop_from g bm 0%Z adj_faces verts edges normal adj_faces.

(** One of the two [for i in range_...] of [get_adj_ix]. *)
Fixpoint first_nonzero_edge (vec_edges : list Vector) (rng : list Z)
  : result (option Z) :=
  match rng with
  | [] => Ok None
  | i :: rng' =>
      let len_edges := Z.of_nat (length vec_edges) in
      if (len_edges =? 0)%Z then Raise ZeroDivisionError
      else
        let i := (i mod len_edges)%Z in
        ve <- py_index vec_edges i ;;
        if negb (veqb ve ZERO_VEC) then Ok (Some i)
        else first_nonzero_edge vec_edges rng'
  end.

Definition get_adj_ix (ix_start : Z) (vec_edges : list Vector) (half_loop : bool)
  : result (option Z * option Z) :=
  let len_edges := Z.of_nat (length vec_edges) in
  let range_right :=
    if half_loop then py_range ix_start len_edges
    else py_range ix_start (ix_start + len_edges) in
  let range_left :=
    if half_loop then py_range_rev (ix_start - 1) (-1)
    else py_range_rev (ix_start - 1) (ix_start - 1 - len_edges) in
  ix_right <- first_nonzero_edge vec_edges range_right ;;
  ix_left <- first_nonzero_edge vec_edges range_left ;;
  if half_loop then
    let ix_right := match ix_right with None => ix_left | _ => ix_right end in
    let ix_left := match ix_left with None => ix_right | _ => ix_left end in
    Ok (ix_right, ix_left)
  else Ok (ix_right, ix_left).

(** [get_normals]; [adj_faces] is [None] or the list of [get_adj_faces]. *)
Definition get_normals (bm : BMesh) (lp_normal : Vector) (ix_r ix_l : Z)
    (adj_faces : option (list (option nat)))
  : result (Vector * option Vector * option Vector) :=
  '(normal_r, normal_l) <-
    match adj_faces with
    | Some ((_ :: _) as faces) =>
        f_r <- py_index faces ix_r ;;
        f_l <- py_index faces ix_l ;;
        normal_r <- match f_r with
                    | Some f => fd <- get_face bm f ;; Ok (Some (f_normal fd))
                    | None => Ok None
                    end ;;
        normal_l <- match f_l with
                    | Some f => fd <- get_face bm f ;; Ok (Some (f_normal fd))
                    | None => Ok None
                    end ;;
        Ok (normal_r, normal_l)
    | _ => Ok (None, None)
    end ;;
  let vec_up :=
    match normal_r, normal_l with
    | Some nr, Some nl =>
        let up := normalized (vadd nr nl) in
        if veqb up ZERO_VEC then lp_normal else up
    | Some n, None => n
    | None, Some n => n
    | None, None => lp_normal
    end in
  Ok (vec_up, normal_r, normal_l).

(** The inner [for f in e.link_faces] of [get_adj_faces]. *)
Fixpoint search_adj_face (bm : BMesh) (link_faces : list nat) (face : option nat)
    (adj_exist : bool) : result (option nat * bool) :=
  match link_faces with
  | [] => Ok (face, adj_exist)
  | f :: rest =>
      fd <- get_face bm f ;;
      if (negb (f_hide fd) && negb (veqb (f_normal fd) ZERO_VEC))%bool then
        if f_select fd then Ok (Some f, true)
        else search_adj_face bm rest (Some f) true
      else search_adj_face bm rest face adj_exist
  end.

Definition get_adj_faces (bm : BMesh) (edges : list nat)
  : result (option (list (option nat))) :=
  '(adj_faces, adj_exist) <-
    foldM (fun '(adj_faces, adj_exist) e =>
             ed <- get_edge bm e ;;
             '(face, adj_exist) <- search_adj_face bm (e_link_faces ed) None adj_exist ;;
             Ok (adj_faces ++ [face], adj_exist))
          ([], false) edges ;;
  Ok (if (adj_exist : bool) then Some adj_faces else None).

(** The [for e in vert.link_edges] of [get_edge_rail], whose [else]
    clause returns [vec_inner]. *)
Fixpoint edge_rail_scan (bm : BMesh) (vert : nat) (set_edges_orig : list nat)
    (link_edges : list nat) (co_edge : nat) (vec_inner : option Vector)
  : result (option Vector) :=
  match link_edges with
  | [] => Ok vec_inner
  | e :: rest =>
      ed <- get_edge bm e ;;
      if (negb (e_hide ed) && negb (mem e set_edges_orig))%bool then
        ov <- other_vert bm e vert ;;
        match ov with
        | None => Raise AttributeError
        | Some v_other =>
            co_other <- co_of bm v_other ;;
            co_vert <- co_of bm vert ;;
            let v := vsub co_other co_vert in
            if negb (veqb v ZERO_VEC) then
              let co_edge := S co_edge in
              if Nat.eqb co_edge 2 then Ok None
              else edge_rail_scan bm vert set_edges_orig rest co_edge (Some v)
            else edge_rail_scan bm vert set_edges_orig rest co_edge vec_inner
        end
      else edge_rail_scan bm vert set_edges_orig rest co_edge vec_inner
  end.

Definition get_edge_rail (bm : BMesh) (vert : nat) (set_edges_orig : list nat)
  : result (option Vector) :=
  vd <- get_vert bm vert ;;
  edge_rail_scan bm vert set_edges_orig (v_link_edges vd) 0 None.

Definition get_cross_rail (vec_tan vec_edge_r vec_edge_l normal_r normal_l : Vector)
    (threshold : R) : result (option Vector) :=
  a <- vangle normal_r normal_l ;;
  if Rltb a threshold then Ok None
  else
    let vec_cross := normalized (cross normal_r normal_l) in
    let vec_cross :=
      if Rltb (dot vec_cross vec_tan) 0 then vscale (-1) vec_cross else vec_cross in
    let cos_min := Rmin (dot vec_tan vec_edge_r) (dot vec_tan vec_edge_l) in
    let cos := dot vec_tan vec_cross in
    if Rleb cos_min cos then Ok (Some vec_cross) else Ok None.

(* ------------------------------------------------------------------ *)
(** * Mirror planes *)

(** A mirror plane is the tuple [(loc, norm, merge_limit)]; [norm] may be
    the module's [Z_UP] object. *)
Definition mirror_plane : Type := (Vector * vec_ref * R)%type.

Inductive modifier : Type :=
| MIRROR (use_mirror_merge : bool) (merge_threshold : R)
         (mirror_object : option Matrix) (use_x use_y use_z : bool)
| OTHER_MODIFIER.

(** [context.edit_object]: its world matrix, its modifier stack and its
    mesh data. *)
Record edit_object_t : Type := mk_object {
  matrix_world : Matrix;
  modifiers : list modifier;
  data : BMesh
}.

Definition collect_mirror_planes (edit_object : edit_object_t)
  : result (list mirror_plane) :=
  eob_mat_inv <- inverted (matrix_world edit_object) ;;
  Ok (fold_left
        (fun mirror_planes m =>
           match m with
           | MIRROR true merge_limit mirror_object use_x use_y use_z =>
               let '(loc, norm_x, norm_y, norm_z) :=
                 match mirror_object with
                 | None => (ZERO_VEC, Own X_UP, Own Y_UP, Ref_Z_UP)
                 | Some mirror_matrix_world =>
                     let mirror_mat_local := mat_mul eob_mat_inv mirror_matrix_world in
                     let adj := adjugated mirror_mat_local in
                     (to_translation mirror_mat_local,
                      Own (normalized (to_3d (nth 0 adj []))),
                      Own (normalized (to_3d (nth 1 adj []))),
                      Own (normalized (to_3d (nth 2 adj []))))
                 end in
               mirror_planes
                 ++ (if use_x then [(loc, norm_x, merge_limit)] else [])
                 ++ (if use_y then [(loc, norm_y, merge_limit)] else [])
                 ++ (if use_z then [(loc, norm_z, merge_limit)] else [])
           | _ => mirror_planes
           end)
        (modifiers edit_object) []).

(** The dictionary [vert_mirror_pairs]: keys in insertion order. *)
Definition vert_dict : Type := list (nat * mirror_plane).

Fixpoint dict_set (k : nat) (mp : mirror_plane) (d : vert_dict) : vert_dict :=
  match d with
  | [] => [(k, mp)]
  | (k', mp') :: d' =>
      if Nat.eqb k k' then (k, mp) :: d' else (k', mp') :: dict_set k mp d'
  end.

Fixpoint dict_get (k : nat) (d : vert_dict) : option mirror_plane :=
  match d with
  | [] => None
  | (k', mp') :: d' => if Nat.eqb k k' then Some mp' else dict_get k d'
  end.

(** The body of [for mp in mirror_planes] for one edge [e = (v1, v2)]. *)
Definition mirror_pairs_step (g : globals) (bm : BMesh) (e v1 v2 : nat)
    (acc : vert_dict * list nat) (mp : mirror_plane)
  : result (vert_dict * list nat) :=
  let '(vert_mirror_pairs, set_edges_copy) := acc in
  let '(p_co, p_norm, mlimit) := mp in
  v1co <- co_of bm v1 ;;
  v2co <- co_of bm v2 ;;
  let v1_dist := Rabs (dot (deref g p_norm) (vsub v1co p_co)) in
  let v2_dist := Rabs (dot (deref g p_norm) (vsub v2co p_co)) in
  let vert_mirror_pairs :=
    if Rleb v1_dist mlimit then dict_set v1 mp vert_mirror_pairs
    else vert_mirror_pairs in
  let vert_mirror_pairs :=
    if Rleb v2_dist mlimit then dict_set v2 mp vert_mirror_pairs
    else vert_mirror_pairs in
  if (Rleb v1_dist mlimit && Rleb v2_dist mlimit)%bool then
    set_edges_copy <- set_remove e set_edges_copy ;;
    Ok (vert_mirror_pairs, set_edges_copy)
  else Ok (vert_mirror_pairs, set_edges_copy).

Definition get_vert_mirror_pairs (g : globals) (bm : BMesh)
    (set_edges_orig : list nat) (mirror_planes : list mirror_plane)
  : result (option vert_dict * list nat) :=
  match mirror_planes with
  | [] => Ok (None, set_edges_orig)
  | _ =>
      '(vert_mirror_pairs, set_edges_copy) <-
        foldM (fun acc e =>
                 ed <- get_edge bm e ;;
                 let '(v1, v2) := e_verts ed in
                 foldM (mirror_pairs_step g bm e v1 v2) acc mirror_planes)
              ([], set_edges_orig) set_edges_orig ;;
      Ok (Some vert_mirror_pairs, set_edges_copy)
  end.

Definition get_mirror_rail (g : globals) (mp : mirror_plane) (vec_up : Vector)
  : option Vector * Vector :=
  let p_norm := deref g (snd (fst mp)) in
  let mirror_rail := cross vec_up p_norm in
  if negb (veqb mirror_rail ZERO_VEC) then
    (Some mirror_rail, normalized (vsub vec_up (project vec_up p_norm)))
  else (None, vec_up).

(* ------------------------------------------------------------------ *)
(** * [get_directions] *)

Record options : Type := mk_options {
  opt_follow_face : bool;
  opt_edge_rail : bool;
  opt_er_only_end : bool;
  opt_threshold : R
}.

(** The rail chosen for a vertex whose tangent is not zero: the block
    from [rail = None] up to (not including) [if rail:].  The answer is
    the rail and the possibly updated [vec_up]. *)
Definition select_rail (g : globals) (bm : BMesh) (opts : options)
    (vert_mirror_pairs : option vert_dict) (set_edges : list nat)
    (v : nat) (VERT_END : bool)
    (vec_tan vec_up vec_edge_r vec_edge_l : Vector)
    (normal_r normal_l : option Vector)
  : result (option Vector * Vector) :=
  let rail : option Vector := None in
  let '(rail, vec_up) :=
    match vert_mirror_pairs with
    | Some ((_ :: _) as pairs) =>
        if VERT_END then
          match dict_get v pairs with
          | Some mp => get_mirror_rail g mp vec_up
          | None => (rail, vec_up)
          end
        else (rail, vec_up)
    | _ => (rail, vec_up)
    end in
  rail <- (if opt_edge_rail opts then
             if (negb (opt_er_only_end opts) || VERT_END)%bool
             then get_edge_rail bm v set_edges
             else Ok rail
           else Ok rail) ;;
  rail <- match rail, normal_r, normal_l with
          | None, Some nr, Some nl =>
              get_cross_rail vec_tan vec_edge_r vec_edge_l nr nl (opt_threshold opts)
          | _, _, _ => Ok rail
          end ;;
  Ok (rail, vec_up).

(** The body of [for i in range(len_verts)]; [None] is the early
    [return [], []]. *)
Definition direction_at (g : globals) (bm : BMesh) (opts : options)
    (vert_mirror_pairs : option vert_dict) (set_edges : list nat)
    (verts : list nat) (vec_edges : list Vector) (HALF_LOOP : bool)
    (lp_normal : Vector) (adj_faces : option (list (option nat))) (i : Z)
  : result (option (Vector * Vector)) :=
  let len_verts := Z.of_nat (length verts) in
  v <- py_index verts i ;;
  let VERT_END := (HALF_LOOP && ((i =? 0)%Z || (i =? len_verts - 1)%Z))%bool in
  '(ix_r, ix_l) <- get_adj_ix i vec_edges HALF_LOOP ;;
  match ix_r with
  | None => Ok None
  | Some ix_r =>
      vec_edge_r <- py_index vec_edges ix_r ;;
      ix_l <- match ix_l with Some ix => Ok ix | None => Raise TypeError end ;;
      vec_edge_l0 <- py_index vec_edges ix_l ;;
      let vec_edge_l := vneg vec_edge_l0 in
      '(vec_up, normal_r, normal_l) <- get_normals bm lp_normal ix_r ix_l adj_faces ;;
      vec_tan <- calc_tangent vec_up vec_edge_r vec_edge_l (opt_threshold opts) ;;
      '(vec_tan, vec_up) <-
        (if negb (veqb vec_tan ZERO_VEC) then
           '(rail, vec_up) <- select_rail g bm opts vert_mirror_pairs set_edges
                                v VERT_END vec_tan vec_up vec_edge_r vec_edge_l
                                normal_r normal_l ;;
           match rail with
           | Some rail =>
               Ok (normalized (project vec_tan rail),
                   normalized (vsub vec_up (project vec_up rail)))
           | None => Ok (vec_tan, vec_up)
           end
         else Ok (vec_tan, vec_up)) ;;
      f_tan <- get_factor vec_tan vec_edge_r vec_edge_l ;;
      let vec_tan := vscale f_tan vec_tan in
      f_up <- get_factor vec_up vec_edge_r vec_edge_l ;;
      let vec_up := vscale f_up vec_up in
      Ok (Some (vec_tan, vec_up))
  end.

Fixpoint directions_loop (g : globals) (bm : BMesh) (opts : options)
    (vert_mirror_pairs : option vert_dict) (set_edges : list nat)
    (verts : list nat) (vec_edges : list Vector) (HALF_LOOP : bool)
    (lp_normal : Vector) (adj_faces : option (list (option nat)))
    (rng : list Z) (directions : list (Vector * Vector))
  : result (list nat * list (Vector * Vector)) :=
  match rng with
  | [] => Ok (verts, directions)
  | i :: rng' =>
      d <- direction_at g bm opts vert_mirror_pairs set_edges verts vec_edges
             HALF_LOOP lp_normal adj_faces i ;;
      match d with
      | None => Ok ([], [])
      | Some d =>
          directions_loop g bm opts vert_mirror_pairs set_edges verts vec_edges
            HALF_LOOP lp_normal adj_faces rng' (directions ++ [d])
      end
  end.

(** [get_directions(lp, vec_upward, normal_fallback, vert_mirror_pairs,
    **options)].  The module state goes in and comes out: the loop normal
    can be the object [normal_fallback] itself. *)
Definition get_directions (g : globals) (bm : BMesh) (lp : list BMElem)
    (vec_upward : Vector) (normal_fallback : vec_ref)
    (vert_mirror_pairs : option vert_dict) (opts : options)
  : result (list nat * list (Vector * Vector) * globals) :=
  verts <- mapM as_vert (evens lp) ;;
  edges <- mapM as_edge (odds lp) ;;
  let set_edges := set_of_list edges in
  lp_normal <- calc_normal_from_verts bm verts normal_fallback ;;
  (* Loop order might be changed below. *)
  let '(verts, edges, (g, lp_normal)) :=
    if Rltb (dot (deref g lp_normal) vec_upward) 0
    then (rev verts, rev edges, imul g lp_normal (-1))
    else (verts, edges, (g, lp_normal)) in
  '(verts, edges, (g, lp_normal), adj_faces) <-
    (if opt_follow_face opts then
       adj_faces <- get_adj_faces bm edges ;;
       match adj_faces with
       | Some ((_ :: _) as faces) =>
           '(verts, edges, gn, faces) <- reorder_loop g bm verts edges lp_normal faces ;;
           Ok (verts, edges, gn, Some faces)
       | _ => Ok (verts, edges, (g, lp_normal), adj_faces)
       end
     else Ok (verts, edges, (g, lp_normal), None)) ;;
  (* Loop order might be changed above. *)
  vec_edges <- mapM (fun '(v, e) =>
                       ov <- other_vert bm e v ;;
                       match ov with
                       | None => Raise AttributeError
                       | Some v_other =>
                           co_other <- co_of bm v_other ;;
                           co_v <- co_of bm v ;;
                           Ok (normalized (vsub co_other co_v))
                       end)
                    (combine verts edges) ;;
  v_first <- py_index verts 0 ;;
  v_last <- py_index verts (-1) ;;
  let '(verts, HALF_LOOP) :=
    if Nat.eqb v_first v_last then (removelast verts, false) else (verts, true) in
  let len_verts := Z.of_nat (length verts) in
  '(verts, directions) <-
    directions_loop g bm opts vert_mirror_pairs set_edges verts vec_edges HALF_LOOP
      (deref g lp_normal) adj_faces (py_range 0 len_verts) [] ;;
  Ok (verts, directions, g).

(* ------------------------------------------------------------------ *)
(** * Host operations *)

Fixpoint index_of (x : nat) (l : list nat) : nat :=
  match l with
  | [] => O
  | y :: l' => if Nat.eqb x y then O else S (index_of x l')
  end.

Definition edge_has_vert (bm : BMesh) (v e : nat) : bool :=
  match nth_error (edge_store bm) e with
  | Some ed => (Nat.eqb (fst (e_verts ed)) v || Nat.eqb (snd (e_verts ed)) v)%bool
  | None => false
  end.

(** Modelled from the spec: the host's [extrude(edges) -> {new_vertices,
    new_edges, new_faces, side_edges}] of section 6, here
    [bmesh.ops.extrude_edge_only(bm, edges=...)['geom']].  Every vertex
    and every edge of the input gets a copy (same position, same flags);
    every input edge gets a quad face between itself and its copy, every
    input vertex a side edge to its copy.  The answer lists the new
    vertices, then the new edges, then the new faces; the side edges are
    not listed. *)
Definition extrude_edge_only (bm : BMesh) (edges : list nat)
  : result (BMesh * list BMElem) :=
  _ <- mapM (get_edge bm) edges ;;
  let es := filter (fun e => mem e edges) (bm_edges bm) in
  let vs := filter (fun v => existsb (edge_has_vert bm v) es) (bm_verts bm) in
  let nv := length (vert_store bm) in
  let ne := length (edge_store bm) in
  let nf := length (face_store bm) in
  let n_es := length es in
  let new_of (v : nat) : nat := (nv + index_of v vs)%nat in
  let side_of (v : nat) : nat := (ne + n_es + index_of v vs)%nat in
  let faces_at (v : nat) : list nat :=
    map (fun e => (nf + index_of e es)%nat) (filter (edge_has_vert bm v) es) in
  let copies_at (v : nat) : list nat :=
    map (fun e => (ne + index_of e es)%nat) (filter (edge_has_vert bm v) es) in
  let old_verts :=
    map (fun '(v, d) =>
           if mem v vs then with_v_link_edges (v_link_edges d ++ [side_of v]) d else d)
        (combine (seq 0 nv) (vert_store bm)) in
  let new_verts :=
    map (fun v =>
           match nth_error (vert_store bm) v with
           | Some d => mk_vert (v_co d) (copies_at v ++ [side_of v]) (-1)
                               (v_select d) (v_hide d) true
           | None => mk_vert ZERO_VEC [] (-1) false false false
           end) vs in
  let old_edges :=
    map (fun '(e, d) =>
           if mem e es
           then with_e_link_faces (e_link_faces d ++ [(nf + index_of e es)%nat]) d
           else d)
        (combine (seq 0 ne) (edge_store bm)) in
  let new_edges :=
    map (fun e =>
           match nth_error (edge_store bm) e with
           | Some d => mk_edge (new_of (fst (e_verts d)), new_of (snd (e_verts d)))
                               [(nf + index_of e es)%nat] (-1)
                               (e_select d) (e_hide d) true
           | None => mk_edge (O, O) [] (-1) false false false
           end) es in
  let side_edges :=
    map (fun v => mk_edge (v, new_of v) (faces_at v) (-1) false false true) vs in
  let new_faces :=
    map (fun e =>
           match nth_error (edge_store bm) e with
           | Some d =>
               let '(a, b) := e_verts d in
               mk_face [a; b; new_of b; new_of a] ZERO_VEC false false true
           | None => mk_face [] ZERO_VEC false false false
           end) es in
  Ok (mk_bmesh (old_verts ++ new_verts)
               (old_edges ++ new_edges ++ side_edges)
               (face_store bm ++ new_faces),
      map BMVert (map new_of vs)
        ++ map BMEdge (map (fun e => (ne + index_of e es)%nat) es)
        ++ map BMFace (map (fun e => (nf + index_of e es)%nat) es)).

Definition edges_of_geom (geom : list BMElem) : list nat :=
  flat_map (fun el => match el with BMEdge e => [e] | _ => [] end) geom.

(** Modelled from the spec: the host's [delete(geometry_set)] of section
    6, here [bmesh.ops.delete(bm, geom=..., context=2)], the deletion of
    edges: the listed edges go, with them the faces that use one of them
    and the end vertices that are left without an edge. *)
Definition bmesh_ops_delete (bm : BMesh) (geom : list BMElem) : result BMesh :=
  _ <- mapM (fun el => match el with
                       | BMVert v => _ <- get_vert bm v ;; Ok tt
                       | BMEdge e => _ <- get_edge bm e ;; Ok tt
                       | BMFace f => _ <- get_face bm f ;; Ok tt
                       end) geom ;;
  let killed_e := edges_of_geom geom in
  let killed_f :=
    flat_map (fun e => match nth_error (edge_store bm) e with
                       | Some d => e_link_faces d
                       | None => []
                       end) killed_e in
  let ends :=
    flat_map (fun e => match nth_error (edge_store bm) e with
                       | Some d => [fst (e_verts d); snd (e_verts d)]
                       | None => []
                       end) killed_e in
  let verts' :=
    map (fun '(v, d) =>
           let links := filter (fun e => negb (mem e killed_e)) (v_link_edges d) in
           let d := with_v_link_edges links d in
           if (mem v ends && match links with [] => true | _ => false end)%bool
           then with_v_valid false d else d)
        (combine (seq 0 (length (vert_store bm))) (vert_store bm)) in
  let edges' :=
    map (fun '(e, d) =>
           let d := with_e_link_faces
                      (filter (fun f => negb (mem f killed_f)) (e_link_faces d)) d in
           if mem e killed_e then with_e_valid false d else d)
        (combine (seq 0 (length (edge_store bm))) (edge_store bm)) in
  let faces' :=
    map (fun '(f, d) => if mem f killed_f then with_f_valid false d else d)
        (combine (seq 0 (length (face_store bm))) (face_store bm)) in
  Ok (mk_bmesh verts' edges' faces').

(** Modelled from the spec: the host's "mesh snapshot in / commit out" of
    section 6.  The persistent mesh is kept in the same representation as
    the editable one.  [bm.from_mesh(me)] numbers the elements: the
    [index] of an element is its position in [bm.verts] / [bm.edges].
    [bm.to_mesh(me)] stores the editable mesh; [bm.copy()] keeps
    addresses and indices. *)
Fixpoint renumber {A : Type} (valid : A -> bool) (set_index : Z -> A -> A)
    (next : Z) (store : list A) : list A :=
  match store with
  | [] => []
  | d :: store' =>
      if valid d then set_index next d :: renumber valid set_index (next + 1)%Z store'
      else d :: renumber valid set_index next store'
  end.

Definition from_mesh (me : BMesh) : BMesh :=
  mk_bmesh (renumber v_valid with_v_index 0%Z (vert_store me))
           (renumber e_valid with_e_index 0%Z (edge_store me))
           (face_store me).

Definition to_mesh (bm : BMesh) : BMesh := bm.

Definition bm_copy (bm : BMesh) : BMesh := bm.

(* ------------------------------------------------------------------ *)
(** * Offset applicator *)

(** The dictionary [geom] built by [extrude_edges]. *)
Record geom_t : Type := mk_geom {
  geom_verts : list BMElem;
  geom_edges : list BMElem;
  geom_faces : list BMElem;
  geom_side : list nat
}.

Definition elem_mem (x : BMElem) (s : list BMElem) : bool :=
  existsb (BMElem_eqb x) s.

Definition elem_set_of_list (l : list BMElem) : list BMElem :=
  fold_left (fun s x => if elem_mem x s then s else s ++ [x]) l [].

(** The inner [for e in v.link_edges] of [move_verts]: the other end of
    the first side edge, if there is one. *)
Fixpoint find_side (bm : BMesh) (v : nat) (geom_s : list nat) (link_edges : list nat)
  : result (option (option nat)) :=
  match link_edges with
  | [] => Ok None
  | e :: rest =>
      if mem e geom_s then ov <- other_vert bm e v ;; Ok (Some ov)
      else find_side bm v geom_s rest
  end.

Definition move_verts (bm : BMesh) (width depth : R) (verts : list nat)
    (directions : list (Vector * Vector)) (geom_ex : option geom_t)
  : result BMesh :=
  verts <- match geom_ex with
           | Some geom =>
               let geom_s := geom_side geom in
               foldM (fun verts_ex v =>
                        vd <- get_vert bm v ;;
                        found <- find_side bm v geom_s (v_link_edges vd) ;;
                        match found with
                        | Some ov => Ok (verts_ex ++ [ov])
                        | None => Ok verts_ex
                        end) [] verts
           | None => Ok (map Some verts)
           end ;;
  foldM (fun bm '(v, (vec_tan, vec_up)) =>
           match v with
           | Some v => add_co bm v (vadd (vscale width vec_tan) (vscale depth vec_up))
           | None => Raise AttributeError
           end)
        bm (combine verts directions).

Definition extrude_edges (bm : BMesh) (edges_orig : list nat)
  : result (BMesh * geom_t) :=
  '(bm, extruded) <- extrude_edge_only bm edges_orig ;;
  let n_edges := Z.of_nat (length edges_orig) in
  let n_faces := n_edges in
  let len := Z.of_nat (length extruded) in
  let n_verts := (len - n_edges - n_faces)%Z in
  let verts := elem_set_of_list (py_slice extruded 0 n_verts) in
  let edges := elem_set_of_list (py_slice extruded n_verts (n_verts + n_edges)) in
  let faces := elem_set_of_list (py_slice extruded (n_verts + n_edges) len) in
  side <- foldM (fun side el =>
                   v <- as_vert el ;;
                   vd <- get_vert bm v ;;
                   Ok (fold_left (fun side e =>
                                    if negb (elem_mem (BMEdge e) edges)
                                    then set_add e side else side)
                                 (v_link_edges vd) side))
                [] verts ;;
  Ok (bm, mk_geom verts edges faces side).

Inductive geometry_mode_t : Type := offset | extrude | move.

Definition clean (bm : BMesh) (mode : geometry_mode_t) (edges_orig : list nat)
    (geom_ex : option geom_t) : result BMesh :=
  bm <- foldM deselect_face bm (bm_faces bm) ;;
  match geom_ex with
  | Some geom =>
      bm <- foldM select_elem bm (geom_edges geom) ;;
      match mode with
      | offset =>
          let lis_geom := map BMEdge (geom_side geom) ++ geom_faces geom in
          bmesh_ops_delete bm lis_geom
      | _ => Ok bm
      end
  | None =>
      foldM (fun bm e => select_elem bm (BMEdge e)) bm edges_orig
  end.

(* ------------------------------------------------------------------ *)
(** * The operator [OffsetEdges] *)

Inductive depth_mode_t : Type := by_angle | by_depth.

Inductive warning : Type :=
| No_edges_selected
| All_selected_edges_are_on_mirror_planes
| Overlap_detected.

Definition offset_infos_t : Type := list (list nat * list (Vector * Vector)).
Definition cache_infos_t : Type := list (list Z * list (Vector * Vector)).

(** The properties of the operator, its two cache attributes, the
    snapshot of the interactive session and the warnings reported so
    far. *)
Record OffsetEdges : Type := mk_operator {
  geometry_mode : geometry_mode_t;
  width : R;
  flip_width : bool;
  depth : R;
  flip_depth : bool;
  depth_mode : depth_mode_t;
  angle : R;
  flip_angle : bool;
  follow_face : bool;
  mirror_modifier : bool;
  edge_rail : bool;
  edge_rail_only_end : bool;
  threshold : R;
  caches_valid : bool;
  cache_offset_infos : option cache_infos_t;
  cache_edges_orig_ixs : option (list Z);
  bm_orig : option BMesh;
  initial_mouse : R * R;
  reports : list warning
}.

Definition report (w : warning) (self : OffsetEdges) : OffsetEdges :=
  mk_operator (geometry_mode self) (width self) (flip_width self) (depth self)
    (flip_depth self) (depth_mode self) (angle self) (flip_angle self)
    (follow_face self) (mirror_modifier self) (edge_rail self)
    (edge_rail_only_end self) (threshold self) (caches_valid self)
    (cache_offset_infos self) (cache_edges_orig_ixs self) (bm_orig self)
    (initial_mouse self) (reports self ++ [w]).

Definition set_caches_valid (b : bool) (self : OffsetEdges) : OffsetEdges :=
  mk_operator (geometry_mode self) (width self) (flip_width self) (depth self)
    (flip_depth self) (depth_mode self) (angle self) (flip_angle self)
    (follow_face self) (mirror_modifier self) (edge_rail self)
    (edge_rail_only_end self) (threshold self) b
    (cache_offset_infos self) (cache_edges_orig_ixs self) (bm_orig self)
    (initial_mouse self) (reports self).

Definition set_caches (infos : cache_infos_t) (ixs : list Z) (self : OffsetEdges)
  : OffsetEdges :=
  mk_operator (geometry_mode self) (width self) (flip_width self) (depth self)
    (flip_depth self) (depth_mode self) (angle self) (flip_angle self)
    (follow_face self) (mirror_modifier self) (edge_rail self)
    (edge_rail_only_end self) (threshold self) (caches_valid self)
    (Some infos) (Some ixs) (bm_orig self)
    (initial_mouse self) (reports self).

(** [use_cashes], the [update] callback of [geometry_mode], [width],
    [flip_width], [depth], [flip_depth], [depth_mode], [angle] and
    [flip_angle]. *)
Definition use_cashes (self : OffsetEdges) : OffsetEdges := set_caches_valid true self.

(** [self.width = w], which runs the callback. *)
Definition set_width (w : R) (self : OffsetEdges) : OffsetEdges :=
  use_cashes
    (mk_operator (geometry_mode self) w (flip_width self) (depth self)
       (flip_depth self) (depth_mode self) (angle self) (flip_angle self)
       (follow_face self) (mirror_modifier self) (edge_rail self)
       (edge_rail_only_end self) (threshold self) (caches_valid self)
       (cache_offset_infos self) (cache_edges_orig_ixs self) (bm_orig self)
       (initial_mouse self) (reports self)).

(** [self.angle = self.depth = .0], which runs the callback. *)
Definition set_angle_depth_zero (self : OffsetEdges) : OffsetEdges :=
  use_cashes
    (mk_operator (geometry_mode self) (width self) (flip_width self) 0
       (flip_depth self) (depth_mode self) 0 (flip_angle self)
       (follow_face self) (mirror_modifier self) (edge_rail self)
       (edge_rail_only_end self) (threshold self) (caches_valid self)
       (cache_offset_infos self) (cache_edges_orig_ixs self) (bm_orig self)
       (initial_mouse self) (reports self)).

Definition set_follow_face (b : bool) (self : OffsetEdges) : OffsetEdges :=
  mk_operator (geometry_mode self) (width self) (flip_width self) (depth self)
    (flip_depth self) (depth_mode self) (angle self) (flip_angle self)
    b (mirror_modifier self) (edge_rail self)
    (edge_rail_only_end self) (threshold self) (caches_valid self)
    (cache_offset_infos self) (cache_edges_orig_ixs self) (bm_orig self)
    (initial_mouse self) (reports self).

Definition set_session (bm : option BMesh) (mouse : R * R) (self : OffsetEdges)
  : OffsetEdges :=
  mk_operator (geometry_mode self) (width self) (flip_width self) (depth self)
    (flip_depth self) (depth_mode self) (angle self) (flip_angle self)
    (follow_face self) (mirror_modifier self) (edge_rail self)
    (edge_rail_only_end self) (threshold self) (caches_valid self)
    (cache_offset_infos self) (cache_edges_orig_ixs self) bm
    mouse (reports self).

Definition options_of (self : OffsetEdges) : options :=
  mk_options (follow_face self) (edge_rail self) (edge_rail_only_end self)
             (threshold self).

(** What [get_offset_infos] returns: [(None, None)] to say "use the
    cache", [(False, False)] for a failure, or the pair
    [(offset_infos, set_edges_orig)]. *)
Inductive offset_infos_result : Type :=
| USE_CACHE
| FAILED
| INFOS (offset_infos : offset_infos_t) (set_edges_orig : list nat).

Definition is_some {A : Type} (o : option A) : bool :=
  match o with Some _ => true | None => false end.

Definition get_offset_infos (self : OffsetEdges) (g : globals) (bm : BMesh)
    (edit_object : edit_object_t)
  : result (offset_infos_result * OffsetEdges * globals) :=
  if (caches_valid self && is_some (cache_offset_infos self))%bool then
    (* Return None, indicating to use cache. *)
    Ok (USE_CACHE, self, g)
  else
    set_edges_orig <- collect_edges bm ;;
    match set_edges_orig with
    | None => Ok (FAILED, report No_edges_selected self, g)
    | Some set_edges_orig =>
        '(vert_mirror_pairs, set_edges_orig, self) <-
          (if mirror_modifier self then
             mirror_planes <- collect_mirror_planes edit_object ;;
             '(vert_mirror_pairs, set_edges_orig) <-
               get_vert_mirror_pairs g bm set_edges_orig mirror_planes ;;
             let self :=
               match set_edges_orig with
               | [] => report All_selected_edges_are_on_mirror_planes self
               | _ => self
               end in
             Ok (vert_mirror_pairs, set_edges_orig, self)
           else Ok (None, set_edges_orig, self)) ;;
        loops <- collect_loops bm set_edges_orig ;;
        match loops with
        | None => Ok (FAILED, report Overlap_detected self, g)
        | Some loops =>
            let vec_upward := normalized (vadd (vadd X_UP Y_UP) (Z_UP g)) in
            let normal_fallback := Ref_Z_UP in
            '(offset_infos, g) <-
              foldM (fun '(offset_infos, g) lp =>
                       '(verts, directions, g) <-
                         get_directions g bm lp vec_upward normal_fallback
                           vert_mirror_pairs (options_of self) ;;
                       Ok (match verts with
                           | [] => offset_infos
                           | _ => offset_infos ++ [(verts, directions)]
                           end, g))
                    ([], g) loops ;;
            (* Saving caches. *)
            cache <- mapM (fun '(verts, directions) =>
                             v_ixs <- mapM (fun v => vd <- get_vert bm v ;;
                                                     Ok (v_index vd)) verts ;;
                             Ok (v_ixs, directions))
                          offset_infos ;;
            e_ixs <- mapM (fun e => ed <- get_edge bm e ;; Ok (e_index ed))
                          set_edges_orig ;;
            Ok (INFOS offset_infos set_edges_orig, set_caches cache e_ixs self, g)
        end
    end.

Definition do_offset_and_free (self : OffsetEdges) (bm : BMesh)
    (offset_infos : option offset_infos_t) (set_edges_orig : option (list nat))
  : result (OffsetEdges * BMesh) :=
  '(verts_directions, edges_orig) <-
    match offset_infos with
    | None =>
        (* using cache *)
        let bmverts := bm_verts bm in
        let bmedges := bm_edges bm in
        ixs <- match cache_edges_orig_ixs self with
               | Some ixs => Ok ixs
               | None => Raise TypeError
               end ;;
        edges_orig <- mapM (py_index bmedges) ixs ;;
        cache <- match cache_offset_infos self with
                 | Some cache => Ok cache
                 | None => Raise TypeError
                 end ;;
        verts_directions <-
          mapM (fun '(ix_vs, directions) =>
                  verts <- mapM (py_index bmverts) ix_vs ;;
                  Ok (verts, directions))
               cache ;;
        Ok (verts_directions, edges_orig)
    | Some offset_infos =>
        edges_orig <- match set_edges_orig with
                      | Some s => Ok s
                      | None => Raise TypeError
                      end ;;
        Ok (offset_infos, edges_orig)
    end ;;
  let '(width_, depth_) :=
    match depth_mode self with
    | by_angle =>
        let w := if negb (flip_width self) then width self else - width self in
        let a := if negb (flip_angle self) then angle self else - angle self in
        (w * cos a, w * sin a)
    | by_depth =>
        (if negb (flip_width self) then width self else - width self,
         if negb (flip_depth self) then depth self else - depth self)
    end in
  (* Extrude *)
  '(bm, geom_ex) <-
    match geometry_mode self with
    | move => Ok (bm, None)
    | _ => '(bm, geom) <- extrude_edges bm edges_orig ;; Ok (bm, Some geom)
    end ;;
  bm <- foldM (fun bm '(verts, directions) =>
                 move_verts bm width_ depth_ verts directions geom_ex)
              bm verts_directions ;;
  bm <- clean bm (geometry_mode self) edges_orig geom_ex ;;
  let me := to_mesh bm in
  Ok (set_caches_valid false self, me).

Inductive status : Type := FINISHED | CANCELLED | RUNNING_MODAL.

Definition with_data (me : BMesh) (ob : edit_object_t) : edit_object_t :=
  mk_object (matrix_world ob) (modifiers ob) me.

(** The state an invocation runs in: the operator instance, the module
    state and the object in edit mode. *)
Record context_t : Type := mk_context {
  self_ : OffsetEdges;
  module_ : globals;
  edit_object : edit_object_t
}.

(** The interaction mode of the object. *)
Inductive mode_t : Type := EDIT | OBJECT.

(** Modelled from the spec: the host's
    [bpy.ops.object.editmode_toggle()], which switches the object
    between edit mode and object mode. *)
Definition editmode_toggle (m : mode_t) : mode_t :=
  match m with
  | EDIT => OBJECT
  | OBJECT => EDIT
  end.

(** [execute], between its two calls of [editmode_toggle]: what it does
    to the operator, the module state and the object.  The calls
    themselves, which act on the interaction mode only, are in
    [execute_in_mode] below. *)
Definition execute (ctx : context_t) : result (status * context_t) :=
  let self := self_ ctx in
  let me := data (edit_object ctx) in
  let bm := from_mesh me in
  '(offset_infos, self, g) <- get_offset_infos self (module_ ctx) bm (edit_object ctx) ;;
  match offset_infos with
  | FAILED => Ok (CANCELLED, mk_context self g (edit_object ctx))
  | USE_CACHE =>
      '(self, me) <- do_offset_and_free self bm None None ;;
      Ok (FINISHED, mk_context self g (with_data me (edit_object ctx)))
  | INFOS infos edges_orig =>
      '(self, me) <- do_offset_and_free self bm (Some infos) (Some edges_orig) ;;
      Ok (FINISHED, mk_context self g (with_data me (edit_object ctx)))
  end.

(** [execute] with the interaction mode [m] it is called in: the first
    [editmode_toggle] comes before everything else, the second after
    [do_offset_and_free]; [return {'CANCELLED'}] leaves before the
    second. *)
Definition execute_in_mode (m : mode_t) (ctx : context_t)
  : result (status * context_t * mode_t) :=
  let m := editmode_toggle m in
  '(st, ctx) <- execute ctx ;;
  match st with
  | CANCELLED => Ok (CANCELLED, ctx, m)
  | _ =>
      let m := editmode_toggle m in
      Ok (st, ctx, m)
  end.

Definition restore_original_and_free (ctx : context_t) : result context_t :=
  let self := set_caches_valid false (self_ ctx) in
  match bm_orig self with
  | Some bm =>
      Ok (mk_context (set_session None (initial_mouse self) self) (module_ ctx)
                     (with_data (to_mesh bm) (edit_object ctx)))
  | None => Raise AttributeError
  end.

Inductive event : Type :=
| MOUSEMOVE (mouse_x mouse_y : R)
| RIGHTMOUSE
| ESC
| LEFTMOUSE
| OTHER_EVENT.

Definition modal (ctx : context_t) (ev : event) : result (status * context_t) :=
  match ev with
  | MOUSEMOVE mouse_x mouse_y =>
      let self := self_ ctx in
      let vec_delta_x := mouse_x - fst (initial_mouse self) in
      let self := set_width (vec_delta_x * (1 / 100)) self in
      bm <- match bm_orig self with Some bm => Ok bm | None => Raise AttributeError end ;;
      '(offset_infos, self, g) <- get_offset_infos self (module_ ctx) bm (edit_object ctx) ;;
      match offset_infos with
      | FAILED =>
          ctx <- restore_original_and_free (mk_context self g (edit_object ctx)) ;;
          Ok (CANCELLED, ctx)
      | _ =>
          '(self, me) <- do_offset_and_free self (bm_copy bm) None None ;;
          Ok (RUNNING_MODAL, mk_context self g (with_data me (edit_object ctx)))
      end
  | RIGHTMOUSE | ESC =>
      ctx <- restore_original_and_free ctx ;;
      Ok (CANCELLED, ctx)
  | LEFTMOUSE =>
      let self := self_ ctx in
      _ <- match bm_orig self with Some bm => Ok bm | None => Raise AttributeError end ;;
      Ok (FINISHED,
          mk_context (set_caches_valid false (set_session None (initial_mouse self) self))
                     (module_ ctx) (edit_object ctx))
  | OTHER_EVENT => Ok (RUNNING_MODAL, ctx)
  end.

(** [invoke]; [in_view3d] is the test
    [context.space_data and context.space_data.type == 'VIEW_3D']. *)
Definition invoke (ctx : context_t) (in_view3d : bool) (mouse : R * R)
  : result (status * context_t) :=
  let self := self_ ctx in
  let me := data (edit_object ctx) in
  let self :=
    if existsb (fun f => match nth_error (face_store me) f with
                         | Some fd => f_select fd
                         | None => false
                         end) (bm_faces me)
    then set_follow_face true self else self in
  let self := set_caches_valid false self in
  if in_view3d then
    let self := set_session (Some (from_mesh me)) (initial_mouse self) self in
    let self := set_angle_depth_zero self in
    let self := set_session (bm_orig self) mouse self in
    Ok (RUNNING_MODAL, mk_context self (module_ ctx) (edit_object ctx))
  else execute (mk_context self (module_ ctx) (edit_object ctx)).

(* ------------------------------------------------------------------ *)
(** * Vocabulary of the specification *)

Definition face_selected (bm : BMesh) (f : nat) : bool :=
  match nth_error (face_store bm) f with
  | Some fd => f_select fd
  | None => false
  end.

(** The number of selected faces adjacent to an edge. *)
Definition selected_face_count (bm : BMesh) (e : nat) : nat :=
  match nth_error (edge_store bm) e with
  | Some ed => length (filter (face_selected bm) (e_link_faces ed))
  | None => O
  end.

Definition edge_selected (bm : BMesh) (e : nat) : bool :=
  match nth_error (edge_store bm) e with
  | Some ed => e_select ed
  | None => false
  end.

(** An edge qualifies, in the words of the specification: selected, and
    the number of its selected adjacent faces is not 2. *)
Definition qualifies_spec (bm : BMesh) (e : nat) : bool :=
  (edge_selected bm e && negb (Nat.eqb (selected_face_count bm e) 2))%bool.

(** An edge qualifies, as [collect_edges] decides it: selected, and fewer
    than two selected adjacent faces. *)
Definition qualifies (bm : BMesh) (e : nat) : bool :=
  (edge_selected bm e && Nat.ltb (selected_face_count bm e) 2)%bool.

(** Every face listed by a valid edge is a valid face. *)
Definition link_faces_valid (bm : BMesh) : bool :=
  forallb (fun e => match nth_error (edge_store bm) e with
                    | Some ed => forallb (fun f => is_ok (get_face bm f)) (e_link_faces ed)
                    | None => true
                    end)
          (bm_edges bm).

(** The edges of a loop [[v, e, v, ...]], and the number of edges of a
    set that end in a vertex. *)
Definition loop_edges (lp : list BMElem) : list nat := edges_of_geom lp.

Definition degree_in (bm : BMesh) (set_edges : list nat) (v : nat) : nat :=
  length (filter (edge_has_vert bm v) set_edges).

(* ------------------------------------------------------------------ *)
(** * Example meshes *)

Definition vert_at (co : Vector) (links : list nat) (index : Z) : vert_data :=
  mk_vert co links index true false true.
Definition edge_of (v1 v2 : nat) (faces : list nat) (index : Z) (select : bool)
  : edge_data :=
  mk_edge (v1, v2) faces index select false true.
Definition face_of (verts : list nat) (normal : Vector) (select : bool) : face_data :=
  mk_face verts normal select false true.

(** Three selected triangles sharing the edge 0 (a non-manifold fan);
    everything is selected. *)
Definition fan_mesh : BMesh :=
  mk_bmesh
    [ vert_at (vec 0 0 0) [0; 1; 3; 5]%nat 0;
      vert_at (vec 1 0 0) [0; 2; 4; 6]%nat 1;
      vert_at (vec 0 1 0) [1; 2]%nat 2;
      vert_at (vec 0 0 1) [3; 4]%nat 3;
      vert_at (vec 0 (-1) 0) [5; 6]%nat 4 ]
    [ edge_of 0 1 [0; 1; 2]%nat 0 true;
      edge_of 0 2 [0]%nat 1 true;
      edge_of 1 2 [0]%nat 2 true;
      edge_of 0 3 [1]%nat 3 true;
      edge_of 1 3 [1]%nat 4 true;
      edge_of 0 4 [2]%nat 5 true;
      edge_of 1 4 [2]%nat 6 true ]
    [ face_of [0; 1; 2]%nat (vec 0 0 1) true;
      face_of [0; 1; 3]%nat (vec 0 (-1) 0) true;
      face_of [0; 1; 4]%nat (vec 0 0 (-1)) true ].

(** A closed triangle 0-1-2 with a tail 0-3: four selected wire edges;
    vertex 0 has three of them. *)
Definition lasso_mesh : BMesh :=
  mk_bmesh
    [ vert_at (vec 0 0 0) [0; 2; 3]%nat 0;
      vert_at (vec 1 0 0) [0; 1]%nat 1;
      vert_at (vec 0 1 0) [1; 2]%nat 2;
      vert_at (vec (-1) (-1) 0) [3]%nat 3 ]
    [ edge_of 0 1 [] 0 true;
      edge_of 1 2 [] 1 true;
      edge_of 2 0 [] 2 true;
      edge_of 0 3 [] 3 true ]
    [].

(** One selected wire edge along the z axis, which lies in the planes
    x = 0 and y = 0. *)
Definition axis_edge_mesh : BMesh :=
  mk_bmesh
    [ vert_at (vec 0 0 0) [0]%nat 0;
      vert_at (vec 0 0 1) [0]%nat 1 ]
    [ edge_of 0 1 [] 0 true ]
    [].

(** A mirror modifier with merging, about the object's own origin, on
    the axes x and y, with merge limit 1/1000. *)
Definition mirror_xy : modifier := MIRROR true (1 / 1000) None true true false.

Definition mirror_x : modifier := MIRROR true (1 / 1000) None true false false.

(** The operator with the default values of its properties and empty
    caches. *)
Definition default_operator : OffsetEdges :=
  mk_operator offset (2 / 10) false 0 false by_angle 0 false
              false false false false (1 / 10000) false
              None None None (0, 0) [].

Definition with_mirror_modifier (b : bool) (self : OffsetEdges) : OffsetEdges :=
  mk_operator (geometry_mode self) (width self) (flip_width self) (depth self)
    (flip_depth self) (depth_mode self) (angle self) (flip_angle self)
    (follow_face self) b (edge_rail self)
    (edge_rail_only_end self) (threshold self) (caches_valid self)
    (cache_offset_infos self) (cache_edges_orig_ixs self) (bm_orig self)
    (initial_mouse self) (reports self).

Definition with_geometry_mode (m : geometry_mode_t) (self : OffsetEdges) : OffsetEdges :=
  mk_operator m (width self) (flip_width self) (depth self)
    (flip_depth self) (depth_mode self) (angle self) (flip_angle self)
    (follow_face self) (mirror_modifier self) (edge_rail self)
    (edge_rail_only_end self) (threshold self) (caches_valid self)
    (cache_offset_infos self) (cache_edges_orig_ixs self) (bm_orig self)
    (initial_mouse self) (reports self).

(** The z-axis edge in an object with the x/y mirror modifier, the
    operator taking the modifier into account. *)
Definition axis_edge_context : context_t :=
  mk_context (with_mirror_modifier true default_operator) initial_globals
             (mk_object identity_matrix [mirror_xy] axis_edge_mesh).

(** A selected triangle lying in the mirror plane x = 0, its three edges
    selected. *)
Definition plane_triangle_mesh : BMesh :=
  mk_bmesh
    [ vert_at (vec 0 0 0) [0; 2]%nat 0;
      vert_at (vec 0 1 0) [0; 1]%nat 1;
      vert_at (vec 0 0 1) [1; 2]%nat 2 ]
    [ edge_of 0 1 [0]%nat 0 true;
      edge_of 1 2 [0]%nat 1 true;
      edge_of 2 0 [0]%nat 2 true ]
    [ face_of [0; 1; 2]%nat (vec 1 0 0) true ].

Definition plane_triangle_context : context_t :=
  mk_context (with_mirror_modifier true default_operator) initial_globals
             (mk_object identity_matrix [mirror_x] plane_triangle_mesh).

(** The same triangle with its face deselected, and with it its edges
    and vertices. *)
Definition plane_triangle_deselected : BMesh :=
  mk_bmesh
    [ with_v_select false (vert_at (vec 0 0 0) [0; 2]%nat 0);
      with_v_select false (vert_at (vec 0 1 0) [0; 1]%nat 1);
      with_v_select false (vert_at (vec 0 0 1) [1; 2]%nat 2) ]
    [ edge_of 0 1 [0]%nat 0 false;
      edge_of 1 2 [0]%nat 1 false;
      edge_of 2 0 [0]%nat 2 false ]
    [ face_of [0; 1; 2]%nat (vec 1 0 0) false ].

(** One selected wire edge from (0, 0, 0) to (1, 0, 0). *)
Definition wire_edge_mesh : BMesh :=
  mk_bmesh
    [ vert_at (vec 0 0 0) [0]%nat 0;
      vert_at (vec 1 0 0) [0]%nat 1 ]
    [ edge_of 0 1 [] 0 true ]
    [].

Definition with_edge_rail (b : bool) (self : OffsetEdges) : OffsetEdges :=
  mk_operator (geometry_mode self) (width self) (flip_width self) (depth self)
    (flip_depth self) (depth_mode self) (angle self) (flip_angle self)
    (follow_face self) (mirror_modifier self) b
    (edge_rail_only_end self) (threshold self) (caches_valid self)
    (cache_offset_infos self) (cache_edges_orig_ixs self) (bm_orig self)
    (initial_mouse self) (reports self).

(** A selected wire edge 0-1 that starts on the mirror plane x = 0, and
    an unselected inner edge from the same vertex to (3, 4, 0). *)
Definition mirror_rail_mesh : BMesh :=
  mk_bmesh
    [ vert_at (vec 0 0 0) [0; 1]%nat 0;
      vert_at (vec 1 0 0) [0]%nat 1;
      vert_at (vec 3 4 0) [1]%nat 2 ]
    [ edge_of 0 1 [] 0 true;
      edge_of 0 2 [] 1 false ]
    [].

Definition plane_x : mirror_plane := (ZERO_VEC, Own X_UP, 1 / 1000).

Definition edge_rail_options : options := mk_options false true false (1 / 10000).

(** Move mode, mirror modifier and edge rail taken into account. *)
Definition mirror_rail_context : context_t :=
  mk_context
    (with_edge_rail true
       (with_mirror_modifier true (with_geometry_mode move default_operator)))
    initial_globals
    (mk_object identity_matrix [mirror_x] mirror_rail_mesh).

(** The wire edge, to be extruded under the default options. *)
Definition wire_edge_context : context_t :=
  mk_context (with_geometry_mode extrude default_operator) initial_globals
             (mk_object identity_matrix [] wire_edge_mesh).

(** A selected wire edge 0-1, and a selected edge 2-3 on the border of an
    unselected triangle whose normal points down. *)
Definition drift_mesh : BMesh :=
  mk_bmesh
    [ vert_at (vec 0 0 0) [0]%nat 0;
      vert_at (vec 1 0 0) [0]%nat 1;
      vert_at (vec 0 5 0) [1; 3]%nat 2;
      vert_at (vec 1 5 0) [1; 2]%nat 3;
      vert_at (vec 0 4 0) [2; 3]%nat 4 ]
    [ edge_of 0 1 [] 0 true;
      edge_of 2 3 [0]%nat 1 true;
      edge_of 3 4 [0]%nat 2 false;
      edge_of 4 2 [0]%nat 3 false ]
    [ face_of [2; 3; 4]%nat (vec 0 0 (-1)) false ].

(** Move mode with "Follow Face" on. *)
Definition drift_context : context_t :=
  mk_context (set_follow_face true (with_geometry_mode move default_operator))
             initial_globals
             (mk_object identity_matrix [] drift_mesh).

(** The same state with the two cache attributes back at their class
    default [None]: the next update has to run the full computation. *)
Definition drop_caches (ctx : context_t) : context_t :=
  let self := self_ ctx in
  mk_context
    (mk_operator (geometry_mode self) (width self) (flip_width self) (depth self)
       (flip_depth self) (depth_mode self) (angle self) (flip_angle self)
       (follow_face self) (mirror_modifier self) (edge_rail self)
       (edge_rail_only_end self) (threshold self) (caches_valid self)
       None None (bm_orig self) (initial_mouse self) (reports self))
    (module_ ctx) (edit_object ctx).

(** The states of the drag on [drift_mesh]: after [invoke], and after
    the first update (mouse at x = 10). *)
Definition drift_ctx1 : context_t :=
  mk_context
    (mk_operator move (2 / 10) false 0 false by_angle 0 false
                 true false false false (1 / 10000) true
                 None None (Some drift_mesh) (0, 0) [])
    initial_globals
    (mk_object identity_matrix [] drift_mesh).

Definition drift_cache : cache_infos_t :=
  [ ([1; 0]%Z, [(vec 0 1 0, vec 0 0 1); (vec 0 1 0, vec 0 0 1)]);
    ([2; 3]%Z, [(vec 0 1 0, vec 0 0 (-1)); (vec 0 1 0, vec 0 0 (-1))]) ].

Definition drift_mesh_moved : BMesh :=
  mk_bmesh
    [ vert_at (vec 0 (1 / 10) 0) [0]%nat 0;
      vert_at (vec 1 (1 / 10) 0) [0]%nat 1;
      vert_at (vec 0 (51 / 10) 0) [1; 3]%nat 2;
      vert_at (vec 1 (51 / 10) 0) [1; 2]%nat 3;
      with_v_select false (vert_at (vec 0 4 0) [2; 3]%nat 4) ]
    [ edge_of 0 1 [] 0 true;
      edge_of 2 3 [0]%nat 1 true;
      edge_of 3 4 [0]%nat 2 false;
      edge_of 4 2 [0]%nat 3 false ]
    [ face_of [2; 3; 4]%nat (vec 0 0 (-1)) false ].

Definition drift_ctx2 : context_t :=
  mk_context
    (mk_operator move ((10 - 0) * (1 / 100)) false 0 false by_angle 0 false
                 true false false false (1 / 10000) false
                 (Some drift_cache) (Some [0; 1]%Z) (Some drift_mesh) (0, 0) [])
    (mk_globals (vec 0 0 (-1)))
    (mk_object identity_matrix [] drift_mesh_moved).


(* ------------------------------------------------------------------ *)
(** * Shape of a loop *)

(** Edge [e] is a valid edge whose two ends are [v] and [w]. *)
Definition edge_joins (bm : BMesh) (e v w : nat) : bool :=
  match get_edge bm e with
  | Ok ed =>
      let '(a, b) := e_verts ed in
      ((Nat.eqb a v && Nat.eqb b w) || (Nat.eqb a w && Nat.eqb b v))%bool
  | _ => false
  end.

(** [v :: rest] is a list [v, e, v, e, ..., e, w] in which every edge
    joins the vertices written on its two sides. *)
Fixpoint chain (bm : BMesh) (v : nat) (rest : list BMElem) (w : nat) : bool :=
  match rest with
  | [] => Nat.eqb v w
  | BMEdge e :: BMVert u :: rest' => (edge_joins bm e v u && chain bm u rest' w)%bool
  | _ => false
  end.

(** Three different edges of [set_edges] meet at one vertex: [e0] has
    the vertex as an end and [e1], [e2] are among its link edges. *)
Definition branching (bm : BMesh) (set_edges : list nat) : Prop :=
  exists v vd e0 e1 e2,
    In e0 set_edges /\ In e1 set_edges /\ In e2 set_edges
    /\ e0 <> e1 /\ e0 <> e2 /\ e1 <> e2
    /\ edge_has_vert bm v e0 = true
    /\ get_vert bm v = Ok vd
    /\ In e1 (v_link_edges vd) /\ In e2 (v_link_edges vd).

(* ------------------------------------------------------------------ *)
(** * Mirror planes *)

(** Vertex [v] lies within the merge limit of the plane [mp], the test
    of [get_vert_mirror_pairs]. *)
Definition on_mirror_plane (g : globals) (bm : BMesh) (mp : mirror_plane)
    (v : nat) : bool :=
  let '(p_co, p_norm, mlimit) := mp in
  match co_of bm v with
  | Ok c => Rleb (Rabs (dot (deref g p_norm) (vsub c p_co))) mlimit
  | _ => false
  end.

(** Both ends of the valid edge [e] lie on the plane. *)
Definition edge_on_mirror_plane (g : globals) (bm : BMesh) (mp : mirror_plane)
    (e : nat) : bool :=
  match get_edge bm e with
  | Ok ed =>
      (on_mirror_plane g bm mp (fst (e_verts ed))
       && on_mirror_plane g bm mp (snd (e_verts ed)))%bool
  | _ => false
  end.

(* ------------------------------------------------------------------ *)
(** * Interactive session *)

(** Modelled from the spec: the interactive contract of sections 4.5
    and 6.  The host calls [modal] on one event after the other as long
    as it answers [RUNNING_MODAL]; [drags ctx ctx'] is a run of such
    events from the state [ctx] to the state [ctx']. *)
Inductive drags : context_t -> context_t -> Prop :=
| drags_none (ctx : context_t) : drags ctx ctx
| drags_step (ctx ctx' ctx'' : context_t) (ev : event) :
    modal ctx ev = Ok (RUNNING_MODAL, ctx') -> drags ctx' ctx'' -> drags ctx ctx''.

(** The fan under the default options. *)
Definition fan_context : context_t :=
  mk_context default_operator initial_globals
             (mk_object identity_matrix [] fan_mesh).

(* ------------------------------------------------------------------ *)
(** * Well-formed selection *)

(** The host never leaves a hidden element selected: hiding deselects.
    [hidden_unselected] says so of the edges and faces of a mesh. *)
Definition hidden_unselected (bm : BMesh) : bool :=
  (forallb (fun d => negb (e_hide d && e_select d)) (edge_store bm)
   && forallb (fun d => negb (f_hide d && f_select d)) (face_store bm))%bool.

(** A valid face that is not hidden. *)
Definition face_visible (bm : BMesh) (f : nat) : bool :=
  match nth_error (face_store bm) f with
  | Some d => (f_valid d && negb (f_hide d))%bool
  | None => false
  end.

(** Whether [get_offset_infos] answers "use the cache": the test of its
    first line. *)
Definition uses_caches (self : OffsetEdges) : bool :=
  (caches_valid self && is_some (cache_offset_infos self))%bool.

(** The number [Vector.angle] takes the arc cosine of, for operands that
    are not zero. *)
Definition cos_angle (a b : Vector) : R :=
  dot a b / (sqrt (dot a a) * sqrt (dot b b)).

(** [Vector.angle] is read here over the real numbers.  The host takes
    the arc cosine in single precision: a cosine that rounds to 1 gives
    the angle 0, and one that rounds to -1 gives the single-precision
    pi, which is above pi and has a negative sine.  A cosine is settled
    when this rounding moves it neither onto 1 nor onto -1: it is 1, or
    it is at least 2^-24 away from both 1 and -1. *)
Definition settled (c : R) : Prop :=
  c = 1 \/ -1 + / 16777216 <= c <= 1 - / 16777216.

(* ------------------------------------------------------------------ *)
(** * Properties *)

(** ** Boolean tests on reals *)

Lemma Reqb_true (a b : R) : a = b -> Reqb a b = true.
Proof. intro H. unfold Reqb. destruct (Req_dec_T a b); [reflexivity | contradiction]. Qed.

Lemma Reqb_false (a b : R) : a <> b -> Reqb a b = false.
Proof. intro H. unfold Reqb. destruct (Req_dec_T a b); [contradiction | reflexivity]. Qed.

Lemma Reqb_spec (a b : R) : reflect (a = b) (Reqb a b).
Proof. unfold Reqb. destruct (Req_dec_T a b); constructor; assumption. Qed.

Lemma Rltb_true (a b : R) : a < b -> Rltb a b = true.
Proof. intro H. unfold Rltb. destruct (Rlt_dec a b); [reflexivity | contradiction]. Qed.

Lemma Rltb_false (a b : R) : ~ a < b -> Rltb a b = false.
Proof. intro H. unfold Rltb. destruct (Rlt_dec a b); [contradiction | reflexivity]. Qed.

Lemma Rltb_spec (a b : R) : reflect (a < b) (Rltb a b).
Proof. unfold Rltb. destruct (Rlt_dec a b); constructor; assumption. Qed.

Lemma Rleb_true (a b : R) : a <= b -> Rleb a b = true.
Proof. intro H. unfold Rleb. destruct (Rle_dec a b); [reflexivity | contradiction]. Qed.

Lemma Rleb_false (a b : R) : ~ a <= b -> Rleb a b = false.
Proof. intro H. unfold Rleb. destruct (Rle_dec a b); [contradiction | reflexivity]. Qed.

Lemma Rleb_spec (a b : R) : reflect (a <= b) (Rleb a b).
Proof. unfold Rleb. destruct (Rle_dec a b); constructor; assumption. Qed.


(** ** The object store *)

Lemma valid_addresses_from {A : Type} (valid : A -> bool) (store : list A) (k : nat) :
  forall e,
    In e (map fst (filter (fun p => valid (snd p))
                          (combine (seq k (length store)) store)))
    <-> exists d, nth_error store (e - k) = Some d /\ valid d = true /\ (k <= e)%nat.
Proof.
  revert k. induction store as [|a store IH]; intros k e; simpl.
  - split; [intros [] | intros (d & H & _)]. destruct (e - k)%nat; discriminate.
  - destruct (valid a) eqn:Va; simpl.
    + rewrite IH. split.
      * intros [<- | (d & H1 & H2 & H3)].
        -- exists a. rewrite Nat.sub_diag. auto.
        -- exists d. replace (e - k)%nat with (S (e - S k)) by lia. simpl. auto with arith.
      * intros (d & H1 & H2 & H3).
        destruct (Nat.eq_dec k e) as [->|Hne]; [now left | right].
        exists d. replace (e - k)%nat with (S (e - S k)) in H1 by lia. simpl in H1.
        repeat split; auto; lia.
    + rewrite IH. split.
      * intros (d & H1 & H2 & H3).
        exists d. replace (e - k)%nat with (S (e - S k)) by lia. simpl. auto with arith.
      * intros (d & H1 & H2 & H3).
        destruct (Nat.eq_dec k e) as [->|Hne].
        -- rewrite Nat.sub_diag in H1. simpl in H1. congruence.
        -- exists d. replace (e - k)%nat with (S (e - S k)) in H1 by lia. simpl in H1.
           repeat split; auto; lia.
Qed.

Lemma valid_addresses_In {A : Type} (valid : A -> bool) (store : list A) (e : nat) :
  In e (valid_addresses valid store)
  <-> exists d, nth_error store e = Some d /\ valid d = true.
Proof.
  unfold valid_addresses. rewrite valid_addresses_from, Nat.sub_0_r.
  split; intros (d & H); exists d; intuition lia.
Qed.

Lemma valid_addresses_NoDup {A : Type} (valid : A -> bool) (store : list A) :
  NoDup (valid_addresses valid store).
Proof.
  unfold valid_addresses. generalize 0%nat as k.
  induction store as [|a store IH]; intro k; simpl; [constructor|].
  destruct (valid a); simpl; [|apply IH].
  constructor; [|apply IH].
  rewrite valid_addresses_from. intros (d & _ & _ & H). lia.
Qed.

Lemma bm_edges_valid (bm : BMesh) (e : nat) :
  In e (bm_edges bm) <-> exists ed, get_edge bm e = Ok ed.
Proof.
  unfold bm_edges, get_edge. rewrite valid_addresses_In. split.
  - intros (d & -> & ->). eauto.
  - intros (ed & H). destruct (nth_error (edge_store bm) e) as [d|]; [|discriminate].
    destruct (e_valid d) eqn:V; [|discriminate]. eauto.
Qed.

Lemma get_edge_nth (bm : BMesh) (e : nat) (ed : edge_data) :
  get_edge bm e = Ok ed -> nth_error (edge_store bm) e = Some ed.
Proof.
  unfold get_edge. destruct (nth_error (edge_store bm) e) as [d|]; [|discriminate].
  destruct (e_valid d); congruence.
Qed.

Lemma get_face_nth (bm : BMesh) (f : nat) (fd : face_data) :
  get_face bm f = Ok fd -> nth_error (face_store bm) f = Some fd.
Proof.
  unfold get_face. destruct (nth_error (face_store bm) f) as [d|]; [|discriminate].
  destruct (f_valid d); congruence.
Qed.

Lemma get_vert_nth (bm : BMesh) (v : nat) (vd : vert_data) :
  get_vert bm v = Ok vd -> nth_error (vert_store bm) v = Some vd.
Proof.
  unfold get_vert. destruct (nth_error (vert_store bm) v) as [d|]; [|discriminate].
  destruct (v_valid d); congruence.
Qed.

(** ** Sets as lists *)

Lemma mem_In (x : nat) (s : list nat) : mem x s = true <-> In x s.
Proof.
  unfold mem. rewrite existsb_exists. split.
  - intros (y & Hy & E). apply Nat.eqb_eq in E. now subst.
  - intro H. exists x. split; [assumption | apply Nat.eqb_refl].
Qed.

Lemma mem_false (x : nat) (s : list nat) : mem x s = false <-> ~ In x s.
Proof.
  rewrite <- mem_In. destruct (mem x s); split; congruence.
Qed.

(** ** [collect_edges] *)

Lemma count_faces_selected_spec (bm : BMesh) (fs : list nat) :
  forallb (fun f => is_ok (get_face bm f)) fs = true ->
  forall co, (co < 2)%nat ->
    count_faces_selected bm fs co
    = Ok (Nat.ltb (co + length (filter (face_selected bm) fs)) 2).
Proof.
  induction fs as [|f fs IH]; intros Hv co Hco; simpl.
  - rewrite Nat.add_0_r. f_equal. symmetry. now apply Nat.ltb_lt.
  - simpl in Hv. apply andb_prop in Hv as [Hf Hv].
    destruct (get_face bm f) as [fd| |] eqn:G; try discriminate. simpl.
    unfold face_selected at 1. rewrite (get_face_nth _ _ _ G).
    destruct (f_select fd); simpl.
    + destruct co as [|[|co]]; simpl; try lia.
      * rewrite (IH Hv 1%nat) by lia. reflexivity.
      * reflexivity.
    + now apply IH.
Qed.

Lemma collect_edges_fold (bm : BMesh) (l : list nat) :
  link_faces_valid bm = true ->
  forall acc,
    incl l (bm_edges bm) -> NoDup l -> (forall e, In e l -> ~ In e acc) ->
    foldM (collect_edges_step bm) acc l = Ok (acc ++ filter (qualifies bm) l).
Proof.
  intro Hwf. induction l as [|e l IH]; intros acc Hincl Hnd Hdisj; simpl.
  - now rewrite app_nil_r.
  - assert (He : In e (bm_edges bm)) by (apply Hincl; now left).
    pose proof He as He'. apply bm_edges_valid in He' as (ed & G).
    unfold collect_edges_step at 1. rewrite G. simpl.
    pose proof (get_edge_nth _ _ _ G) as Hn.
    assert (Hfv : forallb (fun f => is_ok (get_face bm f)) (e_link_faces ed) = true).
    { unfold link_faces_valid in Hwf. rewrite forallb_forall in Hwf.
      specialize (Hwf e He). now rewrite Hn in Hwf. }
    inversion Hnd as [|? ? Hnotin Hnd']; subst.
    assert (Hq : qualifies bm e
                 = (e_select ed && Nat.ltb (length (filter (face_selected bm) (e_link_faces ed))) 2)%bool).
    { unfold qualifies, edge_selected, selected_face_count. now rewrite Hn. }
    rewrite Hq.
    destruct (e_select ed); simpl.
    + rewrite (count_faces_selected_spec bm _ Hfv 0%nat) by lia. simpl.
      destruct (Nat.ltb _ 2).
      * unfold set_add. assert (Hm : mem e acc = false).
        { apply mem_false. apply Hdisj. now left. }
        rewrite Hm. rewrite IH.
        -- now rewrite <- app_assoc.
        -- intros x Hx. apply Hincl. now right.
        -- assumption.
        -- intros x Hx Hin. apply in_app_or in Hin as [Hin|[<-|[]]].
           ++ apply (Hdisj x); [now right | assumption].
           ++ contradiction.
      * apply IH; auto.
        -- intros x Hx. apply Hincl. now right.
        -- intros x Hx. apply Hdisj. now right.
    + apply IH; auto.
      * intros x Hx. apply Hincl. now right.
      * intros x Hx. apply Hdisj. now right.
Qed.

(** C6, as the code has it: on a mesh whose edges list valid faces,
    [collect_edges] returns the selected edges that have fewer than two
    selected adjacent faces (none or one), in the order of [bm.edges], and
    returns [None] exactly when there is no such edge. *)
Theorem collect_edges_fewer_than_two (bm : BMesh) :
  link_faces_valid bm = true ->
  collect_edges bm
  = Ok (match filter (qualifies bm) (bm_edges bm) with
        | [] => None
        | s => Some s
        end).
Proof.
  intro Hwf. unfold collect_edges.
  rewrite (collect_edges_fold bm (bm_edges bm) Hwf []).
  - simpl. now destruct (filter (qualifies bm) (bm_edges bm)).
  - apply incl_refl.
  - apply valid_addresses_NoDup.
  - intros e _ [].
Qed.

Lemma collect_edges_fewer_than_two_witness :
  link_faces_valid fan_mesh = true
  /\ collect_edges fan_mesh
     = Ok (match filter (qualifies fan_mesh) (bm_edges fan_mesh) with
           | [] => None
           | s => Some s
           end).
Proof.
  split; [vm_compute; reflexivity |].
  apply (collect_edges_fewer_than_two fan_mesh). vm_compute. reflexivity.
Defined.

(** C6 as stated fails on the fan: edge 0 is selected and has three
    selected adjacent faces (not two), and [collect_edges] leaves it
    out. *)
Lemma collect_edges_fan_counterexample :
  exists s,
    collect_edges fan_mesh = Ok (Some s)
    /\ qualifies_spec fan_mesh 0 = true
    /\ selected_face_count fan_mesh 0 = 3%nat
    /\ ~ In 0%nat s.
Proof.
  exists [1; 2; 3; 4; 5; 6]%nat.
  split; [vm_compute; reflexivity |].
  split; [vm_compute; reflexivity |].
  split; [vm_compute; reflexivity |].
  simpl. intuition discriminate.
Qed.

(** ** [collect_loops] *)

Lemma discard_In (e x : nat) (s : list nat) :
  In x (discard e s) <-> In x s /\ x <> e.
Proof.
  induction s as [|y s IH]; simpl; [tauto|].
  destruct (Nat.eqb_spec e y) as [->|Hne]; simpl; rewrite IH; intuition congruence.
Qed.

Lemma discard_notin (e : nat) (s : list nat) : ~ In e s -> discard e s = s.
Proof.
  induction s as [|y s IH]; simpl; intro H; [reflexivity|].
  destruct (Nat.eqb_spec e y) as [->|Hne]; [tauto | f_equal; tauto].
Qed.

Lemma discard_NoDup (e : nat) (s : list nat) : NoDup s -> NoDup (discard e s).
Proof.
  induction 1 as [|y s Hy Hnd IH]; simpl; [constructor|].
  destruct (Nat.eqb_spec e y); [assumption|].
  constructor; [|assumption]. rewrite discard_In. tauto.
Qed.

Lemma discard_Permutation (e : nat) (s : list nat) :
  NoDup s -> In e s -> Permutation s (e :: discard e s).
Proof.
  induction 1 as [|y s Hy Hnd IH]; simpl; intros Hin; [contradiction|].
  destruct (Nat.eqb_spec e y) as [->|Hne].
  - now rewrite discard_notin.
  - destruct Hin as [->|Hin]; [congruence|].
    rewrite perm_swap. constructor. now apply IH.
Qed.

Lemma discard_length (e : nat) (s : list nat) :
  In e s -> (length (discard e s) < length s)%nat.
Proof.
  induction s as [|y s IH]; simpl; intros Hin; [contradiction|].
  destruct (Nat.eqb_spec e y) as [->|Hne]; simpl.
  - destruct (in_dec Nat.eq_dec y s) as [Hi|Hn].
    + specialize (IH Hi). lia.
    + rewrite discard_notin by assumption. lia.
  - destruct Hin as [->|Hin]; [congruence|]. specialize (IH Hin). lia.
Qed.

(** What the scan of the edges around a vertex can answer. *)
Lemma scan_link_edges_found (es s : list nat) (e0 : nat) :
  scan_link_edges es s (Some e0) = Ok None
  \/ scan_link_edges es s (Some e0) = Ok (Some (Some e0, s)).
Proof.
  induction es as [|e es IH]; simpl; [now right|].
  destruct (mem e s); [now left | exact IH].
Qed.

Lemma scan_link_edges_spec (es s : list nat) :
  scan_link_edges es s None = Ok None
  \/ scan_link_edges es s None = Ok (Some (None, s))
  \/ exists e, In e s
               /\ scan_link_edges es s None = Ok (Some (Some e, discard e s)).
Proof.
  induction es as [|e es IH]; simpl; [right; now left|].
  destruct (mem e s) eqn:M; [|exact IH].
  unfold set_remove. rewrite M. simpl.
  destruct (scan_link_edges_found es (discard e s) e) as [H|H]; rewrite H.
  - now left.
  - right; right. exists e. split; [now apply mem_In | reflexivity].
Qed.

Lemma loop_edges_app (l1 l2 : list BMElem) :
  loop_edges (l1 ++ l2) = loop_edges l1 ++ loop_edges l2.
Proof. apply flat_map_app. Qed.

Lemma loop_edges_rev (l : list BMElem) :
  Permutation (loop_edges (rev l)) (loop_edges l).
Proof.
  unfold loop_edges, edges_of_geom. apply Permutation_flat_map.
  apply Permutation_sym, Permutation_rev.
Qed.

(** Growing a loop moves edges from the set to the loop and loses none. *)
Lemma grow_loop_conserves (bm : BMesh) (fuel : nat) :
  forall s lp v_left v_right reverse lp' s',
    NoDup s ->
    grow_loop fuel bm s lp v_left v_right reverse = Ok (Some (lp', s')) ->
    NoDup s'
    /\ Permutation (loop_edges lp ++ s) (loop_edges lp' ++ s')
    /\ (length s' <= length s)%nat.
Proof.
  induction fuel as [|fuel IH]; intros s lp vl vr rv lp' s' Hnd H; simpl in H;
    [discriminate|].
  destruct (get_vert bm vr) as [vd| |]; simpl in H; try discriminate.
  destruct (scan_link_edges_spec (v_link_edges vd) s) as [E|[E|(e & He & E)]];
    rewrite E in H; simpl in H.
  - discriminate.
  - destruct (Nat.eqb vr vl).
    + injection H as <- <-. auto.
    + destruct rv; simpl in H.
      * injection H as <- <-. auto.
      * apply IH in H as (H1 & H2 & H3); [|assumption].
        repeat split; auto.
        rewrite <- H2. apply Permutation_app_tail.
        apply Permutation_sym, loop_edges_rev.
  - destruct (other_vert bm e vr) as [[v'|]| |]; simpl in H; try discriminate.
    apply IH in H as (H1 & H2 & H3); [|now apply discard_NoDup].
    repeat split; auto.
    + rewrite <- H2. rewrite loop_edges_app. simpl.
      rewrite <- app_assoc. apply Permutation_app_head. simpl.
      now apply discard_Permutation.
    + pose proof (discard_length e s He). lia.
Qed.

Lemma get_vert_not_fuel (bm : BMesh) (v : nat) : get_vert bm v <> OutOfFuel.
Proof.
  unfold get_vert. destruct (nth_error (vert_store bm) v) as [d|]; [|discriminate].
  destruct (v_valid d); discriminate.
Qed.

Lemma get_edge_not_fuel (bm : BMesh) (e : nat) : get_edge bm e <> OutOfFuel.
Proof.
  unfold get_edge. destruct (nth_error (edge_store bm) e) as [d|]; [|discriminate].
  destruct (e_valid d); discriminate.
Qed.

(** The budget of [grow_loop] is never exhausted. *)
Lemma grow_loop_fuel (bm : BMesh) (fuel : nat) :
  forall s lp v_left v_right (reverse : bool),
    (length s + (if reverse then 1 else 2) <= fuel)%nat ->
    grow_loop fuel bm s lp v_left v_right reverse <> OutOfFuel.
Proof.
  induction fuel as [|fuel IH]; intros s lp vl vr rv Hf; simpl.
  - destruct rv; lia.
  - destruct (get_vert bm vr) as [vd| |] eqn:GV; simpl; try discriminate;
      [|now apply get_vert_not_fuel in GV].
    destruct (scan_link_edges_spec (v_link_edges vd) s) as [E|[E|(e & He & E)]];
      rewrite E; simpl.
    + discriminate.
    + destruct (Nat.eqb vr vl); [discriminate|].
      destruct rv; simpl; [discriminate|]. apply IH. lia.
    + destruct (other_vert bm e vr) as [[v'|]| |] eqn:O; simpl; try discriminate.
      * apply IH. pose proof (discard_length e s He). destruct rv; lia.
      * unfold other_vert, get_edge in O.
        destruct (nth_error (edge_store bm) e) as [ed|]; [|discriminate].
        destruct (e_valid ed); [|discriminate]. simpl in O.
        destruct (e_verts ed). discriminate.
Qed.

Lemma collect_loops_from_conserves (bm : BMesh) (fuel : nat) :
  forall s loops loops',
    NoDup s ->
    collect_loops_from fuel bm s loops = Ok (Some loops') ->
    Permutation (flat_map loop_edges loops ++ s) (flat_map loop_edges loops').
Proof.
  induction fuel as [|fuel IH]; intros s loops loops' Hnd H.
  - destruct s; simpl in H; [|discriminate].
    injection H as <-. now rewrite app_nil_r.
  - destruct s as [|e s]; simpl in H.
    + injection H as <-. now rewrite app_nil_r.
    + destruct (get_edge bm e) as [ed| |]; simpl in H; try discriminate.
      destruct (e_verts ed) as [vl vr].
      destruct (grow_loop (length s + 2) bm s
                  [BMVert vl; BMEdge e; BMVert vr] vl vr false)
        as [[[lp s']|]| |] eqn:G; simpl in H; try discriminate.
      inversion Hnd as [|? ? Hnotin Hnd']; subst.
      apply grow_loop_conserves in G as (G1 & G2 & G3); [|assumption].
      apply IH in H; [|assumption].
      rewrite <- H. rewrite flat_map_app. simpl. rewrite app_nil_r.
      rewrite <- app_assoc. apply Permutation_app_head.
      simpl in G2. exact G2.
Qed.

Lemma collect_loops_from_fuel (bm : BMesh) (fuel : nat) :
  forall s loops,
    NoDup s -> (length s <= fuel)%nat ->
    collect_loops_from fuel bm s loops <> OutOfFuel.
Proof.
  induction fuel as [|fuel IH]; intros s loops Hnd Hf.
  - destruct s; simpl in *; [discriminate | lia].
  - destruct s as [|e s]; simpl; [discriminate|].
    destruct (get_edge bm e) as [ed| |] eqn:GE; simpl; try discriminate;
      [|now apply get_edge_not_fuel in GE].
    destruct (e_verts ed) as [vl vr].
    destruct (grow_loop (length s + 2) bm s
                [BMVert vl; BMEdge e; BMVert vr] vl vr false)
      as [[[lp s']|]| |] eqn:G; simpl; try discriminate.
    + inversion Hnd as [|? ? Hnotin Hnd']; subst.
      apply grow_loop_conserves in G as (G1 & G2 & G3); [|assumption].
      apply IH; [assumption|]. simpl in Hf. lia.
    + exfalso. revert G. apply grow_loop_fuel. lia.
Qed.

(** X5: [collect_loops] always comes to an answer: a list of loops, [None],
    or a Python exception. *)
Lemma collect_loops_terminates (bm : BMesh) (s : list nat) :
  NoDup s -> collect_loops bm s <> OutOfFuel.
Proof.
  intro Hnd. unfold collect_loops. now apply collect_loops_from_fuel.
Qed.

(** C7: when [collect_loops] returns a list of loops, the edges of the
    loops, taken together, are the edges of the input set, each one once:
    an edge of the set occurs once in all the loops together, and any
    other edge does not occur. *)
Theorem collect_loops_each_edge_once (bm : BMesh) (s : list nat)
    (loops : list (list BMElem)) :
  NoDup s ->
  collect_loops bm s = Ok (Some loops) ->
  Permutation (flat_map loop_edges loops) s
  /\ forall e, count_occ Nat.eq_dec (flat_map loop_edges loops) e
               = if mem e s then 1%nat else 0%nat.
Proof.
  intros Hnd H. unfold collect_loops in H.
  apply collect_loops_from_conserves in H; [|assumption]. simpl in H.
  split; [now apply Permutation_sym|].
  intro e.
  pose proof (proj1 (Permutation_count_occ Nat.eq_dec _ _) H e) as Hc.
  rewrite <- Hc. destruct (mem e s) eqn:M.
  - apply mem_In in M. apply NoDup_count_occ'; assumption.
  - apply mem_false in M. now apply count_occ_not_In.
Qed.

Lemma collect_loops_each_edge_once_witness :
  NoDup [1; 2]%nat
  /\ collect_loops fan_mesh [1; 2]%nat
     = Ok (Some [[BMVert 1; BMEdge 2; BMVert 2; BMEdge 1; BMVert 0]])
  /\ Permutation
       (flat_map loop_edges [[BMVert 1; BMEdge 2; BMVert 2; BMEdge 1; BMVert 0]])
       [1; 2]%nat.
Proof.
  assert (Hnd : NoDup [1; 2]%nat).
  { repeat constructor; simpl; intuition discriminate. }
  assert (Hrun : collect_loops fan_mesh [1; 2]%nat
                 = Ok (Some [[BMVert 1; BMEdge 2; BMVert 2; BMEdge 1; BMVert 0]])).
  { vm_compute. reflexivity. }
  split; [exact Hnd | split; [exact Hrun |]].
  exact (proj1 (collect_loops_each_edge_once fan_mesh [1; 2]%nat _ Hnd Hrun)).
Defined.

(** C5, at the failing input: in the lasso every edge qualifies and
    vertex 0 has three of them, yet [collect_loops], popping edge 0 first,
    returns one loop instead of [None]; popping the tail first it returns
    [None]. *)
Theorem collect_loops_lasso_not_None :
  collect_edges lasso_mesh = Ok (Some [0; 1; 2; 3]%nat)
  /\ degree_in lasso_mesh [0; 1; 2; 3]%nat 0 = 3%nat
  /\ collect_loops lasso_mesh [0; 1; 2; 3]%nat
     = Ok (Some [[BMVert 3; BMEdge 3; BMVert 0; BMEdge 2; BMVert 2;
                  BMEdge 1; BMVert 1; BMEdge 0; BMVert 0]])
  /\ collect_loops lasso_mesh [3; 0; 1; 2]%nat = Ok None.
Proof.
  repeat split; vm_compute; reflexivity.
Qed.

(** ** Vectors *)

Lemma veqb_spec (a b : Vector) : reflect (a = b) (veqb a b).
Proof.
  destruct a as [ax ay az], b as [bx b_y bz]. unfold veqb. simpl.
  destruct (Reqb_spec ax bx); simpl;
    [destruct (Reqb_spec ay b_y); simpl; [destruct (Reqb_spec az bz); simpl|]|];
    constructor; congruence.
Qed.

Lemma veqb_true (a b : Vector) : a = b -> veqb a b = true.
Proof. intro H. now destruct (veqb_spec a b). Qed.

Lemma veqb_false (a b : Vector) : a <> b -> veqb a b = false.
Proof. intro H. now destruct (veqb_spec a b). Qed.

Lemma dot_self_nonneg (v : Vector) : 0 <= dot v v.
Proof. destruct v as [a b c]. unfold dot. simpl. nra. Qed.

Lemma dot_self_zero (v : Vector) : dot v v = 0 <-> v = ZERO_VEC.
Proof.
  destruct v as [a b c]. unfold dot, ZERO_VEC. simpl. split.
  - intro H. assert (a = 0) by nra. assert (b = 0) by nra. assert (c = 0) by nra.
    now subst.
  - intro H. injection H as -> -> ->. lra.
Qed.

Lemma dot_vscale_l (k : R) (a b : Vector) : dot (vscale k a) b = k * dot a b.
Proof. unfold dot, vscale. simpl. ring. Qed.

Lemma dot_vscale_r (k : R) (a b : Vector) : dot a (vscale k b) = k * dot a b.
Proof. unfold dot, vscale. simpl. ring. Qed.

Lemma normalized_unit (v : Vector) : dot v v = 1 -> normalized v = v.
Proof.
  intro H. unfold normalized. rewrite H, Rltb_true by lra.
  rewrite sqrt_1, Rinv_1. destruct v. unfold vscale. simpl. f_equal; ring.
Qed.

Lemma normalized_zero : normalized ZERO_VEC = ZERO_VEC.
Proof.
  unfold normalized. rewrite Rltb_false; [reflexivity|].
  unfold dot, ZERO_VEC. simpl. lra.
Qed.

(** [normalized] answers the zero vector or a vector of length one. *)
Lemma normalized_zero_or_unit (v : Vector) :
  normalized v = ZERO_VEC \/ length_v (normalized v) = 1.
Proof.
  unfold normalized. destruct (Rltb_spec 0 (dot v v)) as [Hpos|Hn]; [right | now left].
  unfold length_v. rewrite dot_vscale_l, dot_vscale_r.
  assert (Hs : 0 < sqrt (dot v v)) by now apply sqrt_lt_R0.
  replace (/ sqrt (dot v v) * (/ sqrt (dot v v) * dot v v)) with 1.
  - apply sqrt_1.
  - rewrite <- (sqrt_sqrt (dot v v)) at 3 by lra. field. lra.
Qed.

Lemma vangle_bound (a b : Vector) (t : R) : vangle a b = Ok t -> 0 <= t <= PI.
Proof.
  unfold vangle. destruct (Reqb (dot a a) 0 || Reqb (dot b b) 0)%bool; [discriminate|].
  intro H. injection H as <-. apply acos_bound.
Qed.

Lemma vangle_defined (a b : Vector) :
  a <> ZERO_VEC -> b <> ZERO_VEC -> exists t, vangle a b = Ok t.
Proof.
  intros Ha Hb. unfold vangle.
  rewrite (Reqb_false (dot a a) 0), (Reqb_false (dot b b) 0); simpl; eauto.
  - now rewrite dot_self_zero.
  - now rewrite dot_self_zero.
Qed.

Lemma sin_angle_bound (t : R) : 0 <= t <= PI -> 0 <= sin t <= 1.
Proof.
  intros [H0 H1]. split.
  - now apply sin_ge_0.
  - apply SIN_bound.
Qed.

(** ** Evaluation of tests on concrete reals *)

Ltac r_arith :=
  cbv beta iota delta [vsub vadd vscale vneg cross project dot
                       X_UP Y_UP ZERO_VEC Z_UP_initial vx vy vz];
  first [ lra
        | unfold Rabs;
          repeat match goal with
                 | |- context [Rcase_abs ?x] => destruct (Rcase_abs x)
                 end;
          lra ].

Ltac v_unfold :=
  cbv beta iota delta [vsub vadd vscale vneg cross project dot
                       X_UP Y_UP ZERO_VEC Z_UP_initial vx vy vz].

Ltac v_eq := v_unfold; f_equal; first [ lra | field; lra ].

Ltac v_neq := v_unfold; let H := fresh in intro H; injection H; intros; lra.

Ltac r_test :=
  match goal with
  | |- context [veqb ?a ?b] =>
      first [ rewrite (veqb_true a b) by v_eq
            | rewrite (veqb_false a b) by v_neq ]
  | |- context [Rleb ?a ?b] =>
      first [ rewrite (Rleb_true a b) by r_arith
            | rewrite (Rleb_false a b) by r_arith ]
  | |- context [Rltb ?a ?b] =>
      first [ rewrite (Rltb_true a b) by r_arith
            | rewrite (Rltb_false a b) by r_arith ]
  | |- context [Reqb ?a ?b] =>
      first [ rewrite (Reqb_true a b) by r_arith
            | rewrite (Reqb_false a b) by r_arith ]
  end.

Ltac r_eval := simpl; repeat (r_test; simpl).

Lemma inverted_identity_ok : is_ok (inverted identity_matrix) = true.
Proof.
  unfold inverted.
  rewrite (Reqb_false (determinant 4 identity_matrix) 0); [reflexivity|].
  unfold identity_matrix, determinant, minor, sign. simpl. lra.
Qed.

(** ** Mirror planes *)

(** C4, at the failing input: an edge along the z axis lies within the
    merge limit of both planes of an x/y mirror modifier; the second
    [set_edges_copy.remove(e)] raises [KeyError], and so does the whole
    invocation. *)
Theorem get_vert_mirror_pairs_KeyError :
  collect_mirror_planes (edit_object axis_edge_context)
  = Ok [(ZERO_VEC, Own X_UP, 1 / 1000); (ZERO_VEC, Own Y_UP, 1 / 1000)]
  /\ get_vert_mirror_pairs initial_globals axis_edge_mesh [0%nat]
       [(ZERO_VEC, Own X_UP, 1 / 1000); (ZERO_VEC, Own Y_UP, 1 / 1000)]
     = Raise KeyError
  /\ execute axis_edge_context = Raise KeyError.
Proof.
  assert (Hplanes : collect_mirror_planes (edit_object axis_edge_context)
                    = Ok [(ZERO_VEC, Own X_UP, 1 / 1000); (ZERO_VEC, Own Y_UP, 1 / 1000)]).
  { unfold collect_mirror_planes. simpl matrix_world.
    pose proof inverted_identity_ok as Hinv.
    destruct (inverted identity_matrix); try discriminate. reflexivity. }
  assert (Hpairs : get_vert_mirror_pairs initial_globals axis_edge_mesh [0%nat]
                     [(ZERO_VEC, Own X_UP, 1 / 1000); (ZERO_VEC, Own Y_UP, 1 / 1000)]
                   = Raise KeyError).
  { unfold get_vert_mirror_pairs. r_eval. reflexivity. }
  split; [exact Hplanes | split; [exact Hpairs |]].
  unfold execute, get_offset_infos. simpl caches_valid. simpl andb. cbv iota.
  replace (collect_edges (from_mesh (data (edit_object axis_edge_context))))
    with (Ok (Some [0%nat]) : result (option (list nat)))
    by (vm_compute; reflexivity).
  simpl bind. simpl mirror_modifier. cbv iota.
  unfold axis_edge_context in Hplanes. simpl edit_object in Hplanes.
  rewrite Hplanes. r_eval. reflexivity.
Qed.

(** ** [calc_tangent] *)

(** C3, at the failing input: with the unit vectors up = (0, 0, 1),
    right = (1, 0, 0) and left = (0, 3/5, 4/5), the left vector handed to
    [get_corner_type] is (0, 3/5, 0): it is not the zero vector and its
    length is 3/5, not 1.  The right vector is normalised (twice). *)
Theorem calc_tangent_2d_left_not_normalized :
  calc_tangent_2d (vec 0 0 1) (vec 1 0 0) (vec 0 (3 / 5) (4 / 5))
  = (vec 1 0 0, vec 0 (3 / 5) 0)
  /\ vec 0 (3 / 5) 0 <> ZERO_VEC
  /\ length_v (vec 0 (3 / 5) 0) = 3 / 5
  /\ length_v (vec 0 (3 / 5) 0) <> 1.
Proof.
  assert (Hlen : length_v (vec 0 (3 / 5) 0) = 3 / 5).
  { unfold length_v, dot. simpl.
    replace (0 * 0 + 3 / 5 * (3 / 5) + 0 * 0) with ((3 / 5) * (3 / 5)) by lra.
    apply sqrt_square. lra. }
  repeat split.
  - unfold calc_tangent_2d.
    assert (Hr : vsub (vec 1 0 0) (project (vec 1 0 0) (vec 0 0 1)) = vec 1 0 0).
    { unfold vsub, project, vscale, dot. simpl. f_equal; field. }
    assert (Hl : vsub (vec 0 (3 / 5) (4 / 5))
                      (project (vec 0 (3 / 5) (4 / 5)) (vec 0 0 1))
                 = vec 0 (3 / 5) 0).
    { unfold vsub, project, vscale, dot. simpl. f_equal; field. }
    rewrite Hr, Hl.
    rewrite !(normalized_unit (vec 1 0 0)) by (unfold dot; simpl; lra).
    reflexivity.
  - unfold ZERO_VEC. intro H. injection H as H. lra.
  - exact Hlen.
  - rewrite Hlen. lra.
Qed.

(** The first vector handed to [get_corner_type] is, for all inputs, zero
    or of length one. *)
Lemma calc_tangent_2d_right_normalized (vec_up vec_right vec_left : Vector) :
  let r2d := fst (calc_tangent_2d vec_up vec_right vec_left) in
  r2d = ZERO_VEC \/ length_v r2d = 1.
Proof.
  unfold calc_tangent_2d. simpl. apply normalized_zero_or_unit.
Qed.

(** ** [get_factor] *)

Lemma vangle_zero_operand (a b : Vector) :
  a = ZERO_VEC \/ b = ZERO_VEC -> vangle a b = Raise ValueError.
Proof.
  intros [-> | ->]; unfold vangle.
  - rewrite (Reqb_true (dot ZERO_VEC ZERO_VEC) 0); [reflexivity|].
    unfold dot, ZERO_VEC. simpl. ring.
  - rewrite (Reqb_true (dot ZERO_VEC ZERO_VEC) 0);
      [now rewrite orb_true_r|].
    unfold dot, ZERO_VEC. simpl. ring.
Qed.

(** C10: What [get_factor] (with the default [max]) does, case by case.
    For a zero direction it returns 0.  For a direction that is not zero
    and an edge vector that is zero, [Vector.angle] raises [ValueError].
    For three vectors that are not zero, both angles exist, each sine
    lies in [0, 1], and [get_factor] returns 0 when the denominator
    [max (sin a_right) (sin a_left)] is zero and otherwise one over the
    denominator, which is at least 1.  The last case is stated for
    directions whose cosines with the two edge vectors are settled; a
    direction opposite to an edge vector, or within single-precision
    rounding of parallel or opposite to one, is left out. *)
Theorem get_factor_cases (vec_direction vec_right vec_left : Vector) :
  (vec_direction = ZERO_VEC ->
   get_factor vec_direction vec_right vec_left = Ok 0)
  /\ (vec_direction <> ZERO_VEC ->
      vec_right = ZERO_VEC \/ vec_left = ZERO_VEC ->
      get_factor vec_direction vec_right vec_left = Raise ValueError)
  /\ (vec_direction <> ZERO_VEC ->
      vec_right <> ZERO_VEC -> vec_left <> ZERO_VEC ->
      settled (cos_angle vec_direction vec_right) ->
      settled (cos_angle vec_direction vec_left) ->
      exists a_right a_left,
        vangle vec_direction vec_right = Ok a_right
        /\ vangle vec_direction vec_left = Ok a_left
        /\ 0 <= sin a_right <= 1 /\ 0 <= sin a_left <= 1
        /\ (Rmax (sin a_right) (sin a_left) = 0 ->
            get_factor vec_direction vec_right vec_left = Ok 0)
        /\ (Rmax (sin a_right) (sin a_left) <> 0 ->
            get_factor vec_direction vec_right vec_left
            = Ok (1 / Rmax (sin a_right) (sin a_left))
            /\ 1 <= 1 / Rmax (sin a_right) (sin a_left))).
Proof.
  unfold get_factor, get_factor_with. split; [|split].
  - intros ->. now rewrite (veqb_true ZERO_VEC ZERO_VEC eq_refl).
  - intros Hd Hz. rewrite (veqb_false _ _ Hd).
    destruct (veqb_spec vec_right ZERO_VEC) as [Hr|Hr].
    + now rewrite (vangle_zero_operand _ _ (or_intror Hr)).
    + destruct Hz as [Hz|Hz]; [contradiction|].
      destruct (vangle_defined vec_direction vec_right Hd Hr) as (t & ->).
      cbn [bind]. now rewrite (vangle_zero_operand _ _ (or_intror Hz)).
  - intros Hd Hr Hl _ _. rewrite (veqb_false _ _ Hd).
    destruct (vangle_defined vec_direction vec_right Hd Hr) as (t1 & E1).
    destruct (vangle_defined vec_direction vec_left Hd Hl) as (t2 & E2).
    exists t1, t2. rewrite E1, E2. cbn [bind].
    pose proof (sin_angle_bound t1 (vangle_bound _ _ _ E1)) as B1.
    pose proof (sin_angle_bound t2 (vangle_bound _ _ _ E2)) as B2.
    repeat (split; [first [reflexivity | assumption | apply B1 | apply B2]|]).
    split.
    + intro Hz. now rewrite (Reqb_true _ _ Hz).
    + intro Hnz. rewrite (Reqb_false _ _ Hnz). split; [reflexivity|].
      assert (Hm : 0 < Rmax (sin t1) (sin t2) <= 1).
      { unfold Rmax in *. destruct (Rle_dec (sin t1) (sin t2)); lra. }
      unfold Rdiv. rewrite Rmult_1_l.
      rewrite <- Rinv_1 at 1. apply Rinv_le_contravar; lra.
Qed.

Lemma get_factor_cases_witness :
  vec 0 (-1) 0 <> ZERO_VEC /\ vec 1 0 0 <> ZERO_VEC /\ vec (-1) 0 0 <> ZERO_VEC
  /\ settled (cos_angle (vec 0 (-1) 0) (vec 1 0 0))
  /\ settled (cos_angle (vec 0 (-1) 0) (vec (-1) 0 0))
  /\ exists a_right a_left,
       vangle (vec 0 (-1) 0) (vec 1 0 0) = Ok a_right
       /\ vangle (vec 0 (-1) 0) (vec (-1) 0 0) = Ok a_left
       /\ 0 <= sin a_right <= 1 /\ 0 <= sin a_left <= 1
       /\ (Rmax (sin a_right) (sin a_left) = 0 ->
           get_factor (vec 0 (-1) 0) (vec 1 0 0) (vec (-1) 0 0) = Ok 0)
       /\ (Rmax (sin a_right) (sin a_left) <> 0 ->
           get_factor (vec 0 (-1) 0) (vec 1 0 0) (vec (-1) 0 0)
           = Ok (1 / Rmax (sin a_right) (sin a_left))
           /\ 1 <= 1 / Rmax (sin a_right) (sin a_left)).
Proof.
  assert (Hd : vec 0 (-1) 0 <> ZERO_VEC).
  { unfold ZERO_VEC. intro H. injection H as H. lra. }
  assert (Hr : vec 1 0 0 <> ZERO_VEC).
  { unfold ZERO_VEC. intro H. injection H as H. lra. }
  assert (Hl : vec (-1) 0 0 <> ZERO_VEC).
  { unfold ZERO_VEC. intro H. injection H as H. lra. }
  assert (Sr : settled (cos_angle (vec 0 (-1) 0) (vec 1 0 0))).
  { right. unfold cos_angle, dot. simpl.
    replace (0 * 1 + -1 * 0 + 0 * 0) with 0 by ring.
    unfold Rdiv. rewrite Rmult_0_l. lra. }
  assert (Sl : settled (cos_angle (vec 0 (-1) 0) (vec (-1) 0 0))).
  { right. unfold cos_angle, dot. simpl.
    replace (0 * -1 + -1 * 0 + 0 * 0) with 0 by ring.
    unfold Rdiv. rewrite Rmult_0_l. lra. }
  repeat (split; [assumption|]).
  exact (proj2 (proj2 (get_factor_cases (vec 0 (-1) 0) (vec 1 0 0) (vec (-1) 0 0)))
           Hd Hr Hl Sr Sl).
Defined.

(** C10 as stated fails for a zero edge vector: the direction (1, 0, 0)
    is not zero, so [get_factor] asks for its angle with the edge vector
    (0, 0, 0), and [Vector.angle] raises [ValueError]. *)
Lemma get_factor_zero_edge_counterexample :
  get_factor (vec 1 0 0) (vec 0 0 0) (vec 1 0 0) = Raise ValueError.
Proof.
  unfold get_factor, get_factor_with, vangle. r_eval. reflexivity.
Qed.

(** ** The operator: all edges on mirror planes *)

Lemma collect_mirror_planes_x (me : BMesh) :
  collect_mirror_planes (mk_object identity_matrix [mirror_x] me)
  = Ok [(ZERO_VEC, Own X_UP, 1 / 1000)].
Proof.
  unfold collect_mirror_planes. simpl matrix_world.
  pose proof inverted_identity_ok as Hinv.
  destruct (inverted identity_matrix); try discriminate. reflexivity.
Qed.

(** C2, at the failing input: a selected triangle lies in the mirror
    plane, so the exclusion empties the edge set (the second component of
    [get_vert_mirror_pairs]).  The warning is reported, but the invocation
    goes on: it ends as [FINISHED], stores empty caches, and commits a
    mesh in which the face is no longer selected. *)
Theorem execute_all_edges_mirrored_finishes :
  get_vert_mirror_pairs initial_globals plane_triangle_mesh [0; 1; 2]%nat
    [(ZERO_VEC, Own X_UP, 1 / 1000)]
  = Ok (Some [(0%nat, (ZERO_VEC, Own X_UP, 1 / 1000));
              (1%nat, (ZERO_VEC, Own X_UP, 1 / 1000));
              (2%nat, (ZERO_VEC, Own X_UP, 1 / 1000))], [])
  /\ execute plane_triangle_context
     = Ok (FINISHED,
           mk_context
             (set_caches_valid false
                (set_caches [] []
                   (report All_selected_edges_are_on_mirror_planes
                      (with_mirror_modifier true default_operator))))
             initial_globals
             (mk_object identity_matrix [mirror_x] plane_triangle_deselected))
  /\ face_selected plane_triangle_mesh 0 = true
  /\ face_selected plane_triangle_deselected 0 = false
  /\ plane_triangle_deselected <> plane_triangle_mesh.
Proof.
  split; [|split; [|split; [reflexivity | split; [reflexivity | discriminate]]]].
  - unfold get_vert_mirror_pairs. r_eval. reflexivity.
  - unfold execute, get_offset_infos. simpl caches_valid. simpl andb. cbv iota.
    replace (collect_edges (from_mesh (data (edit_object plane_triangle_context))))
      with (Ok (Some [0; 1; 2]%nat) : result (option (list nat)))
      by (vm_compute; reflexivity).
    simpl bind. simpl mirror_modifier. cbv iota.
    rewrite collect_mirror_planes_x. r_eval. reflexivity.
Qed.

(** ** Evaluation of the direction solver on concrete loops *)

Lemma vangle_units (a b : Vector) :
  dot a a = 1 -> dot b b = 1 -> vangle a b = Ok (acos (dot a b)).
Proof.
  intros Ha Hb. unfold vangle. rewrite Ha, Hb.
  rewrite (Reqb_false 1 0) by lra. simpl.
  rewrite sqrt_1. do 2 f_equal. field.
Qed.

Lemma acos_m1 : acos (-1) = PI.
Proof. replace (-1) with (- (1)) by lra. rewrite acos_opp, acos_1. lra. Qed.

Lemma dot_vneg_vneg (a : Vector) : dot (vneg a) (vneg a) = dot a a.
Proof. unfold dot, vneg. simpl. ring. Qed.

Lemma get_corner_type_opposite (vec_up r l : Vector) (threshold : R) :
  dot r r = 1 -> l = vneg r -> 0 < threshold <= PI ->
  get_corner_type vec_up r l threshold = Ok STRAIGHT.
Proof.
  intros Hr -> Ht. unfold get_corner_type.
  assert (Hnz : r <> ZERO_VEC).
  { intro E. rewrite <- dot_self_zero in E. lra. }
  assert (Hnz' : vneg r <> ZERO_VEC).
  { intro E. rewrite <- dot_self_zero, dot_vneg_vneg in E. lra. }
  rewrite (veqb_false (vneg r) ZERO_VEC Hnz'), (veqb_false r ZERO_VEC Hnz).
  rewrite andb_false_r. simpl.
  rewrite vangle_units; [|assumption | now rewrite dot_vneg_vneg].
  replace (dot r (vneg r)) with (-1) by (unfold dot, vneg in *; simpl; lra).
  rewrite acos_m1. simpl.
  rewrite Rltb_false by lra. unfold ANGLE_180. rewrite Rltb_true by lra.
  reflexivity.
Qed.

Lemma dot_cross_cross (a b : Vector) :
  dot (cross a b) (cross a b) = dot a a * dot b b - dot a b * dot a b.
Proof. unfold dot, cross. simpl. ring. Qed.

Lemma calc_tangent_straight (vec_up r l : Vector) (threshold : R) :
  dot r r = 1 -> dot vec_up vec_up = 1 -> dot r vec_up = 0 -> l = vneg r ->
  0 < threshold <= PI ->
  calc_tangent vec_up r l threshold = Ok (cross r vec_up).
Proof.
  intros Hr Hu Hperp -> Ht. unfold calc_tangent, calc_tangent_2d.
  assert (E1 : vsub r (project r vec_up) = r).
  { unfold project. rewrite Hperp, Hu. destruct r, vec_up. unfold vsub, vscale. simpl.
    f_equal; field. }
  assert (E2 : vsub (vneg r) (project (vneg r) vec_up) = vneg r).
  { unfold project.
    replace (dot (vneg r) vec_up) with 0 by (unfold dot, vneg in *; simpl; lra).
    rewrite Hu. destruct r, vec_up. unfold vsub, vscale, vneg. simpl.
    f_equal; field. }
  rewrite E1, E2. rewrite !(normalized_unit r Hr).
  rewrite (get_corner_type_opposite vec_up r (vneg r) threshold Hr eq_refl Ht). simpl.
  unfold length_v. rewrite dot_vneg_vneg. rewrite Rleb_true by lra.
  rewrite normalized_unit; [reflexivity|].
  rewrite dot_cross_cross, Hr, Hu, Hperp. lra.
Qed.

Lemma get_factor_opposite (d r l : Vector) (c s : R) :
  dot d d = 1 -> dot r r = 1 -> l = vneg r -> dot d r = c ->
  0 < s -> s * s = 1 - c * c ->
  get_factor d r l = Ok (1 / s).
Proof.
  intros Hd Hr -> Hc Hs Hs2. unfold get_factor, get_factor_with.
  assert (Hnz : d <> ZERO_VEC).
  { intro E. rewrite <- dot_self_zero in E. lra. }
  rewrite (veqb_false d ZERO_VEC Hnz).
  rewrite !vangle_units; try assumption; [|now rewrite dot_vneg_vneg].
  replace (dot d (vneg r)) with (- c) by (unfold dot, vneg in *; simpl; lra).
  rewrite Hc. simpl.
  assert (Hrange : -1 <= c <= 1) by nra.
  assert (Hsin : sin (acos c) = s).
  { rewrite sin_acos by assumption. unfold Rsqr. rewrite <- Hs2.
    apply sqrt_square. lra. }
  assert (Hsin' : sin (acos (- c)) = s).
  { rewrite sin_acos by lra. unfold Rsqr.
    replace (1 - - c * - c) with (s * s) by lra. apply sqrt_square. lra. }
  rewrite Hsin, Hsin'. unfold Rmax. destruct (Rle_dec s s); rewrite Reqb_false by lra; reflexivity.
Qed.

Lemma normalized_of_zero (v : Vector) : dot v v = 0 -> normalized v = ZERO_VEC.
Proof. intro H. unfold normalized. rewrite H, Rltb_false by lra. reflexivity. Qed.

Lemma normalized_scaled (v w : Vector) (k : R) :
  0 < k -> dot w w = 1 -> v = vscale k w -> normalized v = w.
Proof.
  intros Hk Hw ->. unfold normalized.
  rewrite dot_vscale_l, dot_vscale_r, Hw.
  replace (k * (k * 1)) with (k * k) by ring.
  rewrite Rltb_true by nra. rewrite sqrt_square by lra.
  destruct w. unfold vscale. simpl. f_equal; field; lra.
Qed.

#[local] Arguments normalized : simpl never.
#[local] Arguments calc_tangent : simpl never.
#[local] Arguments get_factor : simpl never.

Ltac pi_arith := pose proof PI2_1; r_arith.

Ltac norm_step :=
  match goal with
  | |- context [normalized ?v] =>
      first [ rewrite (normalized_of_zero v) by r_arith
            | rewrite (normalized_unit v) by r_arith ]
  end.

Ltac tangent_step :=
  match goal with
  | |- context [calc_tangent ?up ?r ?l ?thr] =>
      rewrite (calc_tangent_straight up r l thr)
        by first [ r_arith | v_eq | (split; pi_arith) ]
  end.

Ltac factor_step s :=
  match goal with
  | |- context [get_factor ?d ?r ?l] =>
      rewrite (get_factor_opposite d r l (dot d r) s)
        by first [ r_arith | v_eq | reflexivity ]
  end.

Ltac scaled_step w k :=
  match goal with
  | |- context [normalized ?v] =>
      rewrite (normalized_scaled v w k) by first [ r_arith | v_eq ]
  end.

Lemma Rltb_dot_normalized (a v : Vector) :
  Rltb (dot a (normalized v)) 0 = Rltb (dot a v) 0.
Proof.
  unfold normalized. destruct (Rltb_spec 0 (dot v v)) as [Hpos|Hn].
  - rewrite dot_vscale_r.
    assert (Hk : 0 < / sqrt (dot v v)) by (apply Rinv_0_lt_compat; now apply sqrt_lt_R0).
    destruct (Rltb_spec (dot a v) 0) as [H|H].
    + apply Rltb_true. nra.
    + apply Rltb_false. nra.
  - assert (Hz : v = ZERO_VEC).
    { apply dot_self_zero. pose proof (dot_self_nonneg v). lra. }
    subst v. reflexivity.
Qed.

Ltac upward_step := rewrite Rltb_dot_normalized.



Lemma get_cross_rail_parallel (vec_tan er el n1 n2 : Vector) (threshold : R) :
  dot n1 n1 = 1 -> n2 = n1 -> 0 < threshold ->
  get_cross_rail vec_tan er el n1 n2 threshold = Ok None.
Proof.
  intros Hn -> Ht. unfold get_cross_rail.
  rewrite vangle_units by assumption. rewrite Hn, acos_1. simpl.
  now rewrite Rltb_true.
Qed.

#[local] Arguments get_cross_rail : simpl never.

Ltac cross_step :=
  match goal with
  | |- context [get_cross_rail ?t ?er ?el ?n1 ?n2 ?thr] =>
      rewrite (get_cross_rail_parallel t er el n1 n2 thr)
        by first [ r_arith | v_eq | reflexivity ]
  end.

Ltac unfold_step :=
  progress unfold direction_at, get_adj_ix, get_normals, select_rail, get_edge_rail,
                  get_mirror_rail, py_index, py_range, py_range_rev,
                  get_directions, calc_normal_from_verts, reorder_loop,
                  get_adj_faces.

Ltac dd_eval :=
  simpl;
  repeat (first [ upward_step | r_test | norm_step | tangent_step | factor_step 1 | unfold_step ];
          simpl).


Ltac d_eval :=
  simpl;
  repeat (first [ upward_step | r_test | norm_step | tangent_step | cross_step
                | factor_step 1 | factor_step (4 / 5)
                | scaled_step (vec (3 / 5) (4 / 5) 0) (4 / 5)
                | scaled_step (vec (-3 / 5) (-4 / 5) 0) (4 / 5)
                | scaled_step (vec 0 0 (-1)) 2
                | unfold_step ];
          simpl).

Ltac v_norm := rewrite ?cos_0, ?sin_0; repeat f_equal; v_eq.

(** ** Rail precedence *)

(** When the edge-rail option applies to a vertex, the rail that
    [select_rail] answers does not depend on the mirror pairs: the
    assignment [rail = get_edge_rail(v, set_edges)] replaces whatever the
    mirror step found. *)
Lemma select_rail_ignores_mirror_rail (g : globals) (bm : BMesh) (opts : options)
    (pairs pairs' : option vert_dict) (set_edges : list nat) (v : nat)
    (VERT_END : bool) (vec_tan vec_up vec_edge_r vec_edge_l : Vector)
    (normal_r normal_l : option Vector) (rail rail' : option Vector)
    (up up' : Vector) :
  opt_edge_rail opts = true ->
  (negb (opt_er_only_end opts) || VERT_END)%bool = true ->
  select_rail g bm opts pairs set_edges v VERT_END vec_tan vec_up
              vec_edge_r vec_edge_l normal_r normal_l = Ok (rail, up) ->
  select_rail g bm opts pairs' set_edges v VERT_END vec_tan vec_up
              vec_edge_r vec_edge_l normal_r normal_l = Ok (rail', up') ->
  rail = rail'.
Proof.
  intros He Hend. unfold select_rail. rewrite He, Hend.
  repeat match goal with
         | |- context [match ?M with pair _ _ => _ end] => destruct M
         end.
  destruct (get_edge_rail bm v set_edges) as [er| |]; simpl; try discriminate.
  destruct er as [e|]; simpl; [intros H1 H2; congruence|].
  destruct normal_r as [nr|]; simpl; [|intros H1 H2; congruence].
  destruct normal_l as [nl|]; simpl; [|intros H1 H2; congruence].
  destruct (get_cross_rail vec_tan vec_edge_r vec_edge_l nr nl (opt_threshold opts))
    as [cr| |]; simpl; try discriminate.
  intros H1 H2. congruence.
Qed.

(** C1, at the failing input: vertex 0 is a loop end on the mirror plane
    x = 0; its mirror rail, (0, 1, 0), is not zero.  With [edge_rail] on,
    the rail chosen is the inner edge (3, 4, 0); the tangent of vertex 0
    comes out as (3/4, 1, 0), and the invocation moves the vertex to
    (3/20, 1/5, 0), off the mirror plane. *)
Theorem edge_rail_overrides_mirror_rail :
  get_mirror_rail initial_globals plane_x (vec 0 0 1) = (Some (vec 0 1 0), vec 0 0 1)
  /\ select_rail initial_globals mirror_rail_mesh edge_rail_options
       (Some [(0%nat, plane_x)]) [0%nat] 0 true
       (vec 0 1 0) (vec 0 0 1) (vec (-1) 0 0) (vec 1 0 0) None None
     = Ok (Some (vec 3 4 0), vec 0 0 1)
  /\ get_directions initial_globals mirror_rail_mesh [BMVert 1; BMEdge 0; BMVert 0]
       (normalized (vadd (vadd X_UP Y_UP) Z_UP_initial)) Ref_Z_UP
       (Some [(0%nat, plane_x)]) edge_rail_options
     = Ok ([1; 0]%nat,
           [(vec 0 1 0, vec 0 0 1); (vec (3 / 4) 1 0, vec 0 0 1)],
           initial_globals)
  /\ exists ctx',
       execute mirror_rail_context = Ok (FINISHED, ctx')
       /\ co_of (data (edit_object ctx')) 0 = Ok (vec (3 / 20) (1 / 5) 0).
Proof.
  split; [|split; [|split]].
  - unfold get_mirror_rail, plane_x. d_eval. v_norm.
  - unfold select_rail, plane_x. d_eval. v_norm.
  - unfold get_directions, calc_normal_from_verts, plane_x. d_eval. v_norm.
  - eexists. split.
    + unfold execute, get_offset_infos. simpl caches_valid. simpl andb. cbv iota.
      replace (collect_edges (from_mesh (data (edit_object mirror_rail_context))))
        with (Ok (Some [0]%nat) : result (option (list nat)))
        by (vm_compute; reflexivity).
      simpl bind. simpl mirror_modifier. cbv iota.
      rewrite collect_mirror_planes_x.
      unfold get_vert_mirror_pairs. r_eval.
      unfold get_directions, calc_normal_from_verts. d_eval.
      reflexivity.
    + unfold co_of, to_mesh, from_mesh, mirror_rail_mesh. simpl. v_norm.
Qed.

(** ** Selection after the operation *)

Lemma nth_error_update_nth {A : Type} (f : A -> A) (l : list A) (n k : nat) :
  nth_error (update_nth n f l) k
  = if Nat.eqb n k then option_map f (nth_error l k) else nth_error l k.
Proof.
  revert n k. induction l as [|a l IH]; intros n k; simpl.
  - destruct n as [|n], k as [|k]; simpl; try reflexivity;
      now destruct (Nat.eqb n k).
  - destruct n as [|n], k as [|k]; simpl; try reflexivity. apply IH.
Qed.

Lemma nth_error_map_indexed {A : Type} (F : nat -> A -> A) (l : list A) (k : nat) :
  nth_error (map (fun p => F (fst p) (snd p)) (combine (seq 0 (length l)) l)) k
  = option_map (F k) (nth_error l k).
Proof.
  replace (F k) with (F (0 + k)%nat) by reflexivity.
  generalize 0%nat as s. revert k.
  induction l as [|a l IH]; intros k s; simpl.
  - now destruct k.
  - destruct k as [|k]; simpl.
    + now rewrite Nat.add_0_r.
    + rewrite IH. now rewrite <- plus_n_Sm.
Qed.

Lemma bmesh_ops_delete_edge_flags (bm bm' : BMesh) (geom : list BMElem) :
  bmesh_ops_delete bm geom = Ok bm' ->
  forall e, edge_selected bm' e = edge_selected bm e.
Proof.
  unfold bmesh_ops_delete. intros H e.
  destruct (mapM _ geom); simpl in H; try discriminate.
  injection H as <-. unfold edge_selected. simpl.
  set (F := fun (e : nat) (d : edge_data) =>
              if mem e (edges_of_geom geom)
              then with_e_valid false
                     (with_e_link_faces
                        (filter (fun f => negb (mem f
                           (flat_map (fun e0 => match nth_error (edge_store bm) e0 with
                                                | Some d0 => e_link_faces d0
                                                | None => []
                                                end) (edges_of_geom geom))))
                                (e_link_faces d)) d)
              else with_e_link_faces
                     (filter (fun f => negb (mem f
                        (flat_map (fun e0 => match nth_error (edge_store bm) e0 with
                                             | Some d0 => e_link_faces d0
                                             | None => []
                                             end) (edges_of_geom geom))))
                             (e_link_faces d)) d).
  rewrite (map_ext _ (fun p => F (fst p) (snd p))) by (intros [i d]; reflexivity).
  rewrite nth_error_map_indexed.
  destruct (nth_error (edge_store bm) e) as [d|]; simpl; [|reflexivity].
  unfold F. now destruct (mem e (edges_of_geom geom)).
Qed.

Lemma elem_mem_In (x : BMElem) (s : list BMElem) : elem_mem x s = true <-> In x s.
Proof.
  unfold elem_mem. rewrite existsb_exists. split.
  - intros (y & Hy & E). replace x with y; [assumption|].
    destruct x, y; simpl in E; try discriminate; apply Nat.eqb_eq in E; now subst.
  - intro H. exists x. split; [assumption|]. destruct x; simpl; apply Nat.eqb_refl.
Qed.

(** ** The session cache *)

Lemma drift_invoke : invoke drift_context true (0, 0) = Ok (RUNNING_MODAL, drift_ctx1).
Proof. reflexivity. Qed.

Ltac struct_eq :=
  match goal with
  | |- @eq R _ _ => first [ reflexivity | lra | field; lra ]
  | |- _ => first [ reflexivity | (progress f_equal; struct_eq) ]
  end.

Ltac ctx_norm :=
  rewrite ?cos_0, ?sin_0;
  cbv beta iota delta [vsub vadd vscale vneg cross project dot
                       X_UP Y_UP ZERO_VEC Z_UP_initial vx vy vz
                       with_co vert_at v_co v_link_edges v_index v_select v_hide v_valid
                       select_vert_flag with_v_select with_e_select with_f_select
                       edge_of face_of e_verts e_link_faces e_index e_select e_hide
                       e_valid f_verts f_normal f_select f_hide f_valid];
  struct_eq.

Lemma drift_first_update :
  modal drift_ctx1 (MOUSEMOVE 10 0) = Ok (RUNNING_MODAL, drift_ctx2).
Proof.
  unfold modal, get_offset_infos, drift_ctx1. d_eval.
  unfold drift_ctx2, drift_cache, drift_mesh_moved, to_mesh, bm_copy, from_mesh, drift_mesh,
    set_caches_valid, set_caches, set_width, use_cashes, with_data, update_edge, update_face, update_vert.
  simpl.
  ctx_norm.
Qed.

Lemma drift_cached_update :
  exists c, modal drift_ctx2 (MOUSEMOVE 20 0) = Ok (RUNNING_MODAL, c)
            /\ co_of (data (edit_object c)) 0 = Ok (vec 0 (1 / 5) 0).
Proof.
  eexists. split.
  - unfold modal, get_offset_infos, drift_ctx2, drift_cache. d_eval. reflexivity.
  - unfold co_of, to_mesh, bm_copy, from_mesh, drift_mesh. simpl. ctx_norm.
Qed.

Lemma drift_full_update :
  exists c, modal (drop_caches drift_ctx2) (MOUSEMOVE 20 0) = Ok (RUNNING_MODAL, c)
            /\ co_of (data (edit_object c)) 0 = Ok (vec 0 (-1 / 5) 0).
Proof.
  eexists. split.
  - unfold modal, get_offset_infos, drop_caches, drift_ctx2. d_eval. reflexivity.
  - unfold co_of, to_mesh, bm_copy, from_mesh, drift_mesh. simpl. ctx_norm.
Qed.


(** C8, at the failing input.  "Follow Face" is on; the mesh has a wire
    edge 0-1 and an edge 2-3 on the border of a face whose normal points
    down.  Both loops are straight, so both take [normal_fallback], the
    object [Z_UP] itself, as their normal; [reorder_loop] then runs
    [normal *= -1] on it for the second loop.  The first update of the
    drag computes the directions (the wire edge with [Z_UP] still up) and
    leaves [Z_UP] pointing down.  The second update, through the cache,
    puts vertex 0 at (0, 1/5, 0); the same update with the full
    computation in place of the cache puts it at (0, -1/5, 0). *)
Theorem cached_update_differs_from_full_update :
  exists ctx1 ctx2 ctx3 ctx3',
    invoke drift_context true (0, 0) = Ok (RUNNING_MODAL, ctx1)
    /\ modal ctx1 (MOUSEMOVE 10 0) = Ok (RUNNING_MODAL, ctx2)
    /\ bm_orig (self_ ctx2) = bm_orig (self_ ctx1)
    /\ module_ ctx2 = mk_globals (vec 0 0 (-1))
    /\ modal ctx2 (MOUSEMOVE 20 0) = Ok (RUNNING_MODAL, ctx3)
    /\ modal (drop_caches ctx2) (MOUSEMOVE 20 0) = Ok (RUNNING_MODAL, ctx3')
    /\ co_of (data (edit_object ctx3)) 0 = Ok (vec 0 (1 / 5) 0)
    /\ co_of (data (edit_object ctx3')) 0 = Ok (vec 0 (-1 / 5) 0).
Proof.
  destruct drift_cached_update as (c3 & H3 & P3).
  destruct drift_full_update as (c3' & H3' & P3').
  exists drift_ctx1, drift_ctx2, c3, c3'.
  split; [exact drift_invoke|].
  split; [exact drift_first_update|].
  split; [reflexivity|].
  split; [reflexivity|].
  split; [exact H3|].
  split; [exact H3'|].
  split; [exact P3 | exact P3'].
Qed.

(** *** Looking elements up by their index *)

Section Renumber.
Context {A : Type} (valid : A -> bool) (set_index : Z -> A -> A) (index : A -> Z).
Hypothesis valid_set : forall i d, valid (set_index i d) = valid d.
Hypothesis index_set : forall i d, index (set_index i d) = i.

(** After [renumber], the valid element at address [a] carries the
    position it has among the valid addresses. *)
Lemma renumber_lookup (store : list A) :
  forall (k : Z) (s a : nat) (d : A),
    nth_error (renumber valid set_index k store) a = Some d ->
    valid d = true ->
    (k <= index d)%Z
    /\ nth_error
         (map fst (filter (fun p => valid (snd p))
                          (combine (seq s (length (renumber valid set_index k store)))
                                   (renumber valid set_index k store))))
         (Z.to_nat (index d - k))
       = Some (s + a)%nat.
Proof.
  induction store as [|x store IH]; intros k s a d Hn Hv; simpl in Hn |- *.
  - destruct a; discriminate.
  - destruct (valid x) eqn:Vx; simpl.
    + rewrite valid_set, Vx. simpl. destruct a as [|a]; simpl in Hn.
      * injection Hn as <-. rewrite index_set, Z.sub_diag. simpl.
        split; [lia | now rewrite Nat.add_0_r].
      * destruct (IH (k + 1)%Z (S s) a d Hn Hv) as [Hle Hl].
        split; [lia|].
        replace (Z.to_nat (index d - k)) with (S (Z.to_nat (index d - (k + 1)))) by lia.
        simpl. rewrite Hl. f_equal. lia.
    + rewrite Vx. destruct a as [|a]; simpl in Hn.
      * injection Hn as <-. congruence.
      * destruct (IH k (S s) a d Hn Hv) as [Hle Hl].
        split; [assumption|]. rewrite Hl. f_equal. lia.
Qed.

Lemma renumber_py_index (store : list A) (a : nat) (d : A) :
  nth_error (renumber valid set_index 0 store) a = Some d ->
  valid d = true ->
  py_index (valid_addresses valid (renumber valid set_index 0 store)) (index d)
  = Ok a.
Proof.
  intros Hn Hv.
  destruct (renumber_lookup store 0 0 a d Hn Hv) as [Hle Hl].
  rewrite Z.sub_0_r in Hl. simpl in Hl. fold (valid_addresses valid (renumber valid set_index 0 store)) in Hl.
  unfold py_index.
  assert (Hlt : (Z.to_nat (index d) < length (valid_addresses valid (renumber valid set_index 0 store)))%nat).
  { apply nth_error_Some. congruence. }
  replace (index d <? 0)%Z with false by (symmetry; apply Z.ltb_ge; lia).
  replace (index d <? 0)%Z with false by (symmetry; apply Z.ltb_ge; lia).
  replace (Z.of_nat (length (valid_addresses valid (renumber valid set_index 0 store))) <=? index d)%Z
    with false by (symmetry; apply Z.leb_gt; lia).
  simpl. now rewrite Hl.
Qed.
End Renumber.

Lemma from_mesh_vert_index (me : BMesh) (v : nat) (vd : vert_data) :
  get_vert (from_mesh me) v = Ok vd ->
  py_index (bm_verts (from_mesh me)) (v_index vd) = Ok v.
Proof.
  unfold get_vert, bm_verts, from_mesh. simpl. intro H.
  destruct (nth_error (renumber v_valid with_v_index 0 (vert_store me)) v) as [d|] eqn:N;
    [|discriminate].
  destruct (v_valid d) eqn:V; [|discriminate]. injection H as <-.
  apply (renumber_py_index v_valid with_v_index v_index); auto.
Qed.

Lemma from_mesh_edge_index (me : BMesh) (e : nat) (ed : edge_data) :
  get_edge (from_mesh me) e = Ok ed ->
  py_index (bm_edges (from_mesh me)) (e_index ed) = Ok e.
Proof.
  unfold get_edge, bm_edges, from_mesh. simpl. intro H.
  destruct (nth_error (renumber e_valid with_e_index 0 (edge_store me)) e) as [d|] eqn:N;
    [|discriminate].
  destruct (e_valid d) eqn:V; [|discriminate]. injection H as <-.
  apply (renumber_py_index e_valid with_e_index e_index); auto.
Qed.

Lemma edge_indices_round_trip (me : BMesh) (edges : list nat) :
  forall ixs,
    mapM (fun e => ed <- get_edge (from_mesh me) e ;; Ok (e_index ed)) edges = Ok ixs ->
    mapM (py_index (bm_edges (from_mesh me))) ixs = Ok edges.
Proof.
  induction edges as [|e edges IH]; intros ixs H; cbn [mapM] in H.
  - now injection H as <-.
  - destruct (get_edge (from_mesh me) e) as [ed| |] eqn:G; cbn [bind] in H;
      try discriminate.
    destruct (mapM (fun e => ed <- get_edge (from_mesh me) e ;; Ok (e_index ed)) edges)
      as [ixs'| |] eqn:M; cbn [bind] in H; try discriminate.
    injection H as <-. cbn [mapM].
    rewrite (from_mesh_edge_index _ _ _ G). cbn [bind].
    now rewrite (IH _ eq_refl).
Qed.

Lemma vert_indices_round_trip (me : BMesh) (verts : list nat) :
  forall ixs,
    mapM (fun v => vd <- get_vert (from_mesh me) v ;; Ok (v_index vd)) verts = Ok ixs ->
    mapM (py_index (bm_verts (from_mesh me))) ixs = Ok verts.
Proof.
  induction verts as [|v verts IH]; intros ixs H; cbn [mapM] in H.
  - now injection H as <-.
  - destruct (get_vert (from_mesh me) v) as [vd| |] eqn:G; cbn [bind] in H;
      try discriminate.
    destruct (mapM (fun v => vd <- get_vert (from_mesh me) v ;; Ok (v_index vd)) verts)
      as [ixs'| |] eqn:M; cbn [bind] in H; try discriminate.
    injection H as <-. cbn [mapM].
    rewrite (from_mesh_vert_index _ _ _ G). cbn [bind].
    now rewrite (IH _ eq_refl).
Qed.

Lemma offset_infos_round_trip (me : BMesh) (infos : offset_infos_t) :
  forall cache,
    mapM (fun '(verts, directions) =>
            v_ixs <- mapM (fun v => vd <- get_vert (from_mesh me) v ;;
                                    Ok (v_index vd)) verts ;;
            Ok (v_ixs, directions)) infos = Ok cache ->
    mapM (fun '(ix_vs, directions) =>
            verts <- mapM (py_index (bm_verts (from_mesh me))) ix_vs ;;
            Ok (verts, directions)) cache = Ok infos.
Proof.
  induction infos as [|[verts directions] infos IH]; intros cache H; cbn [mapM] in H.
  - now injection H as <-.
  - destruct (mapM (fun v => vd <- get_vert (from_mesh me) v ;; Ok (v_index vd)) verts)
      as [ixs| |] eqn:V; cbn [bind] in H; try discriminate.
    match type of H with
    | bind ?m _ = _ => destruct m as [cache'| |] eqn:M; cbn [bind] in H;
                       try discriminate
    end.
    injection H as <-. cbn [mapM].
    rewrite (vert_indices_round_trip _ _ _ V). cbn [bind].
    now rewrite (IH _ eq_refl).
Qed.

(** X20: What does hold of the cache: when the full computation on a snapshot
    [from_mesh me] answers [(offset_infos, set_edges_orig)] and stores its
    caches, applying the caches to a copy of the snapshot is the same
    computation as applying that answer directly. *)
Theorem cache_replay_on_same_answer (self self1 : OffsetEdges) (g g1 : globals)
    (me : BMesh) (ob : edit_object_t) (infos : offset_infos_t) (edges : list nat) :
  get_offset_infos self g (from_mesh me) ob = Ok (INFOS infos edges, self1, g1) ->
  do_offset_and_free self1 (bm_copy (from_mesh me)) None None
  = do_offset_and_free self1 (from_mesh me) (Some infos) (Some edges).
Proof.
  unfold get_offset_infos. intro H.
  destruct (caches_valid self && is_some (cache_offset_infos self))%bool;
    [discriminate|].
  destruct (collect_edges (from_mesh me)) as [[s|]| |]; cbn [bind] in H;
    try discriminate.
  match type of H with
  | bind ?m _ = _ => destruct m as [[[pairs s'] self']| |]; cbn [bind] in H;
                     try discriminate
  end.
  destruct (collect_loops (from_mesh me) s') as [[loops|]| |]; cbn [bind] in H;
    try discriminate.
  match type of H with
  | bind ?m _ = _ => destruct m as [[infos' g']| |]; cbn [bind] in H;
                     try discriminate
  end.
  match type of H with
  | bind ?m _ = _ => destruct m as [cache| |] eqn:C; cbn [bind] in H;
                     try discriminate
  end.
  match type of H with
  | bind ?m _ = _ => destruct m as [e_ixs| |] eqn:E; cbn [bind] in H;
                     try discriminate
  end.
  injection H as <- <- <- <-.
  unfold do_offset_and_free, bm_copy. cbn [cache_edges_orig_ixs cache_offset_infos set_caches bind].
  rewrite (edge_indices_round_trip _ _ _ E). cbn [bind].
  rewrite (offset_infos_round_trip _ _ _ C). cbn [bind].
  reflexivity.
Qed.

(* ------------------------------------------------------------------ *)
(** * Further properties of the code *)

(** ** Corner classification and tangents *)

Lemma get_corner_type_total (vec_up r l : Vector) (threshold : R) :
  exists c, get_corner_type vec_up r l threshold = Ok c.
Proof.
  unfold get_corner_type.
  destruct (veqb_spec r l) as [Erl|Nrl];
    destruct (veqb_spec l ZERO_VEC) as [El|Nl];
    destruct (veqb_spec r ZERO_VEC) as [Er|Nr]; simpl; eauto.
  - destruct (vangle_defined r l Nr Nl) as (t & ->). simpl.
    destruct (Rltb t threshold); eauto.
    destruct (Rltb (ANGLE_180 - threshold) t); eauto.
    destruct (Rltb threshold (dot (cross r l) vec_up)); eauto.
  - destruct (vangle_defined r l Nr Nl) as (t & ->). simpl.
    destruct (Rltb t threshold); eauto.
    destruct (Rltb (ANGLE_180 - threshold) t); eauto.
    destruct (Rltb threshold (dot (cross r l) vec_up)); eauto.
Qed.

(** X2: [get_corner_type] never raises: [Vector.angle] is reached only when
    both projected edges are non-zero.  Two zero vectors are a folding
    corner, exactly one zero vector a straight one. *)
Theorem get_corner_type_returns (vec_up r l : Vector) (threshold : R) :
  (exists c, get_corner_type vec_up r l threshold = Ok c)
  /\ (r = ZERO_VEC -> l = ZERO_VEC ->
      get_corner_type vec_up r l threshold = Ok FOLDING)
  /\ (r = ZERO_VEC -> l <> ZERO_VEC ->
      get_corner_type vec_up r l threshold = Ok STRAIGHT)
  /\ (r <> ZERO_VEC -> l = ZERO_VEC ->
      get_corner_type vec_up r l threshold = Ok STRAIGHT).
Proof.
  split; [apply get_corner_type_total|].
  unfold get_corner_type. repeat split.
  - intros -> ->. now rewrite veqb_true.
  - intros -> Hl. rewrite (veqb_false l ZERO_VEC Hl), andb_false_r.
    now rewrite (veqb_true ZERO_VEC ZERO_VEC eq_refl).
  - intros Hr ->. rewrite (veqb_false r ZERO_VEC Hr). simpl.
    now rewrite (veqb_true ZERO_VEC ZERO_VEC eq_refl).
Qed.

(** X3: For an up vector that is not zero, [calc_tangent] does not raise,
    and the tangent it returns is the zero vector or a unit vector. *)
Theorem calc_tangent_zero_or_unit (vec_up vec_right vec_left : Vector)
    (threshold : R) :
  vec_up <> ZERO_VEC ->
  exists t, calc_tangent vec_up vec_right vec_left threshold = Ok t
            /\ (t = ZERO_VEC \/ length_v t = 1).
Proof.
  intros _.
  unfold calc_tangent.
  destruct (calc_tangent_2d vec_up vec_right vec_left) as [r2d l2d].
  destruct (get_corner_type_total vec_up r2d l2d threshold) as (c & ->).
  simpl. eexists. split; [reflexivity|]. apply normalized_zero_or_unit.
Qed.

(** ** Rails *)

Lemma dot_normalized_zero (w n : Vector) : dot w n = 0 -> dot (normalized w) n = 0.
Proof.
  intro H. unfold normalized. destruct (Rltb 0 (dot w w)).
  - rewrite dot_vscale_l, H. ring.
  - unfold dot, ZERO_VEC. simpl. ring.
Qed.

Lemma dot_sub_project (u n : Vector) :
  n <> ZERO_VEC -> dot (vsub u (project u n)) n = 0.
Proof.
  intro Hn. assert (Hnn : dot n n <> 0) by now rewrite dot_self_zero.
  unfold project.
  replace (dot (vsub u (vscale (dot u n / dot n n) n)) n)
    with (dot u n - dot u n / dot n n * dot n n)
    by (unfold dot, vsub, vscale; simpl; ring).
  field. exact Hnn.
Qed.

(** X18: When [get_mirror_rail] finds a rail, the rail is not zero and is
    perpendicular to the plane normal and to the old up vector, and the
    new up vector is perpendicular to the plane normal: both lie in the
    mirror plane.  Otherwise the up vector is returned as it came. *)
Theorem get_mirror_rail_in_plane (g : globals) (mp : mirror_plane) (vec_up : Vector) :
  let p_norm := deref g (snd (fst mp)) in
  match get_mirror_rail g mp vec_up with
  | (Some rail, up') =>
      rail <> ZERO_VEC /\ dot rail p_norm = 0 /\ dot rail vec_up = 0
      /\ dot up' p_norm = 0
  | (None, up') => up' = vec_up /\ cross vec_up p_norm = ZERO_VEC
  end.
Proof.
  unfold get_mirror_rail. simpl.
  destruct (veqb_spec (cross vec_up (deref g (snd (fst mp)))) ZERO_VEC) as [E|N]; simpl.
  - auto.
  - repeat split.
    + exact N.
    + unfold dot, cross. simpl. ring.
    + unfold dot, cross. simpl. ring.
    + apply dot_normalized_zero, dot_sub_project.
      intro Hz. apply N. rewrite Hz. unfold cross, ZERO_VEC. simpl. f_equal; ring.
Qed.

(** X13: A cross rail, when [get_cross_rail] returns one, is perpendicular to
    both face normals, is zero or of length one, does not point against
    the tangent, and makes with the tangent a cosine at least the smaller
    of the tangent's cosines with the two edges. *)
Theorem get_cross_rail_properties (vec_tan vec_edge_r vec_edge_l normal_r normal_l : Vector)
    (threshold : R) (rail : Vector) :
  get_cross_rail vec_tan vec_edge_r vec_edge_l normal_r normal_l threshold
  = Ok (Some rail) ->
  dot rail normal_r = 0 /\ dot rail normal_l = 0
  /\ (rail = ZERO_VEC \/ length_v rail = 1)
  /\ 0 <= dot vec_tan rail
  /\ Rmin (dot vec_tan vec_edge_r) (dot vec_tan vec_edge_l) <= dot vec_tan rail.
Proof.
  unfold get_cross_rail.
  destruct (vangle normal_r normal_l) as [a| |]; simpl; try discriminate.
  destruct (Rltb a threshold); [discriminate|].
  set (c := normalized (cross normal_r normal_l)).
  assert (Hc1 : dot c normal_r = 0).
  { apply dot_normalized_zero. unfold dot, cross. simpl. ring. }
  assert (Hc2 : dot c normal_l = 0).
  { apply dot_normalized_zero. unfold dot, cross. simpl. ring. }
  assert (Hcu : c = ZERO_VEC \/ length_v c = 1) by apply normalized_zero_or_unit.
  destruct (Rltb_spec (dot c vec_tan) 0) as [Hneg|Hpos].
  - destruct (Rleb_spec (Rmin (dot vec_tan vec_edge_r) (dot vec_tan vec_edge_l))
                        (dot vec_tan (vscale (-1) c))) as [Hle|Hgt]; [|discriminate].
    intro H. injection H as <-.
    rewrite !dot_vscale_l, Hc1, Hc2. repeat split; try lra; try assumption.
    + destruct Hcu as [->|Hu]; [left | right].
      * unfold vscale, ZERO_VEC. simpl. f_equal; ring.
      * unfold length_v in *. rewrite dot_vscale_l, dot_vscale_r.
        replace (-1 * (-1 * dot c c)) with (dot c c) by ring. exact Hu.
    + rewrite dot_vscale_r.
      replace (dot vec_tan c) with (dot c vec_tan) by (unfold dot; ring). lra.
  - destruct (Rleb_spec (Rmin (dot vec_tan vec_edge_r) (dot vec_tan vec_edge_l))
                        (dot vec_tan c)) as [Hle|Hgt]; [|discriminate].
    intro H. injection H as <-. repeat split; try assumption.
    replace (dot vec_tan c) with (dot c vec_tan) by (unfold dot; ring). lra.
Qed.

Lemma edge_rail_scan_nonzero (bm : BMesh) (vert : nat) (set_edges : list nat)
    (link_edges : list nat) :
  forall co_edge vec_inner rail,
    (forall v, vec_inner = Some v -> v <> ZERO_VEC) ->
    edge_rail_scan bm vert set_edges link_edges co_edge vec_inner = Ok (Some rail) ->
    rail <> ZERO_VEC.
Proof.
  induction link_edges as [|e rest IH]; intros co_edge vec_inner rail Hv H; simpl in H.
  - injection H as ->. now apply Hv.
  - destruct (get_edge bm e) as [ed| |]; simpl in H; try discriminate.
    destruct (negb (e_hide ed) && negb (mem e set_edges))%bool;
      [|now apply (IH _ _ _ Hv H)].
    destruct (other_vert bm e vert) as [[v_other|]| |]; simpl in H; try discriminate.
    destruct (co_of bm v_other) as [c1| |]; simpl in H; try discriminate.
    destruct (co_of bm vert) as [c0| |]; simpl in H; try discriminate.
    destruct (veqb_spec (vsub c1 c0) ZERO_VEC) as [E|N]; simpl in H.
    + now apply (IH _ _ _ Hv H).
    + destruct co_edge as [|[|c]]; simpl in H; try discriminate;
        (apply (IH _ _ rail) in H; [assumption|]);
        intros v Hs; injection Hs as <-; exact N.
Qed.

(** X12: An edge rail, when [get_edge_rail] returns one, is never the zero
    vector (so projecting onto it is defined). *)
Theorem get_edge_rail_nonzero (bm : BMesh) (vert : nat) (set_edges : list nat)
    (rail : Vector) :
  get_edge_rail bm vert set_edges = Ok (Some rail) -> rail <> ZERO_VEC.
Proof.
  unfold get_edge_rail.
  destruct (get_vert bm vert) as [vd| |]; simpl; try discriminate.
  apply edge_rail_scan_nonzero. discriminate.
Qed.

(** ** Adjacent edges and faces *)

Lemma first_nonzero_edge_spec (vec_edges : list Vector) (rng : list Z) (i : Z) :
  first_nonzero_edge vec_edges rng = Ok (Some i) ->
  exists v, py_index vec_edges i = Ok v /\ v <> ZERO_VEC.
Proof.
  induction rng as [|j rng IH]; simpl; [discriminate|].
  destruct (Z.of_nat (length vec_edges) =? 0)%Z; [discriminate|].
  destruct (py_index vec_edges (j mod Z.of_nat (length vec_edges))) as [ve| |] eqn:P;
    simpl; try discriminate.
  destruct (veqb_spec ve ZERO_VEC) as [E|N]; simpl.
  - exact IH.
  - intro H. injection H as <-. eauto.
Qed.

(** X9: The indices [get_adj_ix] returns are indices of edge vectors that
    are not zero; for a half loop either both indices are found or
    neither. *)
Theorem get_adj_ix_nonzero (ix_start : Z) (vec_edges : list Vector)
    (half_loop : bool) (ix_right ix_left : option Z) :
  get_adj_ix ix_start vec_edges half_loop = Ok (ix_right, ix_left) ->
  (forall i, ix_right = Some i ->
             exists v, py_index vec_edges i = Ok v /\ v <> ZERO_VEC)
  /\ (forall i, ix_left = Some i ->
                exists v, py_index vec_edges i = Ok v /\ v <> ZERO_VEC)
  /\ (half_loop = true -> (ix_right = None <-> ix_left = None)).
Proof.
  unfold get_adj_ix.
  set (rr := if half_loop then _ else _).
  set (rl := if half_loop then _ else _).
  destruct (first_nonzero_edge vec_edges rr) as [r| |] eqn:Er; simpl; try discriminate.
  destruct (first_nonzero_edge vec_edges rl) as [l| |] eqn:El; simpl; try discriminate.
  assert (Hr : forall i, r = Some i ->
                         exists v, py_index vec_edges i = Ok v /\ v <> ZERO_VEC).
  { intros i ->. exact (first_nonzero_edge_spec _ _ _ Er). }
  assert (Hl : forall i, l = Some i ->
                         exists v, py_index vec_edges i = Ok v /\ v <> ZERO_VEC).
  { intros i ->. exact (first_nonzero_edge_spec _ _ _ El). }
  destruct half_loop; intro H; injection H as <- <-.
  - destruct r as [r|], l as [l|]; repeat split; auto; try discriminate;
      intros; try discriminate; auto.
  - repeat split; auto; discriminate.
Qed.


Lemma foldM_prefix_inv {A B : Type} (body : A -> B -> result A)
    (P : list B -> A -> Prop) :
  (forall pre a x a', P pre a -> body a x = Ok a' -> P (pre ++ [x]) a') ->
  forall xs pre a r, P pre a -> foldM body a xs = Ok r -> P (pre ++ xs) r.
Proof.
  intros Hstep. induction xs as [|x xs IH]; intros pre a r HP H; simpl in H.
  - injection H as <-. now rewrite app_nil_r.
  - destruct (body a x) as [a'| |] eqn:E; simpl in H; try discriminate.
    replace (pre ++ x :: xs) with ((pre ++ [x]) ++ xs)
      by (now rewrite <- app_assoc).
    eapply IH; eauto.
Qed.

Lemma search_adj_face_spec (bm : BMesh) (link_faces : list nat) :
  forall face adj_exist face' adj_exist',
    search_adj_face bm link_faces face adj_exist = Ok (face', adj_exist') ->
    (face' = face /\ adj_exist' = adj_exist
     /\ forall f fd, In f link_faces -> get_face bm f = Ok fd ->
                     f_hide fd = true \/ f_normal fd = ZERO_VEC)
    \/ (exists f fd, face' = Some f /\ adj_exist' = true /\ In f link_faces
                     /\ get_face bm f = Ok fd /\ f_hide fd = false
                     /\ f_normal fd <> ZERO_VEC).
Proof.
  induction link_faces as [|f rest IH]; intros face ex face' ex' H; simpl in H.
  - injection H as <- <-. left. repeat split. intros ? ? [].
  - destruct (get_face bm f) as [fd| |] eqn:G; simpl in H; try discriminate.
    destruct (f_hide fd) eqn:Hh; simpl in H.
    + apply IH in H. destruct H as [(-> & -> & Hn)|(f' & fd' & ? & ? & ? & ?)].
      * left. repeat split. intros f0 fd0 [<-|Hin] G0; [|eauto].
        left. congruence.
      * right. exists f', fd'. simpl. tauto.
    + destruct (veqb_spec (f_normal fd) ZERO_VEC) as [E|N]; simpl in H.
      * apply IH in H. destruct H as [(-> & -> & Hn)|(f' & fd' & ? & ? & ? & ?)].
        -- left. repeat split. intros f0 fd0 [<-|Hin] G0; [|eauto].
           right. congruence.
        -- right. exists f', fd'. simpl. tauto.
      * right. destruct (f_select fd).
        -- injection H as <- <-. exists f, fd. simpl. tauto.
        -- apply IH in H.
           destruct H as [(-> & -> & Hn)|(f' & fd' & ? & ? & ? & ?)].
           ++ exists f, fd. simpl. tauto.
           ++ exists f', fd'. simpl. tauto.
Qed.

(** X11: [get_adj_faces] returns one entry per edge; every face it names is
    a visible face of non-zero normal linked to the edge at the same
    position, and at least one entry names a face.  It returns [None]
    exactly when no edge has such a face. *)
Theorem get_adj_faces_spec (bm : BMesh) (edges : list nat) :
  match get_adj_faces bm edges with
  | Ok (Some faces) =>
      length faces = length edges
      /\ (exists f, In (Some f) faces)
      /\ forall i e f,
           nth_error edges i = Some e -> nth_error faces i = Some (Some f) ->
           exists ed fd, get_edge bm e = Ok ed /\ In f (e_link_faces ed)
                         /\ get_face bm f = Ok fd /\ f_hide fd = false
                         /\ f_normal fd <> ZERO_VEC
  | Ok None =>
      forall e ed f fd,
        In e edges -> get_edge bm e = Ok ed -> In f (e_link_faces ed) ->
        get_face bm f = Ok fd -> f_hide fd = true \/ f_normal fd = ZERO_VEC
  | _ => True
  end.
Proof.
  unfold get_adj_faces.
  match goal with |- context [foldM ?b _ edges] => set (body := b) end.
  destruct (foldM body ([], false) edges) as [[faces ex]| |] eqn:F; simpl; auto.
  pose (P := fun (pre : list nat) (acc : list (option nat) * bool) =>
    length (fst acc) = length pre
    /\ (snd acc = true -> exists f, In (Some f) (fst acc))
    /\ (snd acc = false ->
        forall e ed f fd,
          In e pre -> get_edge bm e = Ok ed -> In f (e_link_faces ed) ->
          get_face bm f = Ok fd -> f_hide fd = true \/ f_normal fd = ZERO_VEC)
    /\ (forall i e f,
          nth_error pre i = Some e -> nth_error (fst acc) i = Some (Some f) ->
          exists ed fd, get_edge bm e = Ok ed /\ In f (e_link_faces ed)
                        /\ get_face bm f = Ok fd /\ f_hide fd = false
                        /\ f_normal fd <> ZERO_VEC)).
  assert (HP : P ([] ++ edges) (faces, ex)).
  { apply (foldM_prefix_inv body P) with (a := ([], false)); [|
      |exact F].
    - clear F faces ex. intros pre [acc ex] e [acc' ex'] (HL & HT & HF & HI) Hb.
      unfold body in Hb.
      destruct (get_edge bm e) as [ed| |] eqn:G; simpl in Hb; try discriminate.
      destruct (search_adj_face bm (e_link_faces ed) None ex)
        as [[face ex1]| |] eqn:Hsr; simpl in Hb; try discriminate.
      injection Hb as <- <-. simpl in *.
      apply search_adj_face_spec in Hsr.
      assert (HI' : forall i e0 f,
                 nth_error (pre ++ [e]) i = Some e0 ->
                 nth_error (acc ++ [face]) i = Some (Some f) ->
                 ((i < length pre)%nat /\ nth_error pre i = Some e0
                  /\ nth_error acc i = Some (Some f))
                 \/ (e0 = e /\ face = Some f)).
      { intros i e0 f H1 H2.
        destruct (Nat.lt_ge_cases i (length pre)) as [Hlt|Hge].
        - left. rewrite nth_error_app1 in H1 by assumption.
          rewrite nth_error_app1 in H2 by (now rewrite HL). auto.
        - right. rewrite nth_error_app2 in H1 by assumption.
          rewrite nth_error_app2 in H2 by (now rewrite HL).
          rewrite HL in H2.
          destruct (i - length pre)%nat as [|k]; simpl in H1, H2.
          + split; congruence.
          + destruct k; discriminate. }
      unfold P; simpl. repeat split.
      + rewrite !length_app. simpl. now rewrite HL.
      + intros Hex.
        destruct Hsr as [(Hfa & He & Hn)|(f & fd & Hfa & _ & _)]; subst face.
        * subst ex1. destruct (HT Hex) as [f Hf]. exists f.
          apply in_or_app. now left.
        * exists f. apply in_or_app. right. now left.
      + intros Hex.
        destruct Hsr as [(Hfa & He & Hn)|(f & fd & _ & D & _)]; [|congruence].
        subst ex1. intros e0 ed0 f fd Hin G0 Hl Gf.
        apply in_app_or in Hin. destruct Hin as [Hin|[<-|[]]].
        * eapply (HF Hex); eauto.
        * assert (ed0 = ed) by congruence. subst ed0. eauto.
      + intros i e0 f H1 H2.
        destruct (HI' i e0 f H1 H2) as [(_ & A & B)|(-> & ->)].
        * eauto.
        * destruct Hsr as [(D & _)|(f' & fd & D & _ & Hin & Gf & Hh & Hn)];
            [discriminate|].
          injection D as <-. exists ed, fd. auto.
    - unfold P; simpl. repeat split; try discriminate.
      + intros _ ? ? ? ? [].
      + intros [|i] ? ? ?; discriminate. }
  simpl in HP. destruct HP as (HL & HT & HF & HI). simpl in *.
  destruct ex; simpl; [auto|exact (HF eq_refl)].
Qed.

(** ** Loop normal *)

Lemma py_index_not_fuel {A : Type} (l : list A) (i : Z) :
  py_index l i <> OutOfFuel.
Proof.
  unfold py_index. cbv zeta.
  destruct (_ || _)%bool; [discriminate|].
  destruct (nth_error _ _); discriminate.
Qed.

Lemma co_of_not_fuel (bm : BMesh) (v : nat) : co_of bm v <> OutOfFuel.
Proof.
  unfold co_of. pose proof (get_vert_not_fuel bm v) as H.
  destruct (get_vert bm v); simpl; congruence.
Qed.

(** X1: [calc_normal_from_verts] raises [IndexError] on an empty vertex
    list; otherwise what it returns is the fallback object itself or a
    fresh unit vector. *)
Theorem calc_normal_from_verts_returns (bm : BMesh) (verts : list nat)
    (fallback : vec_ref) :
  match calc_normal_from_verts bm verts fallback with
  | Ok r => verts <> [] /\ (r = fallback \/ exists n, r = Own n /\ length_v n = 1)
  | Raise e => verts = [] -> e = IndexError
  | OutOfFuel => False
  end.
Proof.
  unfold calc_normal_from_verts.
  destruct verts as [|v0 rest]; [simpl; auto|].
  pose proof (py_index_not_fuel (v0 :: rest) 0) as N1.
  destruct (py_index (v0 :: rest) 0) as [v_first| |]; cbn [bind];
    [|discriminate|congruence].
  pose proof (py_index_not_fuel (v0 :: rest) (-1)) as N2.
  destruct (py_index (v0 :: rest) (-1)) as [v_last| |]; cbn [bind];
    [|discriminate|congruence].
  match goal with |- context [foldM ?b ?a ?l] =>
    assert (HF : foldM b a l <> OutOfFuel);
    [| destruct (foldM b a l) as [n| |]; cbn [bind]; [|discriminate|congruence]]
  end.
  { generalize ZERO_VEC.
    match goal with |- forall v, foldM ?b v ?l <> _ => generalize l end.
    intros pairs. induction pairs as [|[a b'] pairs IH];
      intros v; cbn [foldM]; [discriminate|].
    pose proof (co_of_not_fuel bm a) as Na.
    destruct (co_of bm a); cbn [bind]; [|discriminate|congruence].
    pose proof (co_of_not_fuel bm b') as Nb.
    destruct (co_of bm b'); cbn [bind]; [|discriminate|congruence].
    apply IH. }
  split; [discriminate|].
  destruct (veqb_spec (normalized n) ZERO_VEC) as [E|N]; [now left|].
  right. exists (normalized n). split; [reflexivity|].
  destruct (normalized_zero_or_unit n); [contradiction|assumption].
Qed.

(** ** Shape of the loops *)

Lemma list_ind2 {A : Type} (P : list A -> Prop) :
  P [] -> (forall x, P [x]) -> (forall x y l, P l -> P (x :: y :: l)) ->
  forall l, P l.
Proof.
  intros H0 H1 H2.
  assert (H : forall l, P l /\ forall x, P (x :: l)).
  { induction l as [|a l [IH1 IH2]]; split; auto. }
  intro l. apply H.
Qed.

Lemma edge_joins_sym (bm : BMesh) (e v w : nat) :
  edge_joins bm e v w = edge_joins bm e w v.
Proof.
  unfold edge_joins. destruct (get_edge bm e) as [ed| |]; auto.
  destruct (e_verts ed) as [a b]. apply orb_comm.
Qed.

Lemma other_vert_joins (bm : BMesh) (e v w : nat) :
  other_vert bm e v = Ok (Some w) -> edge_joins bm e v w = true.
Proof.
  unfold other_vert, edge_joins.
  destruct (get_edge bm e) as [ed| |]; simpl; try discriminate.
  destruct (e_verts ed) as [a b].
  destruct (Nat.eqb_spec a v) as [->|Na].
  - intro H. injection H as <-. now rewrite Nat.eqb_refl.
  - destruct (Nat.eqb_spec b v) as [->|Nb]; [|discriminate].
    intro H. injection H as <-. now rewrite !Nat.eqb_refl.
Qed.

Lemma chain_snoc (bm : BMesh) (rest : list BMElem) :
  forall a b e c,
    chain bm a rest b = true -> edge_joins bm e b c = true ->
    chain bm a (rest ++ [BMEdge e; BMVert c]) c = true.
Proof.
  induction rest as [| | x y rest IH] using list_ind2; intros a b e c Hc Hj.
  - simpl in Hc. apply Nat.eqb_eq in Hc. subst b. simpl.
    now rewrite Hj, Nat.eqb_refl.
  - simpl in Hc. destruct x; discriminate.
  - simpl in Hc |- *. destruct x as [|e'|]; try discriminate.
    destruct y as [u| |]; try discriminate.
    apply andb_true_iff in Hc. destruct Hc as [Hj' Hc].
    rewrite Hj'. simpl. eapply IH; eauto.
Qed.

Lemma chain_rev (bm : BMesh) (rest : list BMElem) :
  forall a b,
    chain bm a rest b = true ->
    exists rest', rev (BMVert a :: rest) = BMVert b :: rest'
                  /\ chain bm b rest' a = true
                  /\ (rest <> [] -> rest' <> []).
Proof.
  induction rest as [| | x y rest IH] using list_ind2; intros a b Hc.
  - simpl in Hc. apply Nat.eqb_eq in Hc. subst b. exists []. simpl.
    rewrite Nat.eqb_refl. auto.
  - simpl in Hc. destruct x; discriminate.
  - simpl in Hc. destruct x as [|e|]; try discriminate.
    destruct y as [u| |]; try discriminate.
    apply andb_true_iff in Hc. destruct Hc as [Hj Hc].
    destruct (IH _ _ Hc) as (r' & Hr & Hc' & _).
    exists (r' ++ [BMEdge e; BMVert a]). repeat split.
    + change (BMVert a :: BMEdge e :: BMVert u :: rest)
        with ([BMVert a; BMEdge e] ++ (BMVert u :: rest)).
      rewrite rev_app_distr, Hr. simpl. reflexivity.
    + eapply chain_snoc; eauto. now rewrite edge_joins_sym.
    + intros _. destruct r'; discriminate.
Qed.

Lemma chain_last_edge (bm : BMesh) (rest : list BMElem) :
  forall a b,
    chain bm a rest b = true -> rest <> [] ->
    exists e0, In e0 (loop_edges rest) /\ edge_has_vert bm b e0 = true.
Proof.
  induction rest as [| | x y rest IH] using list_ind2; intros a b Hc Hne.
  - contradiction.
  - simpl in Hc. destruct x; discriminate.
  - simpl in Hc. destruct x as [|e|]; try discriminate.
    destruct y as [u| |]; try discriminate.
    apply andb_true_iff in Hc. destruct Hc as [Hj Hc].
    destruct rest as [|z rest].
    + simpl in Hc. apply Nat.eqb_eq in Hc. subst u. exists e. split; [now left|].
      revert Hj. unfold edge_joins, edge_has_vert, get_edge.
      destruct (nth_error (edge_store bm) e) as [ed|]; [|discriminate].
      destruct (e_valid ed); [|discriminate].
      destruct (e_verts ed) as [p q]. simpl.
      destruct (Nat.eqb p b), (Nat.eqb q b); simpl; auto.
      rewrite !andb_false_r. discriminate.
    + destruct (IH _ _ Hc) as (e0 & Hin & Hv); [discriminate|].
      exists e0. split; [|assumption]. simpl. right. exact Hin.
Qed.

Lemma grow_loop_chain (bm : BMesh) (fuel : nat) :
  forall s lp v_left v_right reverse lp' s',
    (exists rest, lp = BMVert v_left :: rest /\ rest <> []
                  /\ chain bm v_left rest v_right = true) ->
    grow_loop fuel bm s lp v_left v_right reverse = Ok (Some (lp', s')) ->
    exists a rest b, lp' = BMVert a :: rest /\ rest <> []
                     /\ chain bm a rest b = true.
Proof.
  induction fuel as [|fuel IH]; intros s lp vl vr reverse lp' s' Hinv H;
    simpl in H; [discriminate|].
  destruct (get_vert bm vr) as [vd| |]; cbn [bind] in H; try discriminate.
  destruct (scan_link_edges (v_link_edges vd) s None) as [[[[edge|] s2]|]| |];
    cbn [bind] in H; try discriminate.
  - destruct (other_vert bm edge vr) as [[vr'|]| |] eqn:Ho; cbn [bind] in H;
      try discriminate.
    apply IH in H; [assumption|].
    destruct Hinv as (rest & -> & Hne & Hc).
    exists (rest ++ [BMEdge edge; BMVert vr']). repeat split.
    + destruct rest; discriminate.
    + eapply chain_snoc; eauto. now apply other_vert_joins.
  - destruct Hinv as (rest & -> & Hne & Hc).
    destruct (Nat.eqb vr vl).
    + injection H as <- <-. exists vl, rest, vr. auto.
    + destruct reverse; cbn [negb] in H.
      * injection H as <- <-. exists vl, rest, vr. auto.
      * apply IH in H; [assumption|].
        destruct (chain_rev _ _ _ _ Hc) as (r' & Hr & Hc' & Hne').
        exists r'. rewrite Hr. auto.
Qed.

Lemma collect_loops_from_chain (bm : BMesh) (fuel : nat) :
  forall s loops loops',
    (forall lp, In lp loops ->
                exists a rest b, lp = BMVert a :: rest /\ rest <> []
                                 /\ chain bm a rest b = true) ->
    collect_loops_from fuel bm s loops = Ok (Some loops') ->
    forall lp, In lp loops' ->
               exists a rest b, lp = BMVert a :: rest /\ rest <> []
                                /\ chain bm a rest b = true.
Proof.
  induction fuel as [|fuel IH]; intros s loops loops' Hinv H;
    destruct s as [|edge_start s]; simpl in H; try discriminate.
  - injection H as <-. exact Hinv.
  - injection H as <-. exact Hinv.
  - destruct (get_edge bm edge_start) as [ed| |] eqn:G; cbn [bind] in H;
      try discriminate.
    destruct (e_verts ed) as [vl vr] eqn:Ev.
    destruct (grow_loop _ bm s _ vl vr false) as [[[lp s2]|]| |] eqn:Hg;
      cbn [bind] in H; try discriminate.
    refine (IH _ _ _ _ H).
    intros lp0 Hin. apply in_app_or in Hin. destruct Hin as [Hin|[<-|[]]]; [auto|].
    apply grow_loop_chain in Hg; [assumption|].
    exists [BMEdge edge_start; BMVert vr]. repeat split; [discriminate|].
    simpl. unfold edge_joins. rewrite G, Ev, !Nat.eqb_refl. reflexivity.
Qed.

(** X6: Every loop [collect_loops] returns is a list
    [v, e, v, e, ..., e, v] with at least one edge, in which every edge
    joins the two vertices written next to it. *)
Theorem collect_loops_chains (bm : BMesh) (s : list nat)
    (loops : list (list BMElem)) (lp : list BMElem) :
  collect_loops bm s = Ok (Some loops) -> In lp loops ->
  exists a rest b, lp = BMVert a :: rest /\ rest <> []
                   /\ chain bm a rest b = true.
Proof.
  unfold collect_loops. intros H. revert lp.
  eapply collect_loops_from_chain; [|exact H]. intros ? [].
Qed.

Lemma scan_link_edges_second (es s : list nat) (e0 : nat) :
  scan_link_edges es s (Some e0) = Ok None -> exists e2, In e2 es /\ In e2 s.
Proof.
  induction es as [|e es IH]; simpl; [discriminate|].
  destruct (mem e s) eqn:M.
  - intros _. exists e. split; [now left|now apply mem_In].
  - intro H. destruct (IH H) as (e2 & ? & ?). exists e2. auto.
Qed.

Lemma scan_link_edges_two (es : list nat) :
  forall s, scan_link_edges es s None = Ok None ->
            exists e1 e2, e1 <> e2 /\ In e1 es /\ In e2 es /\ In e1 s /\ In e2 s.
Proof.
  induction es as [|e es IH]; intros s; simpl; [discriminate|].
  destruct (mem e s) eqn:M.
  - unfold set_remove. rewrite M. cbn [bind]. intro H.
    apply scan_link_edges_second in H. destruct H as (e2 & Hes & Hd).
    apply discard_In in Hd. destruct Hd as [Hs Hne].
    exists e, e2. repeat split; auto. now apply mem_In.
  - intro H. destruct (IH _ H) as (e1 & e2 & ? & ? & ? & ? & ?).
    exists e1, e2. auto.
Qed.

Lemma grow_loop_None_branching (bm : BMesh) (set_edges : list nat) (fuel : nat) :
  forall s lp v_left v_right reverse,
    incl s set_edges ->
    (forall e, In e (loop_edges lp) -> In e set_edges /\ ~ In e s) ->
    (exists rest, lp = BMVert v_left :: rest /\ rest <> []
                  /\ chain bm v_left rest v_right = true) ->
    grow_loop fuel bm s lp v_left v_right reverse = Ok None ->
    branching bm set_edges.
Proof.
  induction fuel as [|fuel IH]; intros s lp vl vr reverse Hincl Hlp Hinv H;
    simpl in H; [discriminate|].
  destruct (get_vert bm vr) as [vd| |] eqn:Gv; cbn [bind] in H; try discriminate.
  destruct Hinv as (rest & -> & Hne & Hc).
  destruct (scan_link_edges_spec (v_link_edges vd) s) as [Hs|[Hs|(e & Hin & Hs)]];
    rewrite Hs in H; cbn [bind] in H.
  - clear H. apply scan_link_edges_two in Hs.
    destruct Hs as (e1 & e2 & Hne12 & Hl1 & Hl2 & Hs1 & Hs2).
    destruct (chain_last_edge _ _ _ _ Hc Hne) as (e0 & Hin0 & Hv0).
    destruct (Hlp e0) as [Hin0s Hn0]; [exact Hin0|].
    exists vr, vd, e0, e1, e2. repeat split; auto; congruence.
  - destruct (Nat.eqb vr vl); [discriminate|].
    destruct reverse; cbn [negb] in H; [discriminate|].
    destruct (chain_rev _ _ _ _ Hc) as (r' & Hr & Hc' & Hne').
    refine (IH _ _ _ _ _ Hincl _ _ H).
    + intros e He. apply Hlp.
      eapply Permutation_in; [apply loop_edges_rev|exact He].
    + exists r'. auto.
  - destruct (other_vert bm e vr) as [[vr'|]| |] eqn:Ho; cbn [bind] in H;
      try discriminate.
    refine (IH _ _ _ _ _ _ _ _ H).
    + intros x Hx. apply discard_In in Hx. apply Hincl. tauto.
    + intros x Hx. rewrite loop_edges_app in Hx. apply in_app_or in Hx.
      rewrite discard_In. destruct Hx as [Hx|[<-|[]]].
      * destruct (Hlp _ Hx). tauto.
      * split; [auto|]. tauto.
    + exists (rest ++ [BMEdge e; BMVert vr']). repeat split.
      * destruct rest; discriminate.
      * eapply chain_snoc; eauto. now apply other_vert_joins.
Qed.

Lemma collect_loops_from_None_branching (bm : BMesh) (set_edges : list nat)
    (fuel : nat) :
  forall s loops,
    NoDup s -> incl s set_edges ->
    collect_loops_from fuel bm s loops = Ok None ->
    branching bm set_edges.
Proof.
  induction fuel as [|fuel IH]; intros s loops Hnd Hincl H;
    destruct s as [|edge_start s]; simpl in H; try discriminate.
  destruct (get_edge bm edge_start) as [ed| |] eqn:G; cbn [bind] in H;
    try discriminate.
  destruct (e_verts ed) as [vl vr] eqn:Ev.
  inversion Hnd as [|? ? Hnotin Hnd']; subst.
  destruct (grow_loop _ bm s _ vl vr false) as [[[lp s2]|]| |] eqn:Hg;
    cbn [bind] in H; try discriminate.
  - pose proof (grow_loop_conserves _ _ _ _ _ _ _ _ _ Hnd' Hg) as (Hnd2 & Hp & _).
    refine (IH _ _ Hnd2 _ H).
    intros x Hx. apply Hincl.
    assert (Hx' : In x (loop_edges lp ++ s2)) by (apply in_or_app; now right).
    apply (Permutation_in _ (Permutation_sym Hp)) in Hx'. exact Hx'.
  - refine (grow_loop_None_branching bm set_edges _ _ _ _ _ _ _ _ _ Hg).
    + intros x Hx. apply Hincl. now right.
    + intros x [<-|[]]. split; [apply Hincl; now left|exact Hnotin].
    + exists [BMEdge edge_start; BMVert vr]. repeat split; [discriminate|].
      simpl. unfold edge_joins. rewrite G, Ev, !Nat.eqb_refl. reflexivity.
Qed.

(** X7: [collect_loops] answers [None] (overlap) only when three different
    edges of the set meet at one vertex: one that has the vertex as an
    end and two more among the link edges of the vertex. *)
Theorem collect_loops_None_only_if_branching (bm : BMesh) (s : list nat) :
  NoDup s -> collect_loops bm s = Ok None -> branching bm s.
Proof.
  intros Hnd H. unfold collect_loops in H.
  eapply collect_loops_from_None_branching; eauto. apply incl_refl.
Qed.

(** ** [collect_edges] on any mesh *)

Lemma set_add_NoDup (e : nat) (s : list nat) : NoDup s -> NoDup (set_add e s).
Proof.
  intro H. unfold set_add. destruct (mem e s) eqn:M; [assumption|].
  apply mem_false in M.
  apply (Permutation_NoDup (l := e :: s)).
  - apply Permutation_cons_append.
  - now constructor.
Qed.

Lemma set_add_In (e x : nat) (s : list nat) :
  In x (set_add e s) -> x = e \/ In x s.
Proof.
  unfold set_add. destruct (mem e s); [now right|].
  intro H. apply in_app_or in H. destruct H as [H|[<-|[]]]; auto.
Qed.

(** X4: Whatever the mesh, a set returned by [collect_edges] is not empty,
    has no edge twice, and holds only valid selected edges. *)
Theorem collect_edges_sound (bm : BMesh) (s : list nat) :
  collect_edges bm = Ok (Some s) ->
  s <> [] /\ NoDup s
  /\ forall e, In e s -> exists ed, get_edge bm e = Ok ed /\ e_select ed = true.
Proof.
  unfold collect_edges.
  destruct (foldM (collect_edges_step bm) [] (bm_edges bm)) as [acc| |] eqn:F;
    cbn [bind]; try discriminate.
  intro H. assert (acc = s /\ s <> []) as [-> Hne].
  { destruct acc; [discriminate|]. injection H as <-. split; [auto|discriminate]. }
  clear H. split; [assumption|].
  pose (P := fun (_ : list nat) (acc : list nat) =>
    NoDup acc
    /\ forall e, In e acc -> exists ed, get_edge bm e = Ok ed /\ e_select ed = true).
  refine (foldM_prefix_inv (collect_edges_step bm) P _ (bm_edges bm) [] [] s _ F).
  - intros pre acc e acc' [Hnd Hin] Hstep. unfold collect_edges_step in Hstep.
    destruct (get_edge bm e) as [ed| |] eqn:G; cbn [bind] in Hstep; try discriminate.
    destruct (e_select ed) eqn:Hsel.
    + destruct (count_faces_selected bm (e_link_faces ed) 0) as [c| |];
        cbn [bind] in Hstep; try discriminate.
      injection Hstep as <-. destruct c; [|now split].
      split; [now apply set_add_NoDup|].
      intros x Hx. apply set_add_In in Hx. destruct Hx as [->|Hx]; eauto.
    + injection Hstep as <-. now split.
  - split; [constructor|intros ? []].
Qed.

(** ** Mirror pairs *)

Lemma dict_get_set (k v : nat) (mp : mirror_plane) (d : vert_dict) :
  dict_get v (dict_set k mp d)
  = if Nat.eqb v k then Some mp else dict_get v d.
Proof.
  induction d as [|[k' mp'] d IH]; simpl.
  - reflexivity.
  - destruct (Nat.eqb_spec k k') as [->|Hk]; simpl.
    + destruct (Nat.eqb v k'); reflexivity.
    + rewrite IH. destruct (Nat.eqb_spec v k') as [->|Hv].
      * destruct (Nat.eqb_spec k' k); [congruence|reflexivity].
      * reflexivity.
Qed.

Lemma mirror_pairs_step_spec (g : globals) (bm : BMesh) (e v1 v2 : nat)
    (d : vert_dict) (copy : list nat) (mp : mirror_plane)
    (d' : vert_dict) (copy' : list nat) :
  mirror_pairs_step g bm e v1 v2 (d, copy) mp = Ok (d', copy') ->
  (forall v mp', dict_get v d' = Some mp' ->
                 dict_get v d = Some mp'
                 \/ (mp' = mp /\ on_mirror_plane g bm mp v = true))
  /\ (if (on_mirror_plane g bm mp v1 && on_mirror_plane g bm mp v2)%bool
      then In e copy /\ copy' = discard e copy
      else copy' = copy).
Proof.
  unfold mirror_pairs_step, on_mirror_plane.
  destruct mp as [[p_co p_norm] mlimit].
  destruct (co_of bm v1) as [c1| |] eqn:C1; cbn [bind]; try discriminate.
  destruct (co_of bm v2) as [c2| |] eqn:C2; cbn [bind]; try discriminate.
  set (t1 := Rleb (Rabs (dot (deref g p_norm) (vsub c1 p_co))) mlimit).
  set (t2 := Rleb (Rabs (dot (deref g p_norm) (vsub c2 p_co))) mlimit).
  set (mp := (p_co, p_norm, mlimit)).
  set (dnew := if t2 then dict_set v2 mp (if t1 then dict_set v1 mp d else d)
               else if t1 then dict_set v1 mp d else d).
  intro H.
  assert (Hd : d' = dnew
               /\ (if (t1 && t2)%bool then In e copy /\ copy' = discard e copy
                   else copy' = copy)).
  { destruct (t1 && t2)%bool.
    - unfold set_remove in H. destruct (mem e copy) eqn:M; cbn [bind] in H;
        [|discriminate].
      injection H as <- <-. apply mem_In in M. auto.
    - injection H as <- <-. auto. }
  destruct Hd as [-> Hc]. split; [|exact Hc].
  intros v mp' Hg. unfold dnew in Hg.
  destruct t1 eqn:T1, t2 eqn:T2; rewrite ?dict_get_set in Hg;
    repeat match type of Hg with
           | context [Nat.eqb v ?k] => destruct (Nat.eqb_spec v k) as [->|?]
           end;
    try (now left);
    injection Hg as <-; right; (split; [reflexivity|]);
    rewrite ?C1, ?C2; assumption.
Qed.

Lemma mirror_pairs_inner (g : globals) (bm : BMesh) (set_edges : list nat)
    (e v1 v2 : nat) (planes : list mirror_plane) :
  forall d copy d' copy',
    foldM (mirror_pairs_step g bm e v1 v2) (d, copy) planes = Ok (d', copy') ->
    (forall v mp', dict_get v d' = Some mp' ->
                   dict_get v d = Some mp'
                   \/ (In mp' planes /\ on_mirror_plane g bm mp' v = true))
    /\ (forall x, In x copy' -> In x copy)
    /\ (forall x, x <> e -> In x copy -> In x copy')
    /\ (In e copy' ->
        forall mp, In mp planes ->
                   (on_mirror_plane g bm mp v1 && on_mirror_plane g bm mp v2)%bool
                   = false).
Proof.
  induction planes as [|mp planes IH]; intros d copy d' copy' H; cbn [foldM] in H.
  - injection H as <- <-. repeat split; auto. intros _ ? [].
  - destruct (mirror_pairs_step g bm e v1 v2 (d, copy) mp) as [[d1 copy1]| |] eqn:St;
      cbn [bind] in H; try discriminate.
    apply mirror_pairs_step_spec in St. destruct St as [Hd Hc].
    apply IH in H. destruct H as (Hd' & Hsub & Hkeep & Hon).
    assert (Hsub1 : forall x, In x copy1 -> In x copy).
    { destruct (on_mirror_plane g bm mp v1 && on_mirror_plane g bm mp v2)%bool.
      - destruct Hc as [_ ->]. intros x Hx. apply discard_In in Hx. tauto.
      - now subst. }
    repeat split.
    + intros v mp' Hg. destruct (Hd' _ _ Hg) as [Hg1|[Hin Ho]].
      * destruct (Hd _ _ Hg1) as [|[-> Ho]]; [now left|].
        right. split; [now left|assumption].
      * right. split; [now right|assumption].
    + auto.
    + intros x Hne Hx. apply Hkeep; [assumption|].
      destruct (on_mirror_plane g bm mp v1 && on_mirror_plane g bm mp v2)%bool.
      * destruct Hc as [_ ->]. apply discard_In. tauto.
      * now subst.
    + intros He mp0 [<-|Hin]; [|now apply Hon].
      destruct (on_mirror_plane g bm mp v1 && on_mirror_plane g bm mp v2)%bool;
        [|reflexivity].
      destruct Hc as [_ ->]. apply Hsub in He. apply discard_In in He. tauto.
Qed.

(** X16: When [get_vert_mirror_pairs] is given mirror planes and returns,
    the set it returns is part of the input set and holds no edge lying
    on one of the planes, and every vertex it pairs with a plane lies
    within the merge limit of that plane. *)
Theorem get_vert_mirror_pairs_sound (g : globals) (bm : BMesh)
    (set_edges_orig : list nat) (mirror_planes : list mirror_plane)
    (d : vert_dict) (copy : list nat) :
  get_vert_mirror_pairs g bm set_edges_orig mirror_planes = Ok (Some d, copy) ->
  incl copy set_edges_orig
  /\ (forall e mp, In e copy -> In mp mirror_planes ->
                   edge_on_mirror_plane g bm mp e = false)
  /\ (forall v mp, dict_get v d = Some mp ->
                   In mp mirror_planes /\ on_mirror_plane g bm mp v = true).
Proof.
  unfold get_vert_mirror_pairs.
  destruct mirror_planes as [|mp0 planes0]; [discriminate|].
  set (planes := mp0 :: planes0).
  match goal with |- context [foldM ?b _ set_edges_orig] => set (body := b) end.
  destruct (foldM body ([], set_edges_orig) set_edges_orig) as [[d1 copy1]| |] eqn:F;
    cbn [bind]; try discriminate.
  intro H. injection H as -> ->.
  pose (P := fun (pre : list nat) (acc : vert_dict * list nat) =>
    (forall x, In x (snd acc) -> In x set_edges_orig)
    /\ (forall e mp, In e pre -> In e (snd acc) -> In mp planes ->
                     edge_on_mirror_plane g bm mp e = false)
    /\ (forall v mp, dict_get v (fst acc) = Some mp ->
                     In mp planes /\ on_mirror_plane g bm mp v = true)).
  assert (HP : P ([] ++ set_edges_orig) (d, copy)).
  { refine (foldM_prefix_inv body P _ set_edges_orig [] _ _ _ F).
    - clear F d copy. intros pre [d copy] e [d' copy'] (Hs & He & Hv) Hb.
      unfold body in Hb.
      destruct (get_edge bm e) as [ed| |] eqn:G; cbn [bind] in Hb; try discriminate.
      destruct (e_verts ed) as [v1 v2] eqn:Ev.
      apply (mirror_pairs_inner g bm set_edges_orig) in Hb.
      destruct Hb as (Hd & Hsub & Hkeep & Hon). unfold P; simpl in *.
      split; [|split].
      + auto.
      + intros x mp Hx Hin Hmp. apply in_app_or in Hx.
        destruct (Nat.eq_dec x e) as [->|Hne].
        * unfold edge_on_mirror_plane. rewrite G, Ev. simpl. now apply Hon.
        * destruct Hx as [Hx|[<-|[]]]; [|congruence]. apply He; auto.
      + intros v mp Hg. destruct (Hd _ _ Hg) as [Hg0|]; [|assumption].
        now apply Hv.
    - unfold P; simpl. split; [|split]; auto; try discriminate. intros ? ? []. }
  destruct HP as (Hs & He & Hv). simpl in *. split; [|split].
  - exact Hs.
  - intros e mp Hin Hmp. apply He; auto.
  - exact Hv.
Qed.

Lemma discard_app_mid (e : nat) (a l : list nat) :
  ~ In e a -> ~ In e l -> discard e (a ++ e :: l) = a ++ l.
Proof.
  intros Ha Hl. induction a as [|y a IH]; simpl.
  - rewrite Nat.eqb_refl. now apply discard_notin.
  - destruct (Nat.eqb_spec e y) as [->|Hne]; [exfalso; apply Ha; now left|].
    f_equal. apply IH. intro H. apply Ha. now right.
Qed.

Lemma mirror_pairs_single_fold (g : globals) (bm : BMesh) (mp : mirror_plane)
    (l : list nat) :
  let keep := fun e => negb (edge_on_mirror_plane g bm mp e) in
  forall pre d0,
    NoDup (pre ++ l) ->
    (forall e, In e l ->
               exists ed c1 c2,
                 get_edge bm e = Ok ed /\ co_of bm (fst (e_verts ed)) = Ok c1
                 /\ co_of bm (snd (e_verts ed)) = Ok c2) ->
    exists d,
      foldM (fun acc e =>
               ed <- get_edge bm e ;;
               let '(v1, v2) := e_verts ed in
               foldM (mirror_pairs_step g bm e v1 v2) acc [mp])
            (d0, filter keep pre ++ l) l
      = Ok (d, filter keep pre ++ filter keep l).
Proof.
  intro keep. induction l as [|e l IH]; intros pre d0 Hnd Hval; cbn [foldM].
  - exists d0. reflexivity.
  - destruct (Hval e (or_introl eq_refl)) as (ed & c1 & c2 & G & C1 & C2).
    rewrite G. cbn [bind]. destruct (e_verts ed) as [v1 v2] eqn:Ev.
    simpl in C1, C2. cbn [foldM].
    assert (Hk : keep e = negb (on_mirror_plane g bm mp v1
                                && on_mirror_plane g bm mp v2)).
    { unfold keep, edge_on_mirror_plane. now rewrite G, Ev. }
    unfold mirror_pairs_step at 1. unfold on_mirror_plane in Hk.
    destruct mp as [[p_co p_norm] mlimit]. rewrite C1, C2 in Hk |- *. cbn [bind].
    set (t1 := Rleb (Rabs (dot (deref g p_norm) (vsub c1 p_co))) mlimit) in *.
    set (t2 := Rleb (Rabs (dot (deref g p_norm) (vsub c2 p_co))) mlimit) in *.
    assert (Hnd' : NoDup ((pre ++ [e]) ++ l)) by (now rewrite <- app_assoc).
    assert (Hval' : forall e0, In e0 l ->
                      exists ed0 c0 c3,
                        get_edge bm e0 = Ok ed0
                        /\ co_of bm (fst (e_verts ed0)) = Ok c0
                        /\ co_of bm (snd (e_verts ed0)) = Ok c3).
    { intros e0 H0. apply Hval. now right. }
    assert (Hpre : ~ In e (filter keep pre) /\ ~ In e l).
    { apply NoDup_remove_2 in Hnd. split; intro H; apply Hnd; apply in_or_app.
      - left. apply filter_In in H. tauto.
      - now right. }
    assert (Hf : filter keep (pre ++ [e])
                 = filter keep pre ++ (if keep e then [e] else [])).
    { rewrite filter_app. simpl. now destruct (keep e). }
    cbn [filter]. rewrite Hk in Hf |- *.
    destruct (t1 && t2)%bool; cbn [negb] in *.
    + unfold set_remove.
      assert (M : mem e (filter keep pre ++ e :: l) = true).
      { apply mem_In. apply in_or_app. right. now left. }
      rewrite M. cbn [bind]. rewrite discard_app_mid by tauto.
      rewrite app_nil_r in Hf. rewrite <- Hf. apply IH; assumption.
    + cbn [bind].
      replace (filter keep pre ++ e :: l) with (filter keep (pre ++ [e]) ++ l)
        by (rewrite Hf, <- app_assoc; reflexivity).
      replace (filter keep pre ++ e :: filter keep l)
        with (filter keep (pre ++ [e]) ++ filter keep l)
        by (rewrite Hf, <- app_assoc; reflexivity).
      apply IH; assumption.
Qed.

(** X17: With a single mirror plane [get_vert_mirror_pairs] does not raise
    on a set of valid edges: it returns the edges of the set that do not
    lie on the plane, in their order. *)
Theorem get_vert_mirror_pairs_single_plane (g : globals) (bm : BMesh)
    (set_edges_orig : list nat) (mp : mirror_plane) :
  NoDup set_edges_orig ->
  (forall e, In e set_edges_orig ->
             exists ed c1 c2,
               get_edge bm e = Ok ed /\ co_of bm (fst (e_verts ed)) = Ok c1
               /\ co_of bm (snd (e_verts ed)) = Ok c2) ->
  exists d,
    get_vert_mirror_pairs g bm set_edges_orig [mp]
    = Ok (Some d,
          filter (fun e => negb (edge_on_mirror_plane g bm mp e)) set_edges_orig).
Proof.
  intros Hnd Hval. unfold get_vert_mirror_pairs.
  destruct (mirror_pairs_single_fold g bm mp set_edges_orig [] [] Hnd Hval)
    as (d & Hd).
  change (filter (fun e => negb (edge_on_mirror_plane g bm mp e)) [] ++ ?x)
    with x in Hd.
  exists d.
  match goal with
  | |- bind ?m _ = _ =>
      replace m
        with (Ok (d, filter (fun e => negb (edge_on_mirror_plane g bm mp e))
                            set_edges_orig) : result (vert_dict * list nat))
        by (symmetry; exact Hd)
  end.
  reflexivity.
Qed.

(** ** Moving the vertices *)

Lemma get_vert_update_other (bm : BMesh) (v k : nat) (f : vert_data -> vert_data) :
  v <> k -> get_vert (update_vert bm v f) k = get_vert bm k.
Proof.
  intro H. unfold get_vert, update_vert. simpl. rewrite nth_error_update_nth.
  destruct (Nat.eqb_spec v k); [contradiction|reflexivity].
Qed.

Lemma get_vert_with_co (bm : BMesh) (v : nat) (vd : vert_data) (c : Vector) :
  get_vert bm v = Ok vd ->
  get_vert (update_vert bm v (with_co c)) v = Ok (with_co c vd).
Proof.
  intro G. pose proof (get_vert_nth _ _ _ G) as Hn.
  unfold get_vert in G |- *. unfold update_vert. simpl.
  rewrite nth_error_update_nth, Nat.eqb_refl, Hn in *. simpl.
  destruct (v_valid vd); [reflexivity|discriminate].
Qed.

Lemma firstn_In_list {A : Type} (n : nat) (l : list A) (x : A) :
  In x (firstn n l) -> In x l.
Proof.
  revert l. induction n as [|n IH]; intros [|a l]; simpl; try tauto.
  intros [->|H]; auto.
Qed.

Lemma move_verts_fold (w d : R) (verts : list nat) :
  forall (dirs : list (Vector * Vector)) (bm bm' : BMesh),
    NoDup verts ->
    foldM (fun bm '(v, (vec_tan, vec_up)) =>
             match v with
             | Some v => add_co bm v (vadd (vscale w vec_tan) (vscale d vec_up))
             | None => Raise AttributeError
             end)
          bm (combine (map Some verts) dirs) = Ok bm' ->
    edge_store bm' = edge_store bm /\ face_store bm' = face_store bm
    /\ (forall i v t u vd,
          nth_error verts i = Some v -> nth_error dirs i = Some (t, u) ->
          get_vert bm v = Ok vd ->
          get_vert bm' v
          = Ok (with_co (vadd (v_co vd) (vadd (vscale w t) (vscale d u))) vd))
    /\ (forall v, ~ In v (firstn (length dirs) verts) ->
                  get_vert bm' v = get_vert bm v).
Proof.
  induction verts as [|v0 verts IH]; intros dirs bm bm' Hnd H.
  - simpl in H. injection H as <-. repeat split; auto.
    intros [|i] ? ? ? ? ?; discriminate.
  - destruct dirs as [|[t0 u0] dirs].
    + simpl in H. injection H as <-. repeat split; auto.
      intros [|i] ? ? ? ? ? ?; discriminate.
    + cbn [map combine foldM] in H. unfold add_co at 1 in H.
      destruct (get_vert bm v0) as [vd0| |] eqn:G0; cbn [bind] in H;
        try discriminate.
      inversion Hnd as [|? ? Hnotin Hnd']; subst.
      apply IH in H; [|assumption]. destruct H as (He & Hf & Hmove & Hkeep).
      split; [exact He|]. split; [exact Hf|]. split.
      * intros [|i] v t u vd Hv Hd Hg; simpl in Hv, Hd.
        -- injection Hv as <-. injection Hd as <- <-.
           rewrite Hkeep.
           ++ rewrite G0 in Hg. injection Hg as <-. now apply get_vert_with_co.
           ++ intro Hin. apply Hnotin. eapply firstn_In_list; eauto.
        -- apply (Hmove i); auto.
           rewrite get_vert_update_other; [assumption|].
           intros ->. apply Hnotin. eapply nth_error_In; eauto.
      * intros v Hv. simpl in Hv.
        rewrite Hkeep by tauto.
        apply get_vert_update_other. tauto.
Qed.

(** X14: Called without extruded geometry, [move_verts] moves the vertex at
    each position by [width * vec_tan + depth * vec_up] of the direction
    at the same position, and changes nothing else: not the other
    vertices, not the edges, not the faces. *)
Theorem move_verts_displaces (bm bm' : BMesh) (w d : R) (verts : list nat)
    (directions : list (Vector * Vector)) :
  NoDup verts ->
  move_verts bm w d verts directions None = Ok bm' ->
  edge_store bm' = edge_store bm /\ face_store bm' = face_store bm
  /\ (forall i v t u vd,
        nth_error verts i = Some v -> nth_error directions i = Some (t, u) ->
        get_vert bm v = Ok vd ->
        get_vert bm' v
        = Ok (with_co (vadd (v_co vd) (vadd (vscale w t) (vscale d u))) vd))
  /\ (forall v, ~ In v (firstn (length directions) verts) ->
                get_vert bm' v = get_vert bm v).
Proof.
  intros Hnd H. unfold move_verts in H. cbn [bind] in H.
  eapply move_verts_fold; eauto.
Qed.

(** ** Directions of a loop *)

Lemma range_up_length (n : nat) (a : Z) : length (range_up n a) = n.
Proof.
  revert a. induction n as [|n IH]; intro a; simpl; [reflexivity|now rewrite IH].
Qed.

Lemma directions_loop_lengths (g : globals) (bm : BMesh) (opts : options)
    (pairs : option vert_dict) (set_edges verts : list nat)
    (vec_edges : list Vector) (HALF_LOOP : bool) (lp_normal : Vector)
    (adj_faces : option (list (option nat))) (rng : list Z) :
  forall directions verts' directions',
    directions_loop g bm opts pairs set_edges verts vec_edges HALF_LOOP
      lp_normal adj_faces rng directions = Ok (verts', directions') ->
    (verts' = [] /\ directions' = [])
    \/ (verts' = verts
        /\ length directions' = (length directions + length rng)%nat).
Proof.
  induction rng as [|i rng IH]; intros ds verts' ds' H; cbn [directions_loop] in H.
  - injection H as <- <-. right. split; [reflexivity|simpl; lia].
  - destruct (direction_at _ _ _ _ _ _ _ _ _ _ _) as [[dr|]| |];
      cbn [bind] in H; try discriminate.
    + apply IH in H. destruct H as [H|[-> ->]]; [now left|].
      right. split; [reflexivity|]. rewrite length_app. simpl. lia.
    + injection H as <- <-. now left.
Qed.

Ltac bind_inv H :=
  match type of H with
  | bind ?m _ = Ok _ =>
      let E := fresh "E" in
      destruct m eqn:E; cbn [bind] in H; try discriminate
  end.

(** X19: [get_directions] returns as many directions as vertices. *)
Theorem get_directions_lengths (g g' : globals) (bm : BMesh) (lp : list BMElem)
    (vec_upward : Vector) (normal_fallback : vec_ref)
    (vert_mirror_pairs : option vert_dict) (opts : options)
    (verts : list nat) (directions : list (Vector * Vector)) :
  get_directions g bm lp vec_upward normal_fallback vert_mirror_pairs opts
  = Ok (verts, directions, g') ->
  length verts = length directions.
Proof.
  unfold get_directions. intro H.
  bind_inv H. bind_inv H. bind_inv H.
  assert (Htail : forall (vs : list nat) (g0 : globals) (es : list nat)
                    (ves : list Vector) (n0 : Vector)
                    (adj : option (list (option nat))) (hl : bool),
             (x0 <- directions_loop g0 bm opts vert_mirror_pairs es vs ves hl n0 adj
                      (py_range 0 (Z.of_nat (length vs))) [] ;;
              (let (verts1, directions0) := x0 in Ok (verts1, directions0, g0)))
             = Ok (verts, directions, g') ->
             length verts = length directions).
  { intros vs g0 es ves n0 adj hl Ht. bind_inv Ht.
    destruct a2 as [vs' ds']. injection Ht as -> -> ->.
    apply directions_loop_lengths in E2.
    destruct E2 as [[-> ->]|[-> ->]]; [reflexivity|].
    unfold py_range. rewrite range_up_length. simpl.
    rewrite Z.sub_0_r. now rewrite Nat2Z.id. }
  match type of H with
  | context [if ?c then _ else _] => destruct c
  end.
  all: try match type of H with
           | context [imul ?a ?b ?c] => destruct (imul a b c) as [g1 n1]
           end.
  all: bind_inv H.
  all: match goal with
       | x : (list nat * list nat * (globals * vec_ref) * option (list (option nat)))%type
         |- _ => destruct x as [[[vs es] [g2 n2]] adj]
       end.
  all: bind_inv H; bind_inv H; bind_inv H.
  all: match type of H with
       | context [if ?c then _ else _] => destruct c
       end.
  all: eapply Htail; exact H.
Qed.

(** ** The operator *)

Lemma collect_loops_empty (bm : BMesh) : collect_loops bm [] = Ok (Some []).
Proof. reflexivity. Qed.

Lemma get_offset_infos_FAILED (self self' : OffsetEdges) (g g' : globals)
    (bm : BMesh) (ob : edit_object_t) :
  get_offset_infos self g bm ob = Ok (FAILED, self', g') ->
  g' = g
  /\ (self' = report No_edges_selected self
      \/ self' = report Overlap_detected self).
Proof.
  unfold get_offset_infos. intro H.
  destruct (caches_valid self && is_some (cache_offset_infos self))%bool;
    [discriminate|].
  destruct (collect_edges bm) as [[s|]| |]; cbn [bind] in H; try discriminate.
  - bind_inv H. destruct a as [[pairs s'] self1].
    assert (Hs : s' = [] \/ self1 = self).
    { destruct (mirror_modifier self).
      - bind_inv E. bind_inv E. destruct a0 as [pairs0 s0].
        injection E as <- <- <-. destruct s0; auto.
      - injection E as <- <- <-. auto. }
    destruct Hs as [->| ->].
    + rewrite collect_loops_empty in H. cbn [bind] in H.
      bind_inv H. destruct a as [infos g1]. repeat (bind_inv H).
    + destruct (collect_loops bm s') as [[loops|]| |]; cbn [bind] in H;
        try discriminate.
      * bind_inv H. destruct a as [infos g1]. repeat (bind_inv H).
      * injection H as <- <-. auto.
  - injection H as <- <-. auto.
Qed.

Lemma get_offset_infos_session (self self' : OffsetEdges) (g g' : globals)
    (bm : BMesh) (ob : edit_object_t) (r : offset_infos_result) :
  get_offset_infos self g bm ob = Ok (r, self', g') ->
  bm_orig self' = bm_orig self /\ initial_mouse self' = initial_mouse self.
Proof.
  unfold get_offset_infos. intro H.
  destruct (caches_valid self && is_some (cache_offset_infos self))%bool.
  { injection H as <- <- <-. auto. }
  destruct (collect_edges bm) as [[s|]| |]; cbn [bind] in H; try discriminate.
  - bind_inv H. destruct a as [[pairs s'] self1].
    assert (Hs : bm_orig self1 = bm_orig self
                 /\ initial_mouse self1 = initial_mouse self).
    { destruct (mirror_modifier self).
      - bind_inv E. bind_inv E. destruct a0 as [pairs0 s0].
        injection E as <- <- <-. destruct s0; auto.
      - injection E as <- <- <-. auto. }
    destruct (collect_loops bm s') as [[loops|]| |]; cbn [bind] in H;
      try discriminate.
    + bind_inv H. destruct a as [infos g1]. bind_inv H. bind_inv H.
      injection H as <- <- <-. exact Hs.
    + injection H as <- <- <-. exact Hs.
  - injection H as <- <- <-. auto.
Qed.

Lemma do_offset_and_free_self (self self' : OffsetEdges) (bm me : BMesh)
    (offset_infos : option offset_infos_t) (set_edges_orig : option (list nat)) :
  do_offset_and_free self bm offset_infos set_edges_orig = Ok (self', me) ->
  self' = set_caches_valid false self.
Proof.
  unfold do_offset_and_free. intro H.
  bind_inv H. destruct a as [vds edges_orig].
  destruct (depth_mode self); bind_inv H; destruct a as [bm1 geom_ex];
    bind_inv H; bind_inv H; now injection H as <- <-.
Qed.

(** X21: When [execute] is cancelled, the mesh, the world matrix and the
    modifiers of the object and the module state are as they were, one
    warning has been reported (no edges selected, or overlap detected),
    and the interaction mode has been toggled once only: called in edit
    mode, [execute] leaves the object in object mode. *)
Theorem execute_cancelled_leaves_object_mode (m m' : mode_t)
    (ctx ctx' : context_t) :
  execute_in_mode m ctx = Ok (CANCELLED, ctx', m') ->
  m' = editmode_toggle m
  /\ (m = EDIT -> m' = OBJECT)
  /\ edit_object ctx' = edit_object ctx
  /\ module_ ctx' = module_ ctx
  /\ (self_ ctx' = report No_edges_selected (self_ ctx)
      \/ self_ ctx' = report Overlap_detected (self_ ctx)).
Proof.
  unfold execute_in_mode. intro H. bind_inv H. destruct a as [st c].
  assert (Hst : st = CANCELLED /\ c = ctx' /\ m' = editmode_toggle m).
  { destruct st; try discriminate; injection H as <- <-; auto. }
  destruct Hst as (-> & -> & ->). clear H.
  split; [reflexivity|]. split; [now intros ->|].
  unfold execute in E. bind_inv E. destruct a as [[r self1] g1].
  destruct r.
  - bind_inv E. destruct a as [s me]. discriminate.
  - injection E as <-. simpl. apply get_offset_infos_FAILED in E0.
    destruct E0 as [-> Hs]. auto.
  - bind_inv E. destruct a as [s me]. discriminate.
Qed.

Lemma modal_running_inv (ctx ctx' : context_t) (ev : event) :
  modal ctx ev = Ok (RUNNING_MODAL, ctx') ->
  bm_orig (self_ ctx') = bm_orig (self_ ctx)
  /\ initial_mouse (self_ ctx') = initial_mouse (self_ ctx).
Proof.
  unfold modal. intro H. destruct ev as [mx my| | | |].
  - bind_inv H. bind_inv H. destruct a0 as [[r self1] g1].
    apply get_offset_infos_session in E0. simpl in E0.
    destruct r.
    + bind_inv H. destruct a0 as [self2 me]. injection H as <-. simpl.
      apply do_offset_and_free_self in E1. subst self2. exact E0.
    + bind_inv H.
    + bind_inv H. destruct a0 as [self2 me]. injection H as <-. simpl.
      apply do_offset_and_free_self in E1. subst self2. exact E0.
  - bind_inv H.
  - bind_inv H.
  - bind_inv H.
  - injection H as <-. auto.
Qed.

Lemma modal_cancelled_inv (ctx ctx' : context_t) (ev : event) :
  modal ctx ev = Ok (CANCELLED, ctx') ->
  exists bm,
    bm_orig (self_ ctx) = Some bm
    /\ data (edit_object ctx') = to_mesh bm
    /\ matrix_world (edit_object ctx') = matrix_world (edit_object ctx)
    /\ modifiers (edit_object ctx') = modifiers (edit_object ctx)
    /\ bm_orig (self_ ctx') = None
    /\ caches_valid (self_ ctx') = false.
Proof.
  assert (Hr : forall c c',
             restore_original_and_free c = Ok c' ->
             exists bm,
               bm_orig (self_ c) = Some bm
               /\ data (edit_object c') = to_mesh bm
               /\ matrix_world (edit_object c') = matrix_world (edit_object c)
               /\ modifiers (edit_object c') = modifiers (edit_object c)
               /\ bm_orig (self_ c') = None
               /\ caches_valid (self_ c') = false).
  { intros c c'. unfold restore_original_and_free. simpl.
    destruct (bm_orig (self_ c)) as [bm|]; [|discriminate].
    intro H. injection H as <-. exists bm. simpl. auto 10. }
  unfold modal. intro H. destruct ev as [mx my| | | |].
  - bind_inv H. bind_inv H. destruct a0 as [[r self1] g1].
    pose proof (get_offset_infos_session _ _ _ _ _ _ _ E0) as [Hb _].
    simpl in Hb. destruct r.
    + bind_inv H. destruct a0 as [self2 me]. discriminate.
    + bind_inv H. injection H as <-.
      destruct (Hr _ _ E1) as (bm & Hbm & Hrest). simpl in Hbm, Hrest.
      exists bm. split; [congruence|exact Hrest].
    + bind_inv H. destruct a0 as [self2 me]. discriminate.
  - bind_inv H. injection H as <-. now apply Hr.
  - bind_inv H. injection H as <-. now apply Hr.
  - bind_inv H.
  - discriminate.
Qed.

(** X22: An event that leaves the interactive session running leaves its
    snapshot of the mesh and its initial mouse position as they were. *)
Theorem modal_running_keeps_snapshot (ctx ctx' : context_t) (ev : event) :
  modal ctx ev = Ok (RUNNING_MODAL, ctx') ->
  bm_orig (self_ ctx') = bm_orig (self_ ctx)
  /\ initial_mouse (self_ ctx') = initial_mouse (self_ ctx).
Proof. apply modal_running_inv. Qed.

(** X23: Whenever [modal] cancels, on [RIGHTMOUSE], on [ESC] or because a
    mouse move could not be computed, the mesh of the object is the
    snapshot written back, the snapshot is freed and the caches are
    invalid. *)
Theorem modal_cancelled_restores_snapshot (ctx ctx' : context_t) (ev : event) :
  modal ctx ev = Ok (CANCELLED, ctx') ->
  exists bm,
    bm_orig (self_ ctx) = Some bm
    /\ data (edit_object ctx') = to_mesh bm
    /\ matrix_world (edit_object ctx') = matrix_world (edit_object ctx)
    /\ modifiers (edit_object ctx') = modifiers (edit_object ctx)
    /\ bm_orig (self_ ctx') = None
    /\ caches_valid (self_ ctx') = false.
Proof. apply modal_cancelled_inv. Qed.

Lemma renumber_nth {A : Type} (valid : A -> bool) (set_index : Z -> A -> A)
    (store : list A) :
  forall k a,
    match nth_error store a with
    | Some d => exists i, nth_error (renumber valid set_index k store) a
                          = Some (if valid d then set_index i d else d)
    | None => nth_error (renumber valid set_index k store) a = None
    end.
Proof.
  induction store as [|x store IH]; intros k a; simpl.
  - now destruct a.
  - destruct a as [|a]; simpl.
    + destruct (valid x); [exists k|exists k]; reflexivity.
    + destruct (valid x); simpl; apply IH.
Qed.

Lemma from_mesh_co (me : BMesh) (v : nat) : co_of (from_mesh me) v = co_of me v.
Proof.
  unfold co_of, get_vert, from_mesh. simpl.
  pose proof (renumber_nth v_valid with_v_index (vert_store me) 0%Z v) as H.
  destruct (nth_error (vert_store me) v) as [d|].
  - destruct H as (i & ->). destruct (v_valid d) eqn:V; simpl; now rewrite V.
  - now rewrite H.
Qed.

Lemma drags_keep_snapshot (ctx ctx' : context_t) :
  drags ctx ctx' -> bm_orig (self_ ctx') = bm_orig (self_ ctx).
Proof.
  induction 1 as [|ctx ctx' ctx'' ev Hm _ IH]; [reflexivity|].
  rewrite IH. now apply (modal_running_inv _ _ ev).
Qed.

(** X24: [invoke] in a 3D view starts a session without touching the mesh:
    it takes the snapshot and the mouse position, and it ends with
    [caches_valid] true, since assigning [angle] and [depth] runs their
    update callback after [invoke] has cleared the flag. *)
Theorem invoke_starts_session (ctx : context_t) (mouse : R * R) :
  exists ctx1,
    invoke ctx true mouse = Ok (RUNNING_MODAL, ctx1)
    /\ edit_object ctx1 = edit_object ctx
    /\ module_ ctx1 = module_ ctx
    /\ bm_orig (self_ ctx1) = Some (from_mesh (data (edit_object ctx)))
    /\ initial_mouse (self_ ctx1) = mouse
    /\ caches_valid (self_ ctx1) = true
    /\ cache_offset_infos (self_ ctx1) = cache_offset_infos (self_ ctx).
Proof.
  unfold invoke. eexists. split; [reflexivity|].
  destruct (existsb _ _); simpl; auto 10.
Qed.

(** X25: A session started by [invoke] in a 3D view and cancelled after any
    number of events gives the mesh back as [invoke] found it: the
    snapshot of the mesh at [invoke], every vertex at its coordinates. *)
Theorem cancel_restores_mesh (ctx ctx1 ctx2 ctx3 : context_t) (mouse : R * R)
    (ev : event) :
  invoke ctx true mouse = Ok (RUNNING_MODAL, ctx1) ->
  drags ctx1 ctx2 ->
  modal ctx2 ev = Ok (CANCELLED, ctx3) ->
  data (edit_object ctx3) = from_mesh (data (edit_object ctx))
  /\ forall v, co_of (data (edit_object ctx3)) v = co_of (data (edit_object ctx)) v.
Proof.
  intros Hi Hd Hc.
  assert (Hs : bm_orig (self_ ctx1) = Some (from_mesh (data (edit_object ctx)))).
  { unfold invoke in Hi. injection Hi as <-.
    destruct (existsb _ _); reflexivity. }
  apply drags_keep_snapshot in Hd. rewrite Hs in Hd.
  destruct (modal_cancelled_inv _ _ _ Hc) as (bm & Hb & Hdata & _).
  rewrite Hd in Hb. injection Hb as <-. unfold to_mesh in Hdata.
  split; [exact Hdata|]. intro v. rewrite Hdata. apply from_mesh_co.
Qed.

(** ** Up vector of a vertex *)

(** X10: The up vector [get_normals] returns is the loop normal, one of the
    two face normals it returns, or a unit vector; without adjacent
    faces it is the loop normal and no face normal is returned. *)
Theorem get_normals_up (bm : BMesh) (lp_normal : Vector) (ix_r ix_l : Z)
    (adj_faces : option (list (option nat)))
    (vec_up : Vector) (normal_r normal_l : option Vector) :
  get_normals bm lp_normal ix_r ix_l adj_faces = Ok (vec_up, normal_r, normal_l) ->
  (vec_up = lp_normal \/ normal_r = Some vec_up \/ normal_l = Some vec_up
   \/ length_v vec_up = 1)
  /\ (adj_faces = None -> vec_up = lp_normal /\ normal_r = None /\ normal_l = None).
Proof.
  unfold get_normals. intro H. bind_inv H. destruct a as [nr nl].
  injection H as <- <- <-. split.
  - destruct nr as [nr|], nl as [nl|]; auto.
    destruct (veqb_spec (normalized (vadd nr nl)) ZERO_VEC) as [Ez|Nz]; auto.
    destruct (normalized_zero_or_unit (vadd nr nl)); [contradiction|auto].
  - intros ->. injection E as <- <-. auto.
Qed.

(** ** Orientation of a loop *)

Lemma reorder_loop_from_spec (g : globals) (bm : BMesh) (verts edges : list nat)
    (normal : vec_ref) (adj_faces : list (option nat)) (rest : list (option nat)) :
  forall i verts' edges' g' normal' adj',
    reorder_loop_from g bm i rest verts edges normal adj_faces
    = Ok (verts', edges', (g', normal'), adj') ->
    ((verts', edges', adj') = (verts, edges, adj_faces)
     \/ (verts', edges', adj') = (rev verts, rev edges, rev adj_faces))
    /\ (deref g' normal' = deref g normal
        \/ deref g' normal' = vscale (-1) (deref g normal))
    /\ (normal <> Ref_Z_UP -> g' = g)
    /\ (forall f, In (Some f) rest ->
                  exists f0 fd, In (Some f0) rest /\ get_face bm f0 = Ok fd
                                /\ 0 <= dot (deref g' normal') (f_normal fd)).
Proof.
  induction rest as [|[adj_f|] rest IH]; intros i verts' edges' g' normal' adj' H;
    cbn [reorder_loop_from] in H.
  - injection H as <- <- <- <- <-. repeat split; auto. intros ? [].
  - do 4 bind_inv H. rename a2 into fd. do 2 bind_inv H.
    assert (Hn : (g', normal')
                 = (if Rltb (dot (deref g normal) (f_normal fd)) 0
                    then imul g normal (-1) else (g, normal))
                 /\ ((verts', edges', adj') = (verts, edges, adj_faces)
                     \/ (verts', edges', adj')
                        = (rev verts, rev edges, rev adj_faces))).
    { match type of H with
      | context [if Nat.eqb ?x ?y then _ else _] => destruct (Nat.eqb x y)
      end; injection H as <- <- <- <-; auto. }
    clear H. destruct Hn as [Hn Hl].
    destruct (Rltb_spec (dot (deref g normal) (f_normal fd)) 0) as [Hlt|Hge].
    + assert (Hd : deref g' normal' = vscale (-1) (deref g normal)
                   /\ (normal <> Ref_Z_UP -> g' = g)).
      { destruct normal; simpl in Hn; injection Hn as -> ->; simpl; auto.
        split; [reflexivity|congruence]. }
      destruct Hd as [Hd Hg]. split; [exact Hl|]. split; [now right|].
      split; [exact Hg|].
      intros f _. exists adj_f, fd. split; [now left|]. split; [assumption|].
      rewrite Hd, dot_vscale_l. lra.
    + injection Hn as -> ->. split; [exact Hl|]. split; [now left|].
      split; [reflexivity|].
      intros f _. exists adj_f, fd. split; [now left|]. split; [assumption|]. lra.
  - apply IH in H. destruct H as (Hl & Hd & Hg & Hf).
    split; [exact Hl|]. split; [exact Hd|]. split; [exact Hg|].
    intros f [Hin|Hin]; [discriminate|].
    destruct (Hf f Hin) as (f0 & fd & ? & ? & ?). exists f0, fd.
    split; [now right|]. auto.
Qed.

(** X8: [reorder_loop] returns the three lists as they were or all three
    reversed, and the loop normal as it was or negated; the module
    constant changes only when the normal is that constant itself; and
    when the loop has an adjacent face, the normal ends up on the side
    of the normal of one of them. *)
Theorem reorder_loop_orientation (g g' : globals) (bm : BMesh)
    (verts edges verts' edges' : list nat) (normal normal' : vec_ref)
    (adj_faces adj_faces' : list (option nat)) :
  reorder_loop g bm verts edges normal adj_faces
  = Ok (verts', edges', (g', normal'), adj_faces') ->
  ((verts', edges', adj_faces') = (verts, edges, adj_faces)
   \/ (verts', edges', adj_faces') = (rev verts, rev edges, rev adj_faces))
  /\ (deref g' normal' = deref g normal
      \/ deref g' normal' = vscale (-1) (deref g normal))
  /\ (normal <> Ref_Z_UP -> g' = g)
  /\ (forall f, In (Some f) adj_faces ->
                exists f0 fd, In (Some f0) adj_faces /\ get_face bm f0 = Ok fd
                              /\ 0 <= dot (deref g' normal') (f_normal fd)).
Proof.
  unfold reorder_loop. apply reorder_loop_from_spec.
Qed.

(** ** Mirror planes of the modifiers *)

(** X15: [collect_mirror_planes] raises [ValueError] exactly when the world
    matrix of the object is singular, whatever its modifiers; otherwise
    it returns at most three planes for each modifier, each with the
    merge threshold of a mirror modifier that merges, through the
    origin of the object when the modifier has no mirror object. *)
Theorem collect_mirror_planes_returns (ob : edit_object_t) :
  match collect_mirror_planes ob with
  | Ok planes =>
      determinant 4 (matrix_world ob) <> 0
      /\ (length planes <= 3 * length (modifiers ob))%nat
      /\ forall loc n lim,
           In (loc, n, lim) planes ->
           exists mo ux uy uz,
             In (MIRROR true lim mo ux uy uz) (modifiers ob)
             /\ (mo = None -> loc = ZERO_VEC)
  | Raise e => e = ValueError /\ determinant 4 (matrix_world ob) = 0
  | OutOfFuel => False
  end.
Proof.
  unfold collect_mirror_planes, inverted.
  destruct (Reqb_spec (determinant 4 (matrix_world ob)) 0) as [E|N]; cbn [bind];
    [now split|].
  split; [exact N|].
  match goal with |- context [fold_left ?f _ _] => set (step := f) end.
  assert (H : forall ms acc,
             (length (fold_left step ms acc) <= length acc + 3 * length ms)%nat
             /\ forall loc n lim,
                  In (loc, n, lim) (fold_left step ms acc) ->
                  In (loc, n, lim) acc
                  \/ exists mo ux uy uz,
                       In (MIRROR true lim mo ux uy uz) ms
                       /\ (mo = None -> loc = ZERO_VEC)).
  { induction ms as [|m ms IH]; intros acc; simpl.
    - split; [lia|auto].
    - destruct (IH (step acc m)) as [Hlen Hin].
      assert (Hs : (length (step acc m) <= length acc + 3)%nat
                   /\ forall loc n lim,
                        In (loc, n, lim) (step acc m) ->
                        In (loc, n, lim) acc
                        \/ exists mo ux uy uz,
                             m = MIRROR true lim mo ux uy uz
                             /\ (mo = None -> loc = ZERO_VEC)).
      { destruct m as [[|] lim mo ux uy uz|];
          try (unfold step; split; [lia|auto]).
        assert (Hm : exists loc nx ny nz,
                   (mo = None -> loc = ZERO_VEC)
                   /\ step acc (MIRROR true lim mo ux uy uz)
                      = acc ++ (if ux then [(loc, nx, lim)] else [])
                            ++ (if uy then [(loc, ny, lim)] else [])
                            ++ (if uz then [(loc, nz, lim)] else [])).
        { unfold step. destruct mo as [mw|].
          - do 4 eexists. split; [discriminate|reflexivity].
          - do 4 eexists. split; [reflexivity|reflexivity]. }
        destruct Hm as (loc0 & nx & ny & nz & Hz & ->).
        split.
        - rewrite !length_app. destruct ux, uy, uz; cbn [length]; lia.
        - intros loc n l Hi.
          apply in_app_or in Hi. destruct Hi as [Hi|Hi]; [now left|].
          right. exists mo, ux, uy, uz.
          assert (Hl : l = lim /\ loc = loc0).
          { destruct ux, uy, uz; cbn [app] in Hi;
              repeat match goal with
                     | H : In _ (_ :: _) |- _ => destruct H as [H|H]
                     | H : In _ [] |- _ => destruct H
                     | H : (_, _, _) = (_, _, _) |- _ => injection H as <- <- <-
                     end; auto. }
          destruct Hl as [-> ->]. split; [reflexivity|exact Hz]. }
      destruct Hs as [Hl1 Hi1]. split; [lia|].
      intros loc n lim Hi. destruct (Hin _ _ _ Hi) as [Ha|(mo & ux & uy & uz & Hm & Hz)].
      + destruct (Hi1 _ _ _ Ha) as [|(mo & ux & uy & uz & -> & Hz)]; [now left|].
        right. exists mo, ux, uy, uz. split; [now left|exact Hz].
      + right. exists mo, ux, uy, uz. split; [now right|exact Hz]. }
  destruct (H (modifiers ob) []) as [Hlen Hin]. simpl in Hlen.
  split; [exact Hlen|].
  intros loc n lim Hi. destruct (Hin _ _ _ Hi) as [[]|Hex]. exact Hex.
Qed.

(** ** The properties at concrete inputs *)

Lemma cross_rail_run :
  get_cross_rail (vec 1 0 0) (vec 0 1 0) (vec 0 0 1) (vec 0 0 1) (vec 0 1 0)
    (1 / 10000)
  = Ok (Some (vscale (-1) (cross (vec 0 0 1) (vec 0 1 0)))).
Proof.
  unfold get_cross_rail.
  rewrite vangle_units by r_arith.
  replace (dot (vec 0 0 1) (vec 0 1 0)) with 0 by r_arith.
  rewrite acos_0. cbn [bind].
  rewrite (Rltb_false (PI / 2) (1 / 10000)) by pi_arith.
  rewrite (normalized_unit (cross (vec 0 0 1) (vec 0 1 0))) by r_arith.
  rewrite (Rltb_true (dot (cross (vec 0 0 1) (vec 0 1 0)) (vec 1 0 0)) 0) by r_arith.
  match goal with |- context [Rleb ?a ?b] => rewrite (Rleb_true a b) end.
  - reflexivity.
  - unfold Rmin. destruct (Rle_dec _ _); r_arith.
Qed.

Lemma calc_tangent_zero_or_unit_witness :
  Z_UP_initial <> ZERO_VEC
  /\ exists t, calc_tangent Z_UP_initial X_UP Y_UP (1 / 10000) = Ok t
               /\ (t = ZERO_VEC \/ length_v t = 1).
Proof.
  assert (H : Z_UP_initial <> ZERO_VEC) by v_neq.
  split; [exact H|].
  exact (calc_tangent_zero_or_unit Z_UP_initial X_UP Y_UP (1 / 10000) H).
Defined.

Lemma get_cross_rail_properties_witness :
  get_cross_rail (vec 1 0 0) (vec 0 1 0) (vec 0 0 1) (vec 0 0 1) (vec 0 1 0)
    (1 / 10000)
  = Ok (Some (vscale (-1) (cross (vec 0 0 1) (vec 0 1 0))))
  /\ dot (vscale (-1) (cross (vec 0 0 1) (vec 0 1 0))) (vec 0 0 1) = 0.
Proof.
  split; [exact cross_rail_run|].
  exact (proj1 (get_cross_rail_properties _ _ _ _ _ _ _ cross_rail_run)).
Defined.

Lemma edge_rail_run :
  get_edge_rail mirror_rail_mesh 0 [0%nat]
  = Ok (Some (vsub (vec 3 4 0) (vec 0 0 0))).
Proof.
  unfold get_edge_rail. simpl. r_eval. reflexivity.
Qed.

Lemma get_edge_rail_nonzero_witness :
  get_edge_rail mirror_rail_mesh 0 [0%nat]
  = Ok (Some (vsub (vec 3 4 0) (vec 0 0 0)))
  /\ vsub (vec 3 4 0) (vec 0 0 0) <> ZERO_VEC.
Proof.
  split; [exact edge_rail_run|].
  exact (get_edge_rail_nonzero _ _ _ _ edge_rail_run).
Defined.

Lemma adj_ix_run : get_adj_ix 0 [X_UP] true = Ok (Some 0%Z, Some 0%Z).
Proof.
  unfold get_adj_ix. simpl. unfold py_index. simpl. r_eval. reflexivity.
Qed.

Lemma get_adj_ix_nonzero_witness :
  get_adj_ix 0 [X_UP] true = Ok (Some 0%Z, Some 0%Z)
  /\ exists v, py_index [X_UP] 0 = Ok v /\ v <> ZERO_VEC.
Proof.
  split; [exact adj_ix_run|].
  exact (proj1 (get_adj_ix_nonzero _ _ _ _ _ adj_ix_run) 0%Z eq_refl).
Defined.

Lemma collect_edges_sound_witness :
  collect_edges fan_mesh = Ok (Some [1; 2; 3; 4; 5; 6]%nat)
  /\ NoDup [1; 2; 3; 4; 5; 6]%nat.
Proof.
  assert (Hrun : collect_edges fan_mesh = Ok (Some [1; 2; 3; 4; 5; 6]%nat)).
  { vm_compute. reflexivity. }
  split; [exact Hrun|].
  exact (proj1 (proj2 (collect_edges_sound _ _ Hrun))).
Defined.

Lemma collect_loops_terminates_witness :
  NoDup [1; 2]%nat /\ collect_loops fan_mesh [1; 2]%nat <> OutOfFuel.
Proof.
  assert (Hnd : NoDup [1; 2]%nat).
  { repeat constructor; simpl; intuition discriminate. }
  split; [exact Hnd|].
  exact (collect_loops_terminates fan_mesh _ Hnd).
Defined.

Lemma collect_loops_chains_witness :
  collect_loops fan_mesh [1; 2]%nat
  = Ok (Some [[BMVert 1; BMEdge 2; BMVert 2; BMEdge 1; BMVert 0]])
  /\ exists a rest b,
       [BMVert 1; BMEdge 2; BMVert 2; BMEdge 1; BMVert 0] = BMVert a :: rest
       /\ rest <> [] /\ chain fan_mesh a rest b = true.
Proof.
  assert (Hrun : collect_loops fan_mesh [1; 2]%nat
                 = Ok (Some [[BMVert 1; BMEdge 2; BMVert 2; BMEdge 1; BMVert 0]])).
  { vm_compute. reflexivity. }
  split; [exact Hrun|].
  exact (collect_loops_chains fan_mesh _ _ _ Hrun (or_introl eq_refl)).
Defined.

Lemma collect_loops_None_only_if_branching_witness :
  NoDup [1; 3; 5]%nat
  /\ collect_loops fan_mesh [1; 3; 5]%nat = Ok None
  /\ branching fan_mesh [1; 3; 5]%nat.
Proof.
  assert (Hnd : NoDup [1; 3; 5]%nat).
  { repeat constructor; simpl; intuition discriminate. }
  assert (Hrun : collect_loops fan_mesh [1; 3; 5]%nat = Ok None).
  { vm_compute. reflexivity. }
  split; [exact Hnd|]. split; [exact Hrun|].
  exact (collect_loops_None_only_if_branching fan_mesh _ Hnd Hrun).
Defined.

Lemma mirror_pairs_run :
  get_vert_mirror_pairs initial_globals mirror_rail_mesh [0%nat] [plane_x]
  = Ok (Some [(0%nat, plane_x)], [0%nat]).
Proof.
  unfold get_vert_mirror_pairs, mirror_pairs_step, plane_x. simpl. r_eval.
  reflexivity.
Qed.

Lemma get_vert_mirror_pairs_sound_witness :
  get_vert_mirror_pairs initial_globals mirror_rail_mesh [0%nat] [plane_x]
  = Ok (Some [(0%nat, plane_x)], [0%nat])
  /\ incl [0%nat] [0%nat].
Proof.
  split; [exact mirror_pairs_run|].
  exact (proj1 (get_vert_mirror_pairs_sound _ _ _ _ _ _ mirror_pairs_run)).
Defined.

Lemma get_vert_mirror_pairs_single_plane_witness :
  NoDup [0%nat]
  /\ exists d,
       get_vert_mirror_pairs initial_globals mirror_rail_mesh [0%nat] [plane_x]
       = Ok (Some d,
             filter (fun e => negb (edge_on_mirror_plane initial_globals
                                      mirror_rail_mesh plane_x e)) [0%nat]).
Proof.
  assert (Hnd : NoDup [0%nat]) by (repeat constructor; simpl; tauto).
  split; [exact Hnd|].
  apply (get_vert_mirror_pairs_single_plane initial_globals mirror_rail_mesh
           [0%nat] plane_x Hnd).
  intros e [<-|[]]. do 3 eexists. repeat split; reflexivity.
Defined.

Lemma move_verts_displaces_witness :
  NoDup [0; 1]%nat
  /\ exists bm',
       move_verts wire_edge_mesh (1 / 10) 0 [0; 1]%nat
         [(Y_UP, Z_UP_initial); (Y_UP, Z_UP_initial)] None = Ok bm'
       /\ edge_store bm' = edge_store wire_edge_mesh.
Proof.
  assert (Hnd : NoDup [0; 1]%nat).
  { repeat constructor; simpl; intuition discriminate. }
  split; [exact Hnd|].
  eexists.
  match goal with
  | |- ?H /\ _ => assert (Hc : H) by reflexivity
  end.
  split; [exact Hc|].
  exact (proj1 (move_verts_displaces _ _ _ _ _ _ Hnd Hc)).
Defined.

Lemma directions_run :
  exists verts directions g',
    get_directions initial_globals wire_edge_mesh
      [BMVert 0; BMEdge 0; BMVert 1]
      (normalized (vadd (vadd X_UP Y_UP) Z_UP_initial))
      Ref_Z_UP None (mk_options false false false (1 / 10000))
    = Ok (verts, directions, g').
Proof.
  do 3 eexists. unfold get_directions. dd_eval. reflexivity.
Qed.

Lemma get_directions_lengths_witness :
  exists verts directions g',
    get_directions initial_globals wire_edge_mesh
      [BMVert 0; BMEdge 0; BMVert 1]
      (normalized (vadd (vadd X_UP Y_UP) Z_UP_initial))
      Ref_Z_UP None (mk_options false false false (1 / 10000))
    = Ok (verts, directions, g')
    /\ length verts = length directions.
Proof.
  destruct directions_run as (verts & directions & g' & H).
  exists verts, directions, g'. split; [exact H|].
  exact (get_directions_lengths _ _ _ _ _ _ _ _ _ _ H).
Defined.

Lemma reorder_loop_run :
  reorder_loop initial_globals drift_mesh [2; 3]%nat [1%nat] Ref_Z_UP [Some 0%nat]
  = Ok ([2; 3]%nat, [1%nat],
        (mk_globals (vscale (-1) Z_UP_initial), Ref_Z_UP), [Some 0%nat]).
Proof.
  unfold reorder_loop. simpl. unfold py_index. simpl. r_eval. reflexivity.
Qed.

Lemma reorder_loop_orientation_witness :
  reorder_loop initial_globals drift_mesh [2; 3]%nat [1%nat] Ref_Z_UP [Some 0%nat]
  = Ok ([2; 3]%nat, [1%nat],
        (mk_globals (vscale (-1) Z_UP_initial), Ref_Z_UP), [Some 0%nat])
  /\ (deref (mk_globals (vscale (-1) Z_UP_initial)) Ref_Z_UP
      = deref initial_globals Ref_Z_UP
      \/ deref (mk_globals (vscale (-1) Z_UP_initial)) Ref_Z_UP
         = vscale (-1) (deref initial_globals Ref_Z_UP)).
Proof.
  split; [exact reorder_loop_run|].
  exact (proj1 (proj2 (reorder_loop_orientation _ _ _ _ _ _ _ _ _ _ _
                         reorder_loop_run))).
Defined.

Lemma fan_execute :
  execute fan_context
  = Ok (CANCELLED,
        mk_context (report Overlap_detected default_operator) initial_globals
                   (mk_object identity_matrix [] fan_mesh)).
Proof. reflexivity. Qed.

Lemma fan_execute_in_mode :
  execute_in_mode EDIT fan_context
  = Ok (CANCELLED,
        mk_context (report Overlap_detected default_operator) initial_globals
                   (mk_object identity_matrix [] fan_mesh),
        OBJECT).
Proof. unfold execute_in_mode. rewrite fan_execute. reflexivity. Qed.

Lemma execute_cancelled_leaves_object_mode_witness :
  execute_in_mode EDIT fan_context
  = Ok (CANCELLED,
        mk_context (report Overlap_detected default_operator) initial_globals
                   (mk_object identity_matrix [] fan_mesh),
        OBJECT)
  /\ OBJECT = editmode_toggle EDIT
  /\ edit_object (mk_context (report Overlap_detected default_operator)
                    initial_globals (mk_object identity_matrix [] fan_mesh))
     = edit_object fan_context.
Proof.
  split; [exact fan_execute_in_mode|].
  pose proof (execute_cancelled_leaves_object_mode _ _ _ _ fan_execute_in_mode)
    as (Hm & _ & Hob & _).
  split; [exact Hm|exact Hob].
Defined.

Lemma modal_running_keeps_snapshot_witness :
  modal drift_ctx1 (MOUSEMOVE 10 0) = Ok (RUNNING_MODAL, drift_ctx2)
  /\ bm_orig (self_ drift_ctx2) = bm_orig (self_ drift_ctx1).
Proof.
  split; [exact drift_first_update|].
  exact (proj1 (modal_running_keeps_snapshot _ _ _ drift_first_update)).
Defined.

Lemma modal_cancelled_restores_snapshot_witness :
  exists ctx',
    modal drift_ctx2 ESC = Ok (CANCELLED, ctx')
    /\ exists bm, bm_orig (self_ drift_ctx2) = Some bm
                  /\ data (edit_object ctx') = to_mesh bm.
Proof.
  eexists.
  match goal with
  | |- ?H /\ _ => assert (Hc : H) by reflexivity
  end.
  split; [exact Hc|].
  destruct (modal_cancelled_restores_snapshot _ _ _ Hc) as (bm & H1 & H2 & _).
  exists bm. split; assumption.
Defined.

Lemma cancel_restores_mesh_witness :
  exists ctx3,
    invoke drift_context true (0, 0) = Ok (RUNNING_MODAL, drift_ctx1)
    /\ drags drift_ctx1 drift_ctx2
    /\ modal drift_ctx2 ESC = Ok (CANCELLED, ctx3)
    /\ data (edit_object ctx3) = from_mesh (data (edit_object drift_context)).
Proof.
  assert (Hd : drags drift_ctx1 drift_ctx2).
  { eapply drags_step; [exact drift_first_update|apply drags_none]. }
  eexists.
  split; [exact drift_invoke|]. split; [exact Hd|].
  match goal with
  | |- ?H /\ _ => assert (Hc : H) by reflexivity
  end.
  split; [exact Hc|].
  exact (proj1 (cancel_restores_mesh _ _ _ _ _ _ drift_invoke Hd Hc)).
Defined.

Lemma drift_infos :
  exists infos edges self1 g1,
    get_offset_infos (self_ drift_context) initial_globals (from_mesh drift_mesh)
      (edit_object drift_context)
    = Ok (INFOS infos edges, self1, g1).
Proof.
  do 4 eexists. unfold get_offset_infos, drift_context. d_eval. reflexivity.
Qed.

Lemma cache_replay_on_same_answer_witness :
  exists infos edges self1 g1,
    get_offset_infos (self_ drift_context) initial_globals (from_mesh drift_mesh)
      (edit_object drift_context)
    = Ok (INFOS infos edges, self1, g1)
    /\ do_offset_and_free self1 (bm_copy (from_mesh drift_mesh)) None None
       = do_offset_and_free self1 (from_mesh drift_mesh) (Some infos) (Some edges).
Proof.
  destruct drift_infos as (infos & edges & self1 & g1 & H).
  exists infos, edges, self1, g1. split; [exact H|].
  exact (cache_replay_on_same_answer _ _ _ _ _ _ _ _ H).
Defined.

Lemma get_normals_up_witness :
  get_normals wire_edge_mesh Z_UP_initial 0 0 None = Ok (Z_UP_initial, None, None)
  /\ (Z_UP_initial = Z_UP_initial \/ None = Some Z_UP_initial
      \/ None = Some Z_UP_initial \/ length_v Z_UP_initial = 1).
Proof.
  assert (Hrun : get_normals wire_edge_mesh Z_UP_initial 0 0 None
                 = Ok (Z_UP_initial, None, None)) by reflexivity.
  split; [exact Hrun|].
  exact (proj1 (get_normals_up _ _ _ _ _ _ _ _ Hrun)).
Defined.

(** ** Selection after the operation *)

Lemma nth_error_map_indexed' {A : Type} (F : nat -> A -> A) (l : list A) (k : nat) :
  nth_error (map_indexed F l) k = option_map (F k) (nth_error l k).
Proof. apply nth_error_map_indexed. Qed.

Lemma face_store_deselect_face (bm bm' : BMesh) (f : nat) :
  deselect_face bm f = Ok bm' ->
  forall g, nth_error (face_store bm') g
            = if (Nat.eqb f g && face_visible bm f)%bool
              then option_map (with_f_select false) (nth_error (face_store bm) g)
              else nth_error (face_store bm) g.
Proof.
  unfold deselect_face, face_visible. intros H g.
  destruct (get_face bm f) as [fd| |] eqn:G; cbn [bind] in H; try discriminate.
  pose proof (get_face_nth _ _ _ G) as Hn. rewrite Hn.
  assert (Hv : f_valid fd = true).
  { unfold get_face in G. rewrite Hn in G. now destruct (f_valid fd). }
  rewrite Hv. cbn [andb].
  destruct (f_hide fd); cbn [negb].
  - injection H as <-. now rewrite andb_false_r.
  - injection H as <-. unfold update_face. cbn [face_store].
    rewrite nth_error_update_nth, andb_true_r. reflexivity.
Qed.

Lemma face_visible_deselect_face (bm bm' : BMesh) (f : nat) :
  deselect_face bm f = Ok bm' -> forall g, face_visible bm' g = face_visible bm g.
Proof.
  intros H g. unfold face_visible at 1. unfold face_visible at 1.
  rewrite (face_store_deselect_face _ _ _ H g).
  destruct (Nat.eqb f g && face_visible bm f)%bool; [|reflexivity].
  now destruct (nth_error (face_store bm) g).
Qed.

Lemma face_in_selection_deselect_face (bm bm' : BMesh) (f : nat) :
  deselect_face bm f = Ok bm' ->
  forall g, face_in_selection bm' g
            = (negb (Nat.eqb f g && face_visible bm f) && face_in_selection bm g)%bool.
Proof.
  intros H g. unfold face_in_selection.
  rewrite (face_store_deselect_face _ _ _ H g).
  destruct (Nat.eqb f g && face_visible bm f)%bool; cbn [negb andb]; [|reflexivity].
  destruct (nth_error (face_store bm) g) as [d|]; [|reflexivity].
  simpl. apply andb_false_r.
Qed.

Lemma edge_store_deselect_face (bm bm' : BMesh) (f : nat) :
  deselect_face bm f = Ok bm' ->
  forall e,
    nth_error (edge_store bm') e
    = option_map
        (fun d =>
           if (face_visible bm f && e_valid d && negb (e_hide d)
               && mem f (e_link_faces d)
               && negb (existsb (face_in_selection bm') (e_link_faces d)))%bool
           then with_e_select false d else d)
        (nth_error (edge_store bm) e).
Proof.
  intros H e. unfold deselect_face in H.
  destruct (get_face bm f) as [fd| |] eqn:G; cbn [bind] in H; try discriminate.
  pose proof (get_face_nth _ _ _ G) as Hn.
  assert (Hv : f_valid fd = true).
  { unfold get_face in G. rewrite Hn in G. now destruct (f_valid fd). }
  assert (Hvis : face_visible bm f = negb (f_hide fd)).
  { unfold face_visible. now rewrite Hn, Hv. }
  rewrite Hvis. destruct (f_hide fd); cbn [negb andb].
  - injection H as <-. now destruct (nth_error (edge_store bm) e).
  - injection H as <-. cbn [edge_store].
    rewrite nth_error_map_indexed'. unfold update_face. cbn [edge_store].
    now destruct (nth_error (edge_store bm) e).
Qed.

Lemma deselect_face_edge_fields (bm bm' : BMesh) (f e : nat) (d : edge_data) :
  deselect_face bm f = Ok bm' ->
  nth_error (edge_store bm) e = Some d ->
  exists d',
    nth_error (edge_store bm') e = Some d'
    /\ e_verts d' = e_verts d /\ e_link_faces d' = e_link_faces d
    /\ e_valid d' = e_valid d /\ e_hide d' = e_hide d
    /\ (e_select d' = true -> e_select d = true)
    /\ (face_visible bm f = true -> e_valid d = true -> e_hide d = false ->
        In f (e_link_faces d) ->
        (forall g, In g (e_link_faces d) -> face_in_selection bm' g = false) ->
        e_select d' = false).
Proof.
  intros H Hn. pose proof (edge_store_deselect_face _ _ _ H e) as He.
  rewrite Hn in He. cbn [option_map] in He.
  eexists. split; [exact He|].
  match goal with |- context [if ?c then _ else _] => destruct c eqn:C end.
  - repeat split; try reflexivity; try discriminate.
  - repeat split; auto.
    intros Hvis Hv Hh Hin Hnone. exfalso.
    rewrite Hvis, Hv, Hh in C. cbn [andb negb] in C.
    assert (M : mem f (e_link_faces d) = true) by (now apply mem_In).
    rewrite M in C. cbn [andb] in C.
    assert (E : existsb (face_in_selection bm') (e_link_faces d) = false).
    { apply not_true_is_false. intro E. apply existsb_exists in E.
      destruct E as (g & Hg & Hs). rewrite (Hnone g Hg) in Hs. discriminate. }
    rewrite E in C. discriminate.
Qed.

Lemma deselect_faces_edge_mono (fs : list nat) :
  forall bm bm' e,
    foldM deselect_face bm fs = Ok bm' ->
    edge_selected bm e = false -> edge_selected bm' e = false.
Proof.
  induction fs as [|f fs IH]; intros bm bm' e H Hs; cbn [foldM] in H.
  - now injection H as <-.
  - destruct (deselect_face bm f) as [bm1| |] eqn:D; cbn [bind] in H;
      try discriminate.
    apply (IH _ _ _ H). revert Hs. unfold edge_selected.
    destruct (nth_error (edge_store bm) e) as [d|] eqn:Hn.
    + destruct (deselect_face_edge_fields _ _ _ _ _ D Hn)
        as (d' & -> & _ & _ & _ & _ & Hm & _).
      intro Hs. destruct (e_select d'); [|reflexivity].
      rewrite (Hm eq_refl) in Hs. discriminate.
    + intros _. rewrite (edge_store_deselect_face _ _ _ D e), Hn. reflexivity.
Qed.

Lemma deselect_faces_clear_edge (fs : list nat) :
  forall bm bm' e d,
    foldM deselect_face bm fs = Ok bm' ->
    nth_error (edge_store bm) e = Some d ->
    e_valid d = true -> e_hide d = false ->
    (exists f, In f fs /\ In f (e_link_faces d) /\ face_visible bm f = true) ->
    (forall g, In g (e_link_faces d) -> face_in_selection bm g = true ->
               In g fs /\ face_visible bm g = true) ->
    edge_selected bm' e = false.
Proof.
  induction fs as [|f rest IH]; intros bm bm' e d H Hn Hv Hh Hex Hall;
    cbn [foldM] in H.
  - destruct Hex as (f & [] & _).
  - destruct (deselect_face bm f) as [bm1| |] eqn:D; cbn [bind] in H;
      try discriminate.
    destruct (deselect_face_edge_fields _ _ _ _ _ D Hn)
      as (d1 & Hn1 & _ & Hl1 & Hv1 & Hh1 & _ & Hclear).
    assert (Hsel1 : forall g, In g (e_link_faces d) ->
                              face_in_selection bm1 g = true ->
                              In g rest /\ face_visible bm g = true).
    { intros g Hg Hs. rewrite (face_in_selection_deselect_face _ _ _ D g) in Hs.
      apply andb_true_iff in Hs. destruct Hs as [Hne Hs].
      destruct (Hall g Hg Hs) as [[<-|Hin] Hvis]; [|now split].
      rewrite Nat.eqb_refl, Hvis in Hne. discriminate. }
    destruct (existsb (fun f' => mem f' (e_link_faces d) && face_visible bm f')%bool
                      rest) eqn:Ex.
    + apply existsb_exists in Ex. destruct Ex as (f' & Hin & Hc).
      apply andb_true_iff in Hc. destruct Hc as [Hm Hvis]. apply mem_In in Hm.
      apply (IH bm1 bm' e d1 H Hn1); try congruence.
      * exists f'. rewrite Hl1, (face_visible_deselect_face _ _ _ D). auto.
      * intros g Hg Hs. rewrite Hl1 in Hg.
        rewrite (face_visible_deselect_face _ _ _ D). now apply Hsel1.
    + assert (Hnone : forall g, In g (e_link_faces d) ->
                                face_in_selection bm1 g = false).
      { intros g Hg. apply not_true_is_false. intro Hs.
        destruct (Hsel1 g Hg Hs) as [Hin Hvis].
        assert (T : existsb (fun f' => mem f' (e_link_faces d)
                                       && face_visible bm f')%bool rest = true).
        { apply existsb_exists. exists g. split; [assumption|].
          apply andb_true_iff. split; [now apply mem_In|assumption]. }
        congruence. }
      assert (Hf : In f (e_link_faces d) /\ face_visible bm f = true).
      { destruct Hex as (f0 & [<-|Hin] & Hl & Hvis); [now split|].
        exfalso.
        assert (T : existsb (fun f' => mem f' (e_link_faces d)
                                       && face_visible bm f')%bool rest = true).
        { apply existsb_exists. exists f0. split; [assumption|].
          apply andb_true_iff. split; [now apply mem_In|assumption]. }
        congruence. }
      destruct Hf as [Hfl Hfv].
      apply (deselect_faces_edge_mono _ _ _ _ H).
      unfold edge_selected. rewrite Hn1. now apply Hclear.
Qed.

Lemma select_edge_stores (bm bm' : BMesh) (e : nat) :
  select_elem bm (BMEdge e) = Ok bm' ->
  face_store bm' = face_store bm
  /\ forall x,
       nth_error (edge_store bm') x
       = if (Nat.eqb e x
             && match nth_error (edge_store bm) e with
                | Some d => negb (e_hide d)
                | None => false
                end)%bool
         then option_map (with_e_select true) (nth_error (edge_store bm) x)
         else nth_error (edge_store bm) x.
Proof.
  unfold select_elem. intro H.
  destruct (get_edge bm e) as [ed| |] eqn:G; cbn [bind] in H; try discriminate.
  rewrite (get_edge_nth _ _ _ G).
  destruct (e_hide ed); cbn [negb].
  - injection H as <-. split; [reflexivity|]. intro x. now rewrite andb_false_r.
  - destruct (e_verts ed) as [v1 v2]. injection H as <-.
    split; [reflexivity|]. intro x. unfold update_vert, update_edge.
    cbn [edge_store]. rewrite nth_error_update_nth, andb_true_r. reflexivity.
Qed.

Lemma select_edges_flags (es : list nat) :
  forall bm bm',
    foldM select_elem bm (map BMEdge es) = Ok bm' ->
    forall x,
      (~ In x es -> edge_selected bm' x = edge_selected bm x)
      /\ (edge_selected bm x = true -> edge_selected bm' x = true)
      /\ (In x es ->
          (forall d, nth_error (edge_store bm) x = Some d -> e_hide d = false) ->
          edge_selected bm' x = true).
Proof.
  induction es as [|e es IH]; intros bm bm' H x; cbn [map foldM] in H.
  - injection H as <-. split; [auto|]. split; [auto|]. intros [].
  - destruct (select_elem bm (BMEdge e)) as [bm1| |] eqn:S; cbn [bind] in H;
      try discriminate.
    destruct (select_edge_stores _ _ _ S) as [_ He].
    destruct (IH _ _ H x) as (Hout & Hmono & Hin).
    assert (Hmono1 : edge_selected bm x = true -> edge_selected bm1 x = true).
    { unfold edge_selected. rewrite (He x).
      destruct (Nat.eqb e x && _)%bool; [|auto].
      now destruct (nth_error (edge_store bm) x). }
    split; [|split].
    + intro Hn. rewrite Hout by (intro; apply Hn; now right).
      unfold edge_selected. rewrite (He x).
      destruct (Nat.eqb_spec e x) as [->|Hne]; [exfalso; apply Hn; now left|].
      reflexivity.
    + auto.
    + intros [<-|Hx] Hh.
      * apply Hmono. unfold edge_selected. rewrite (He e), Nat.eqb_refl.
        unfold select_elem in S.
        destruct (get_edge bm e) as [ed| |] eqn:G; cbn [bind] in S; try discriminate.
        rewrite (get_edge_nth _ _ _ G). rewrite (Hh ed (get_edge_nth _ _ _ G)).
        reflexivity.
      * destruct (Nat.eqb_spec e x) as [->|Hne].
        -- apply Hmono. unfold edge_selected. rewrite (He x), Nat.eqb_refl.
           unfold select_elem in S.
           destruct (get_edge bm x) as [ed| |] eqn:G; cbn [bind] in S;
             try discriminate.
           rewrite (get_edge_nth _ _ _ G). rewrite (Hh ed (get_edge_nth _ _ _ G)).
           reflexivity.
        -- apply Hin; [assumption|]. intros d Hd. apply Hh.
           rewrite (He x) in Hd. apply Nat.eqb_neq in Hne. now rewrite Hne in Hd.
Qed.

Lemma deselect_faces_edge_fields (fs : list nat) :
  forall bm bm' e d,
    foldM deselect_face bm fs = Ok bm' ->
    nth_error (edge_store bm) e = Some d ->
    exists d', nth_error (edge_store bm') e = Some d' /\ e_hide d' = e_hide d.
Proof.
  induction fs as [|f fs IH]; intros bm bm' e d H Hn; cbn [foldM] in H.
  - injection H as <-. eauto.
  - destruct (deselect_face bm f) as [bm1| |] eqn:D; cbn [bind] in H;
      try discriminate.
    destruct (deselect_face_edge_fields _ _ _ _ _ D Hn)
      as (d1 & Hn1 & _ & _ & _ & Hh1 & _).
    destruct (IH _ _ _ _ H Hn1) as (d' & Hn' & Hh').
    exists d'. split; [assumption|congruence].
Qed.

Lemma add_co_stores (bm bm' : BMesh) (v : nat) (c : Vector) :
  add_co bm v c = Ok bm' ->
  edge_store bm' = edge_store bm /\ face_store bm' = face_store bm.
Proof.
  unfold add_co. destruct (get_vert bm v); cbn [bind]; try discriminate.
  intro H. injection H as <-. split; reflexivity.
Qed.

Lemma move_verts_stores (bm bm' : BMesh) (w d : R) (verts : list nat)
    (directions : list (Vector * Vector)) (geom_ex : option geom_t) :
  move_verts bm w d verts directions geom_ex = Ok bm' ->
  edge_store bm' = edge_store bm /\ face_store bm' = face_store bm.
Proof.
  unfold move_verts. intro H. bind_inv H. clear E. revert bm H.
  generalize (combine a directions). intro l.
  induction l as [|[[v|] [t u]] l IH]; intros bm H; cbn [foldM] in H.
  - injection H as <-. split; reflexivity.
  - destruct (add_co bm v _) as [bm1| |] eqn:A; cbn [bind] in H; try discriminate.
    apply add_co_stores in A. destruct A as [A1 A2].
    destruct (IH _ H) as [-> ->]. now split.
  - discriminate.
Qed.

Lemma move_all_stores (w d : R) (geom_ex : option geom_t)
    (vds : list (list nat * list (Vector * Vector))) :
  forall bm bm',
    foldM (fun bm '(verts, directions) =>
             move_verts bm w d verts directions geom_ex) bm vds = Ok bm' ->
    edge_store bm' = edge_store bm /\ face_store bm' = face_store bm.
Proof.
  induction vds as [|[vs ds] vds IH]; intros bm bm' H; cbn [foldM] in H.
  - injection H as <-. split; reflexivity.
  - destruct (move_verts bm w d vs ds geom_ex) as [bm1| |] eqn:M;
      cbn [bind] in H; try discriminate.
    apply move_verts_stores in M. destruct M as [M1 M2].
    destruct (IH _ _ H) as [-> ->]. now split.
Qed.

Lemma index_of_nth (x : nat) (l : list nat) :
  In x l -> nth_error l (index_of x l) = Some x /\ (index_of x l < length l)%nat.
Proof.
  induction l as [|y l IH]; simpl; [intros []|].
  intro H. destruct (Nat.eqb_spec x y) as [->|Hne].
  - split; [reflexivity|lia].
  - destruct H as [->|H]; [contradiction|].
    destruct (IH H) as [Hn Hl]. split; [exact Hn|lia].
Qed.

Lemma py_slice_middle {A : Type} (a b c : list A) :
  py_slice (a ++ b ++ c) (Z.of_nat (length a))
           (Z.of_nat (length a) + Z.of_nat (length b)) = b.
Proof.
  unfold py_slice, py_clamp. rewrite !length_app.
  replace (Z.of_nat (length a) <? 0)%Z with false by (symmetry; apply Z.ltb_ge; lia).
  replace (Z.of_nat (length a) + Z.of_nat (length b) <? 0)%Z with false
    by (symmetry; apply Z.ltb_ge; lia).
  cbv zeta.
  replace (Z.max 0 (Z.min (Z.of_nat (length a + (length b + length c)))
                          (Z.of_nat (length a))))
    with (Z.of_nat (length a)) by lia.
  replace (Z.max 0 (Z.min (Z.of_nat (length a + (length b + length c)))
                          (Z.of_nat (length a) + Z.of_nat (length b))))
    with (Z.of_nat (length a) + Z.of_nat (length b))%Z by lia.
  replace (Z.to_nat (Z.of_nat (length a) + Z.of_nat (length b) - Z.of_nat (length a)))
    with (length b) by lia.
  rewrite Nat2Z.id.
  rewrite skipn_app, skipn_all, Nat.sub_diag. cbn [skipn app].
  rewrite firstn_app, firstn_all, Nat.sub_diag. cbn [firstn]. apply app_nil_r.
Qed.

Lemma elem_set_of_list_In (x : BMElem) (l : list BMElem) :
  In x (elem_set_of_list l) -> In x l.
Proof.
  unfold elem_set_of_list.
  assert (H : forall acc, In x (fold_left (fun s y => if elem_mem y s then s
                                                      else s ++ [y]) l acc) ->
                          In x acc \/ In x l).
  { induction l as [|y l IH]; intros acc; simpl; [auto|].
    intro Hx. apply IH in Hx. destruct Hx as [Hx|Hx]; [|auto].
    destruct (elem_mem y acc); [auto|].
    apply in_app_or in Hx. destruct Hx as [Hx|[<-|[]]]; auto. }
  intro Hx. destruct (H [] Hx) as [[]|]; assumption.
Qed.

Lemma extruded_edges_length (bm : BMesh) (edges : list nat) :
  NoDup edges ->
  (forall e, In e edges -> exists d, get_edge bm e = Ok d) ->
  length (filter (fun e => mem e edges) (bm_edges bm)) = length edges
  /\ forall e, In e (filter (fun e => mem e edges) (bm_edges bm)) <-> In e edges.
Proof.
  intros Hnd Hval.
  assert (Hiff : forall e, In e (filter (fun e => mem e edges) (bm_edges bm))
                           <-> In e edges).
  { intro e. rewrite filter_In, mem_In, bm_edges_valid. split; [tauto|].
    intro H. split; [now apply Hval|assumption]. }
  split; [|exact Hiff].
  apply Permutation_length. apply NoDup_Permutation; [|assumption|exact Hiff].
  apply NoDup_filter. apply valid_addresses_NoDup.
Qed.

Lemma mapM_get_edge_valid (bm : BMesh) (edges : list nat) (l : list edge_data) :
  mapM (get_edge bm) edges = Ok l ->
  forall e, In e edges -> exists d, get_edge bm e = Ok d.
Proof.
  revert l. induction edges as [|e0 edges IH]; intros l H e; cbn [mapM] in H.
  - intros [].
  - bind_inv H. bind_inv H. intros [<-|Hin]; [eauto|]. eapply IH; eauto.
Qed.

Lemma nth_error_map_pairs {A : Type} (F : nat -> A -> A) (l rest : list A)
    (k : nat) (d : A) :
  nth_error l k = Some d ->
  nth_error (map (fun '(i, x) => F i x) (combine (seq 0 (length l)) l) ++ rest) k
  = Some (F k d).
Proof.
  intro H.
  assert (Hk : (k < length l)%nat) by (apply nth_error_Some; congruence).
  rewrite nth_error_app1
    by (rewrite length_map, length_combine, length_seq; lia).
  rewrite (map_ext _ (fun p => F (fst p) (snd p))) by (now intros [i x]).
  rewrite nth_error_map_indexed, H. reflexivity.
Qed.

Lemma nth_error_mid {A B : Type} (G : B -> A) (l1 l3 : list A) (es : list B)
    (n i : nat) (e : B) :
  length l1 = n ->
  nth_error es i = Some e ->
  nth_error (l1 ++ map G es ++ l3) (n + i) = Some (G e).
Proof.
  intros <- H.
  assert (Hi : (i < length es)%nat) by (apply nth_error_Some; congruence).
  rewrite nth_error_app2 by lia.
  replace (length l1 + i - length l1)%nat with i by lia.
  rewrite nth_error_app1 by (rewrite length_map; lia).
  rewrite nth_error_map, H. reflexivity.
Qed.

Lemma extrude_edge_only_spec (bm bm1 : BMesh) (edges : list nat)
    (extruded : list BMElem) :
  NoDup edges ->
  extrude_edge_only bm edges = Ok (bm1, extruded) ->
  let ne := length (edge_store bm) in
  let nf := length (face_store bm) in
  (forall e, In e edges ->
             exists d q,
               get_edge bm e = Ok d
               /\ nth_error (edge_store bm1) e
                  = Some (with_e_link_faces (e_link_faces d ++ [q]) d)
               /\ (nf <= q)%nat /\ face_visible bm1 q = true)
  /\ (forall g, (g < nf)%nat ->
                nth_error (face_store bm1) g = nth_error (face_store bm) g)
  /\ (forall g, (nf <= g)%nat -> face_in_selection bm1 g = false)
  /\ exists a b c,
       extruded = a ++ map BMEdge b ++ c
       /\ length b = length edges /\ length c = length edges
       /\ forall x, In x b ->
                    (ne <= x)%nat
                    /\ exists e0 d0 dx,
                         In e0 edges /\ get_edge bm e0 = Ok d0
                         /\ nth_error (edge_store bm1) x = Some dx
                         /\ e_hide dx = e_hide d0.
Proof.
  intros Hnd H. unfold extrude_edge_only in H. bind_inv H.
  pose proof (mapM_get_edge_valid _ _ _ E) as Hval. clear E a.
  destruct (extruded_edges_length bm edges Hnd Hval) as [Hlen Hiff].
  set (es := filter (fun e => mem e edges) (bm_edges bm)) in *.
  cbv zeta in H. injection H as <- <-. cbv zeta.
  unfold face_visible, face_in_selection. cbn [edge_store face_store].
  split; [|split; [|split]].
  - intros e He. destruct (Hval e He) as (d & G). exists d.
    exists (length (face_store bm) + index_of e es)%nat.
    split; [exact G|].
    pose proof (get_edge_nth _ _ _ G) as Hn.
    assert (Hes : In e es) by (now apply Hiff).
    destruct (index_of_nth e es Hes) as [Hix Hlt].
    split; [|split; [lia|]].
    + rewrite (nth_error_map_pairs
                 (fun e0 d0 =>
                    if mem e0 es
                    then with_e_link_faces
                           (e_link_faces d0
                              ++ [(length (face_store bm) + index_of e0 es)%nat]) d0
                    else d0) _ _ e d Hn).
      assert (M : mem e es = true) by (now apply mem_In).
      now rewrite M.
    + rewrite nth_error_app2 by lia.
      replace (length (face_store bm) + index_of e es - length (face_store bm))%nat
        with (index_of e es) by lia.
      rewrite nth_error_map, Hix. cbn [option_map]. rewrite Hn.
      destruct (e_verts d). reflexivity.
  - intros g Hg. now rewrite nth_error_app1.
  - intros g Hg. rewrite nth_error_app2 by lia. rewrite nth_error_map.
    destruct (nth_error es _) as [e|]; [|reflexivity]. cbn [option_map].
    destruct (nth_error (edge_store bm) e) as [d|]; [|reflexivity].
    destruct (e_verts d). reflexivity.
  - eexists _, (map (fun e => (length (edge_store bm) + index_of e es)%nat) es), _.
    split; [reflexivity|]. rewrite !length_map.
    split; [exact Hlen|]. split; [exact Hlen|].
    intros x Hx. apply in_map_iff in Hx. destruct Hx as (e0 & <- & He0).
    split; [lia|].
    assert (He : In e0 edges) by (now apply Hiff).
    destruct (Hval e0 He) as (d0 & G).
    pose proof (get_edge_nth _ _ _ G) as Hn.
    destruct (index_of_nth e0 es He0) as [Hix Hlt].
    exists e0, d0. eexists. split; [exact He|]. split; [exact G|].
    split.
    + apply nth_error_mid; [|exact Hix].
      rewrite length_map, length_combine, length_seq. lia.
    + cbv beta. rewrite Hn. reflexivity.
Qed.

Lemma all_edges_map (l : list BMElem) :
  (forall el, In el l -> exists x, el = BMEdge x) ->
  exists xs, l = map BMEdge xs.
Proof.
  induction l as [|el l IH]; intro H.
  - exists []. reflexivity.
  - destruct (H el (or_introl eq_refl)) as (x & ->).
    destruct IH as (xs & ->); [intros; apply H; now right|].
    exists (x :: xs). reflexivity.
Qed.

Lemma extrude_edges_spec (bm bm1 : BMesh) (edges : list nat) (geom : geom_t) :
  NoDup edges ->
  extrude_edges bm edges = Ok (bm1, geom) ->
  exists extruded,
    extrude_edge_only bm edges = Ok (bm1, extruded)
    /\ forall el, In el (geom_edges geom) ->
                  exists x,
                    el = BMEdge x /\ (length (edge_store bm) <= x)%nat
                    /\ exists e0 d0 dx,
                         In e0 edges /\ get_edge bm e0 = Ok d0
                         /\ nth_error (edge_store bm1) x = Some dx
                         /\ e_hide dx = e_hide d0.
Proof.
  intros Hnd H. unfold extrude_edges in H. bind_inv H.
  destruct a as [bm1' extruded]. cbv zeta in H. bind_inv H.
  injection H as <- <-. exists extruded. split; [reflexivity|].
  destruct (extrude_edge_only_spec _ _ _ _ Hnd E) as (_ & _ & _ & Hex).
  cbv zeta in Hex. destruct Hex as (xa & xb & xc & -> & Hb & Hc & Hx).
  cbn [geom_edges]. intros el Hel. apply elem_set_of_list_In in Hel.
  replace (Z.of_nat (length (xa ++ map BMEdge xb ++ xc))
           - Z.of_nat (length edges) - Z.of_nat (length edges))%Z
    with (Z.of_nat (length xa)) in Hel
    by (rewrite !length_app, length_map; lia).
  replace (Z.of_nat (length edges)) with (Z.of_nat (length (map BMEdge xb))) in Hel
    by (rewrite length_map; lia).
  rewrite py_slice_middle in Hel.
  apply in_map_iff in Hel. destruct Hel as (x & <- & Hin).
  exists x. split; [reflexivity|]. now apply Hx.
Qed.


Lemma face_flags_ext (bm bm' : BMesh) (g : nat) :
  nth_error (face_store bm') g = nth_error (face_store bm) g ->
  face_visible bm' g = face_visible bm g
  /\ face_in_selection bm' g = face_in_selection bm g.
Proof. unfold face_visible, face_in_selection. now intros ->. Qed.

Lemma edge_selected_ext (bm bm' : BMesh) (e : nat) :
  edge_store bm' = edge_store bm -> edge_selected bm' e = edge_selected bm e.
Proof. unfold edge_selected. now intros ->. Qed.

Lemma face_visible_In (bm : BMesh) (f : nat) :
  face_visible bm f = true -> In f (bm_faces bm).
Proof.
  unfold face_visible, bm_faces. intro H. apply valid_addresses_In.
  destruct (nth_error (face_store bm) f) as [d|]; [|discriminate].
  apply andb_prop in H. exists d. tauto.
Qed.

Lemma clean_selection (bm bm' : BMesh) (mode : geometry_mode_t)
    (edges_orig : list nat) (geom : geom_t) (xs : list nat) :
  geom_edges geom = map BMEdge xs ->
  clean bm mode edges_orig (Some geom) = Ok bm' ->
  (forall x, In x xs ->
             exists d, nth_error (edge_store bm) x = Some d /\ e_hide d = false)
  -> (forall x, In x xs -> edge_selected bm' x = true)
     /\ (forall e d,
           ~ In e xs ->
           nth_error (edge_store bm) e = Some d ->
           e_valid d = true -> e_hide d = false ->
           (exists f, In f (e_link_faces d) /\ face_visible bm f = true) ->
           (forall g, In g (e_link_faces d) -> face_in_selection bm g = true ->
                      face_visible bm g = true) ->
           edge_selected bm' e = false).
Proof.
  intros Hxs H Hnew. unfold clean in H. bind_inv H. rename a into bm3.
  rewrite Hxs in H. bind_inv H. rename a into bm4.
  assert (Hdel : forall e, edge_selected bm' e = edge_selected bm4 e).
  { destruct mode.
    - apply (bmesh_ops_delete_edge_flags _ _ _ H).
    - now injection H as <-.
    - now injection H as <-. }
  split.
  - intros x Hx. rewrite Hdel.
    destruct (Hnew x Hx) as (d & Hd & Hh).
    destruct (deselect_faces_edge_fields _ _ _ _ _ E Hd) as (d' & Hd' & Hh').
    apply (proj2 (proj2 (select_edges_flags _ _ _ E0 x))); [assumption|].
    intros d0 Hd0. congruence.
  - intros e d Hne Hd Hv Hh (f & Hf & Hvis) Hsel. rewrite Hdel.
    rewrite (proj1 (select_edges_flags _ _ _ E0 e) Hne).
    apply (deselect_faces_clear_edge _ _ _ _ _ E Hd Hv Hh).
    + exists f. split; [now apply face_visible_In|]. now split.
    + intros g Hg Hs. pose proof (Hsel g Hg Hs) as Hvg.
      split; [now apply face_visible_In|assumption].
Qed.


Lemma do_offset_selection (self self' : OffsetEdges) (bm me : BMesh)
    (infos : offset_infos_t) (edges : list nat) :
  geometry_mode self <> move ->
  NoDup edges ->
  (forall e, In e edges -> exists d, get_edge bm e = Ok d /\ e_hide d = false) ->
  (forall g, face_in_selection bm g = true -> face_visible bm g = true) ->
  do_offset_and_free self bm (Some infos) (Some edges) = Ok (self', me) ->
  exists bm1 geom,
    extrude_edges bm edges = Ok (bm1, geom)
    /\ (forall e, In (BMEdge e) (geom_edges geom) -> edge_selected me e = true)
    /\ (forall e, In e edges -> edge_selected me e = false).
Proof.
  intros Hmode Hnd Hedges Hfaces H. unfold do_offset_and_free in H.
  cbn [bind] in H.
  match type of H with
  | (let (a, b) := ?p in @?f a b) = _ => destruct p as [w dp]
  end.
  assert (Hex : exists bm1 geom, extrude_edges bm edges = Ok (bm1, geom)
                /\ exists bm2, 
                     foldM (fun bm '(verts, directions) =>
                              move_verts bm w dp verts directions (Some geom))
                           bm1 infos = Ok bm2
                     /\ clean bm2 (geometry_mode self) edges (Some geom) = Ok me).
  { destruct (geometry_mode self) eqn:M; [| |congruence].
    - destruct (extrude_edges bm edges) as [[bm1 geom]| |]; cbn [bind] in H;
        try discriminate.
      exists bm1, geom. split; [reflexivity|].
      bind_inv H. bind_inv H. injection H as _ <-. unfold to_mesh. eauto.
    - destruct (extrude_edges bm edges) as [[bm1 geom]| |]; cbn [bind] in H;
        try discriminate.
      exists bm1, geom. split; [reflexivity|].
      bind_inv H. bind_inv H. injection H as _ <-. unfold to_mesh. eauto. }
  clear H. destruct Hex as (bm1 & geom & Hext & bm2 & Hmove & Hclean).
  exists bm1, geom. split; [assumption|].
  destruct (extrude_edges_spec _ _ _ _ Hnd Hext) as (extruded & Heo & Hge).
  destruct (extrude_edge_only_spec _ _ _ _ Hnd Heo) as (Horig & Hold & Hnewf & _).
  cbv zeta in Horig, Hold, Hnewf.
  destruct (all_edges_map (geom_edges geom)) as (xs & Hxs).
  { intros el Hel. destruct (Hge el Hel) as (x & -> & _). eauto. }
  destruct (move_all_stores _ _ _ _ _ _ Hmove) as [Hes Hfs].
  assert (Hxs' : forall x, In x xs ->
            (length (edge_store bm) <= x)%nat
            /\ exists d, nth_error (edge_store bm2) x = Some d /\ e_hide d = false).
  { intros x Hx. destruct (Hge (BMEdge x)) as (x' & Ex & Hle & e0 & d0 & dx & Hin0 & G0 & Hn & Hh).
    { rewrite Hxs. now apply in_map. }
    injection Ex as <-. split; [assumption|]. exists dx. rewrite Hes. split; [assumption|].
    destruct (Hedges _ Hin0) as (d0' & G0' & Hh0). congruence. }
  destruct (clean_selection _ _ _ _ _ _ Hxs Hclean) as [Hnew Horig'].
  { intros x Hx. apply (proj2 (Hxs' x Hx)). }
  split.
  - intros e He. apply Hnew. rewrite Hxs in He. apply in_map_iff in He.
    destruct He as (x & Ex & Hx). now injection Ex as <-.
  - intros e He. destruct (Hedges _ He) as (d0 & G0 & Hh0).
    destruct (Horig _ He) as (d & q & G & Hn & Hq & Hvq).
    assert (d = d0) as -> by congruence.
    assert (Hlt : (e < length (edge_store bm))%nat).
    { apply nth_error_Some. rewrite (get_edge_nth _ _ _ G). discriminate. }
    assert (Hv : e_valid d0 = true).
    { unfold get_edge in G. destruct (nth_error (edge_store bm) e) as [d1|]; [|discriminate].
      destruct (e_valid d1) eqn:V; [|discriminate]. now injection G as <-. }
    refine (Horig' e _ _ _ _ _ _ _).
    + intro Hin. apply Hxs' in Hin. lia.
    + rewrite Hes. exact Hn.
    + exact Hv.
    + exact Hh0.
    + exists q. split; [apply in_or_app; right; now left|].
      rewrite (proj1 (face_flags_ext bm1 bm2 q (f_equal (fun s => nth_error s q) Hfs))).
      exact Hvq.
    + intros g Hg Hs.
      pose proof (face_flags_ext bm1 bm2 g (f_equal (fun s => nth_error s g) Hfs)) as [Ev Es].
      rewrite Ev. rewrite Es in Hs.
      destruct (Nat.lt_ge_cases g (length (face_store bm))) as [Hlg|Hge'].
      * pose proof (face_flags_ext bm bm1 g (Hold g Hlg)) as [Ev1 Es1].
        rewrite Ev1. apply Hfaces. now rewrite <- Es1.
      * rewrite (Hnewf g Hge') in Hs. discriminate.
Qed.


Lemma collect_edges_selected (bm : BMesh) (s : list nat) :
  collect_edges bm = Ok (Some s) ->
  NoDup s
  /\ forall e, In e s -> exists ed, get_edge bm e = Ok ed /\ e_select ed = true.
Proof.
  unfold collect_edges.
  destruct (foldM (collect_edges_step bm) [] (bm_edges bm)) as [acc| |] eqn:F;
    cbn [bind]; try discriminate.
  intro H. assert (acc = s) as ->.
  { destruct acc; [discriminate|]. now injection H as <-. }
  clear H.
  pose (P := fun (_ : list nat) (acc : list nat) =>
    NoDup acc
    /\ forall e, In e acc -> exists ed, get_edge bm e = Ok ed /\ e_select ed = true).
  refine (foldM_prefix_inv (collect_edges_step bm) P _ (bm_edges bm) [] [] s _ F).
  - intros pre acc e acc' [Hnd Hin] Hstep. unfold collect_edges_step in Hstep.
    destruct (get_edge bm e) as [ed| |] eqn:G; cbn [bind] in Hstep; try discriminate.
    destruct (e_select ed) eqn:Hsel.
    + destruct (count_faces_selected bm (e_link_faces ed) 0) as [c| |];
        cbn [bind] in Hstep; try discriminate.
      injection Hstep as <-. destruct c; [|now split].
      split; [now apply set_add_NoDup|].
      intros x Hx. apply set_add_In in Hx. destruct Hx as [->|Hx]; eauto.
    + injection Hstep as <-. now split.
  - split; [constructor|intros ? []].
Qed.

Lemma mirror_pairs_inner_NoDup (g : globals) (bm : BMesh) (e v1 v2 : nat)
    (planes : list mirror_plane) :
  forall d copy d' copy',
    foldM (mirror_pairs_step g bm e v1 v2) (d, copy) planes = Ok (d', copy') ->
    NoDup copy -> NoDup copy' /\ incl copy' copy.
Proof.
  induction planes as [|mp planes IH]; intros d copy d' copy' H Hnd; cbn [foldM] in H.
  - injection H as <- <-. split; [assumption|apply incl_refl].
  - destruct (mirror_pairs_step g bm e v1 v2 (d, copy) mp) as [[d1 copy1]| |] eqn:St;
      cbn [bind] in H; try discriminate.
    apply mirror_pairs_step_spec in St. destruct St as [_ Hc].
    assert (H1 : NoDup copy1 /\ incl copy1 copy).
    { destruct (on_mirror_plane g bm mp v1 && on_mirror_plane g bm mp v2)%bool.
      - destruct Hc as [_ ->]. split; [now apply discard_NoDup|].
        intros x Hx. apply discard_In in Hx. tauto.
      - subst. split; [assumption|apply incl_refl]. }
    destruct H1 as [Hnd1 Hi1].
    destruct (IH _ _ _ _ H Hnd1) as [Hnd' Hi']. split; [assumption|].
    intros x Hx. auto.
Qed.

Lemma mirror_pairs_NoDup (g : globals) (bm : BMesh) (s : list nat)
    (planes : list mirror_plane) (vp : option vert_dict) (copy : list nat) :
  get_vert_mirror_pairs g bm s planes = Ok (vp, copy) ->
  NoDup s -> NoDup copy /\ incl copy s.
Proof.
  unfold get_vert_mirror_pairs. intros H Hnd.
  destruct planes as [|mp0 planes0].
  { injection H as _ <-. split; [assumption|apply incl_refl]. }
  set (planes := mp0 :: planes0) in *.
  match type of H with context [foldM ?b _ s] => set (body := b) in H end.
  destruct (foldM body ([], s) s) as [[d1 copy1]| |] eqn:F;
    cbn [bind] in H; try discriminate.
  injection H as _ <-.
  pose (P := fun (_ : list nat) (acc : vert_dict * list nat) =>
    NoDup (snd acc) /\ incl (snd acc) s).
  refine (foldM_prefix_inv body P _ s [] ([], s) (d1, copy1) _ F).
  - intros pre [d copy] e [d' copy'] [Hn Hi] Hb. unfold body in Hb.
    destruct (get_edge bm e) as [ed| |]; cbn [bind] in Hb; try discriminate.
    destruct (e_verts ed) as [v1 v2].
    destruct (mirror_pairs_inner_NoDup _ _ _ _ _ _ _ _ _ _ Hb Hn) as [Hn' Hi'].
    split; [assumption|]. simpl in *. intros x Hx. auto.
  - split; [assumption|apply incl_refl].
Qed.

Lemma get_offset_infos_edges (self self1 : OffsetEdges) (g g1 : globals)
    (bm : BMesh) (ob : edit_object_t) (infos : offset_infos_t) (edges : list nat) :
  get_offset_infos self g bm ob = Ok (INFOS infos edges, self1, g1) ->
  NoDup edges
  /\ forall e, In e edges -> exists ed, get_edge bm e = Ok ed /\ e_select ed = true.
Proof.
  unfold get_offset_infos. intro H.
  destruct (caches_valid self && is_some (cache_offset_infos self))%bool;
    [discriminate|].
  destruct (collect_edges bm) as [[s|]| |] eqn:C; cbn [bind] in H;
    try discriminate.
  destruct (collect_edges_selected _ _ C) as [Hnd Hsel].
  assert (Hs : exists pairs s' self',
            NoDup s' /\ incl s' s
            /\ (loops <- collect_loops bm s' ;;
                match loops with
                | None => Ok (FAILED, report Overlap_detected self', g)
                | Some loops =>
                    let vec_upward := normalized (vadd (vadd X_UP Y_UP) (Z_UP g)) in
                    let normal_fallback := Ref_Z_UP in
                    '(offset_infos, g) <-
                      foldM (fun '(offset_infos, g) lp =>
                               '(verts, directions, g) <-
                                 get_directions g bm lp vec_upward normal_fallback
                                   pairs (options_of self') ;;
                               Ok (match verts with
                                   | [] => offset_infos
                                   | _ => offset_infos ++ [(verts, directions)]
                                   end, g))
                            ([], g) loops ;;
                    cache <- mapM (fun '(verts, directions) =>
                                     v_ixs <- mapM (fun v => vd <- get_vert bm v ;;
                                                             Ok (v_index vd)) verts ;;
                                     Ok (v_ixs, directions))
                                  offset_infos ;;
                    e_ixs <- mapM (fun e => ed <- get_edge bm e ;; Ok (e_index ed))
                                  s' ;;
                    Ok (INFOS offset_infos s', set_caches cache e_ixs self', g)
                end) = Ok (INFOS infos edges, self1, g1)).
  { destruct (mirror_modifier self).
    - destruct (collect_mirror_planes ob) as [planes| |]; cbn [bind] in H;
        try discriminate.
      destruct (get_vert_mirror_pairs g bm s planes) as [[vp s']| |] eqn:M;
        cbn [bind] in H; try discriminate.
      destruct (mirror_pairs_NoDup _ _ _ _ _ _ M Hnd) as [Hn' Hi'].
      eexists vp, s', _. split; [assumption|]. split; [assumption|]. exact H.
    - cbn [bind] in H. exists None, s, self.
      split; [assumption|]. split; [apply incl_refl|]. exact H. }
  clear H. destruct Hs as (pairs & s' & self' & Hn' & Hi' & H).
  destruct (collect_loops bm s') as [[loops|]| |]; cbn [bind] in H;
    try discriminate.
  cbv zeta in H.
  repeat (bind_inv H; try match type of H with
                          | context [let (_, _) := ?a in _] => destruct a
                          end).
  injection H as _ <- _ _. split; [assumption|]. intros e He. apply Hsel. auto.
Qed.


Lemma get_offset_infos_mode (self self1 : OffsetEdges) (g g1 : globals)
    (bm : BMesh) (ob : edit_object_t) (r : offset_infos_result) :
  get_offset_infos self g bm ob = Ok (r, self1, g1) ->
  geometry_mode self1 = geometry_mode self
  /\ depth_mode self1 = depth_mode self.
Proof.
  unfold get_offset_infos. intro H.
  destruct (caches_valid self && is_some (cache_offset_infos self))%bool.
  { injection H as <- <- <-. auto. }
  destruct (collect_edges bm) as [[s|]| |]; cbn [bind] in H; try discriminate.
  - bind_inv H. destruct a as [[pairs s'] self'].
    assert (Hs : geometry_mode self' = geometry_mode self
                 /\ depth_mode self' = depth_mode self).
    { destruct (mirror_modifier self).
      - bind_inv E. bind_inv E. destruct a0 as [pairs0 s0].
        injection E as <- <- <-. destruct s0; auto.
      - injection E as <- <- <-. auto. }
    destruct Hs as [<- <-].
    bind_inv H. destruct a as [loops|].
    + cbv zeta in H.
      repeat (bind_inv H; try match type of H with
                              | context [let (_, _) := ?a in _] => destruct a
                              end).
      injection H as _ <- _. auto.
    + injection H as _ <- _. auto.
  - injection H as _ <- _. auto.
Qed.

Lemma from_mesh_visible (me : BMesh) :
  hidden_unselected me = true ->
  (forall e d, get_edge (from_mesh me) e = Ok d -> e_select d = true ->
               e_hide d = false)
  /\ (forall g, face_in_selection (from_mesh me) g = true ->
                face_visible (from_mesh me) g = true).
Proof.
  unfold hidden_unselected. intro H. apply andb_prop in H. destruct H as [He Hf].
  rewrite forallb_forall in He, Hf. split.
  - intros e d G Hs. apply get_edge_nth in G. unfold from_mesh in G. simpl in G.
    pose proof (renumber_nth e_valid with_e_index (edge_store me) 0%Z e) as Hr.
    destruct (nth_error (edge_store me) e) as [d0|] eqn:N; [|congruence].
    destruct Hr as (i & Hr). rewrite Hr in G. injection G as <-.
    apply nth_error_In in N. apply He in N.
    destruct (e_valid d0); simpl in *; destruct (e_hide d0); auto;
      rewrite Hs in N; discriminate.
  - intros g. unfold face_in_selection, face_visible, from_mesh. simpl.
    destruct (nth_error (face_store me) g) as [d|] eqn:N; [|discriminate].
    apply nth_error_In in N. apply Hf in N.
    destruct (f_valid d), (f_select d), (f_hide d); simpl in *; congruence.
Qed.

Lemma cache_replay (self self0 self1 : OffsetEdges) (g0 g1 : globals)
    (me : BMesh) (ob : edit_object_t) (infos : offset_infos_t) (edges : list nat) :
  get_offset_infos self0 g0 (from_mesh me) ob = Ok (INFOS infos edges, self1, g1) ->
  cache_offset_infos self = cache_offset_infos self1 ->
  cache_edges_orig_ixs self = cache_edges_orig_ixs self1 ->
  do_offset_and_free self (from_mesh me) None None
  = do_offset_and_free self (from_mesh me) (Some infos) (Some edges).
Proof.
  unfold get_offset_infos. intros H Hc He.
  destruct (caches_valid self0 && is_some (cache_offset_infos self0))%bool;
    [discriminate|].
  destruct (collect_edges (from_mesh me)) as [[s|]| |]; cbn [bind] in H;
    try discriminate.
  match type of H with
  | bind ?m _ = _ => destruct m as [[[pairs s'] self']| |]; cbn [bind] in H;
                     try discriminate
  end.
  destruct (collect_loops (from_mesh me) s') as [[loops|]| |]; cbn [bind] in H;
    try discriminate.
  match type of H with
  | bind ?m _ = _ => destruct m as [[infos' g']| |]; cbn [bind] in H;
                     try discriminate
  end.
  match type of H with
  | bind ?m _ = _ => destruct m as [cache| |] eqn:C; cbn [bind] in H;
                     try discriminate
  end.
  match type of H with
  | bind ?m _ = _ => destruct m as [e_ixs| |] eqn:E; cbn [bind] in H;
                     try discriminate
  end.
  injection H as <- <- <- <-.
  unfold do_offset_and_free. rewrite Hc, He.
  cbn [cache_edges_orig_ixs cache_offset_infos set_caches bind].
  rewrite (edge_indices_round_trip _ _ _ E). cbn [bind].
  rewrite (offset_infos_round_trip _ _ _ C). cbn [bind].
  reflexivity.
Qed.

(** C9: After a successful invocation in extrude or offset mode, every
    newly created boundary edge (the copies [geom_edges] that
    [extrude_edges] makes of the original edges) is selected and every
    original edge of the qualifying set is deselected.  [edges_orig] is
    the qualifying set of the mesh: the set [get_offset_infos] computes
    in this invocation, or, when the invocation answers from the caches,
    the set computed on this mesh by the invocation that saved them.  The
    mesh comes from the host, where a hidden edge or face is never
    selected. *)
Theorem execute_selects_new_deselects_original
    (ctx ctx' : context_t) (self0 self1 : OffsetEdges) (g0 g1 : globals)
    (infos : offset_infos_t) (edges_orig : list nat) :
  let bm := from_mesh (data (edit_object ctx)) in
  geometry_mode (self_ ctx) = extrude \/ geometry_mode (self_ ctx) = offset ->
  hidden_unselected (data (edit_object ctx)) = true ->
  get_offset_infos self0 g0 bm (edit_object ctx)
  = Ok (INFOS infos edges_orig, self1, g1) ->
  (uses_caches (self_ ctx) = false /\ self0 = self_ ctx /\ g0 = module_ ctx)
  \/ (uses_caches (self_ ctx) = true
      /\ cache_offset_infos (self_ ctx) = cache_offset_infos self1
      /\ cache_edges_orig_ixs (self_ ctx) = cache_edges_orig_ixs self1) ->
  execute ctx = Ok (FINISHED, ctx') ->
  exists bm1 geom,
    extrude_edges bm edges_orig = Ok (bm1, geom)
    /\ (forall e, In (BMEdge e) (geom_edges geom) ->
                  edge_selected (data (edit_object ctx')) e = true)
    /\ (forall e, In e edges_orig ->
                  edge_selected (data (edit_object ctx')) e = false).
Proof.
  intros bm Hmode Hhid Hinfos Hcase Hex.
  destruct (from_mesh_visible _ Hhid) as [Hev Hfv].
  destruct (get_offset_infos_edges _ _ _ _ _ _ _ _ Hinfos) as [Hnd Hsel].
  assert (Hedges : forall e, In e edges_orig ->
            exists d, get_edge bm e = Ok d /\ e_hide d = false).
  { intros e He. destruct (Hsel e He) as (d & G & Hs). exists d. split; [assumption|].
    now apply (Hev e d). }
  assert (Hrun : exists self self' me,
            geometry_mode self <> move
            /\ do_offset_and_free self bm (Some infos) (Some edges_orig) = Ok (self', me)
            /\ data (edit_object ctx') = me).
  { unfold execute in Hex. fold bm in Hex. unfold uses_caches in Hcase.
    destruct Hcase as [(Hu & -> & ->)|(Hu & Hc & He)].
    - rewrite Hinfos in Hex. cbn [bind] in Hex. bind_inv Hex.
      destruct a as [self' me]. injection Hex as <-.
      exists self1, self', me. split; [|split; [assumption|reflexivity]].
      rewrite (proj1 (get_offset_infos_mode _ _ _ _ _ _ _ Hinfos)).
      destruct Hmode as [-> | ->]; discriminate.
    - unfold get_offset_infos in Hex. rewrite Hu in Hex. cbn [bind] in Hex.
      bind_inv Hex. destruct a as [self' me]. injection Hex as <-.
      exists (self_ ctx), self', me. split; [|split; [|reflexivity]].
      + destruct Hmode as [-> | ->]; discriminate.
      + rewrite <- E. symmetry. exact (cache_replay _ _ _ _ _ _ _ _ _ Hinfos Hc He). }
  destruct Hrun as (self & self' & me & Hm & Hdo & ->).
  exact (do_offset_selection _ _ _ _ _ _ Hm Hnd Hedges Hfv Hdo).
Qed.

Lemma wire_edge_run :
  exists infos self1 g1 ctx',
    get_offset_infos (self_ wire_edge_context) (module_ wire_edge_context)
      (from_mesh (data (edit_object wire_edge_context)))
      (edit_object wire_edge_context)
    = Ok (INFOS infos [0%nat], self1, g1)
    /\ execute wire_edge_context = Ok (FINISHED, ctx').
Proof.
  do 4 eexists. split.
  - unfold get_offset_infos. simpl caches_valid. simpl andb. cbv iota.
    replace (collect_edges (from_mesh (data (edit_object wire_edge_context))))
      with (Ok (Some [0]%nat) : result (option (list nat)))
      by (vm_compute; reflexivity).
    simpl bind. simpl mirror_modifier. cbv iota.
    unfold get_directions, calc_normal_from_verts. d_eval.
    reflexivity.
  - unfold execute, get_offset_infos. simpl caches_valid. simpl andb. cbv iota.
    replace (collect_edges (from_mesh (data (edit_object wire_edge_context))))
      with (Ok (Some [0]%nat) : result (option (list nat)))
      by (vm_compute; reflexivity).
    simpl bind. simpl mirror_modifier. cbv iota.
    unfold get_directions, calc_normal_from_verts. d_eval.
    reflexivity.
Qed.

Lemma execute_selects_new_deselects_original_witness :
  exists infos self1 g1 ctx' bm1 geom,
    (geometry_mode (self_ wire_edge_context) = extrude
     \/ geometry_mode (self_ wire_edge_context) = offset)
    /\ hidden_unselected (data (edit_object wire_edge_context)) = true
    /\ get_offset_infos (self_ wire_edge_context) (module_ wire_edge_context)
         (from_mesh (data (edit_object wire_edge_context)))
         (edit_object wire_edge_context)
       = Ok (INFOS infos [0%nat], self1, g1)
    /\ uses_caches (self_ wire_edge_context) = false
    /\ execute wire_edge_context = Ok (FINISHED, ctx')
    /\ extrude_edges (from_mesh (data (edit_object wire_edge_context))) [0%nat]
       = Ok (bm1, geom)
    /\ (forall e, In (BMEdge e) (geom_edges geom) ->
                  edge_selected (data (edit_object ctx')) e = true)
    /\ (forall e, In e [0%nat] ->
                  edge_selected (data (edit_object ctx')) e = false).
Proof.
  destruct wire_edge_run as (infos & self1 & g1 & ctx' & Hinfos & Hrun).
  assert (Hmode : geometry_mode (self_ wire_edge_context) = extrude
                  \/ geometry_mode (self_ wire_edge_context) = offset)
    by (left; reflexivity).
  assert (Hhid : hidden_unselected (data (edit_object wire_edge_context)) = true)
    by reflexivity.
  assert (Hu : uses_caches (self_ wire_edge_context) = false) by reflexivity.
  destruct (execute_selects_new_deselects_original
              wire_edge_context ctx' _ self1 _ g1 infos [0%nat]
              Hmode Hhid Hinfos
              (or_introl (conj Hu (conj eq_refl eq_refl))) Hrun)
    as (bm1 & geom & Hext & Hnew & Horig).
  exists infos, self1, g1, ctx', bm1, geom.
  repeat (split; [assumption|]). assumption.
Defined.
